(** * cached-function: a memoizing wrapper with per-receiver stores

    A shallow embedding of [index.js] (the [CachedFunction] factory, the
    [CacheLayer] closure it returns and [CachedFunction.clearCache]) together
    with the containers it is built on, followed by the properties of the
    engine.

    Conventions of the embedding.
    - JavaScript values are the inductive [Value]; objects and functions are
      known by their identity, numbers are rationals extended with [NaN] and
      the two infinities.
    - A function value is a closure: either a host function ([Plain]), whose
      behaviour is given by the host program, or the [CacheLayer] closure
      created by [CachedFunction], which captures [valueGetter],
      [strictArgMatch] and [ttl].
    - A host function is known by what it returns or throws for a receiver
      and an argument list; every run of its body is recorded in the trace
      [calls].  It does not call back into the engine.
    - The three module-level [WeakMap]s are fields of [State]; every operation
      is a state transformer that may return or throw, and what it did to the
      state before throwing stays done.
    - The [TTLMap] of a context is reached through [cachedValues] only (the
      variable [valuesForThis] of [CacheLayer] is local), so a method call on
      it is an update in place of the map the state holds.
    - [Date.now()] is an argument [now] of every operation (milliseconds).
    - The packages the module requires are not part of the repository: the
      containers are modelled from the specification, and what the module asks
      of the others ([maybe-stringify], [named-function], [get-descriptor],
      [modify-property]) is a field of the host program or a section
      variable.
    - [CachedFunction.cacheGetter] only installs a wrapper as the getter of a
      property; the host program describes objects with their properties as
      they are, cached getters included. *)

From Stdlib Require Import ZArith QArith Ascii String List Bool Lia.
From stdpp Require Import gmap strings.

Local Open Scope string_scope.
Local Open Scope list_scope.
Local Open Scope Z_scope.

(** ** Values *)

Definition ref := positive.
Bind Scope positive_scope with ref.

Inductive Num :=
| NaN
| Infinity (negative : bool)
| Finite (q : Q).

(** Function objects.  [CacheLayer id valueGetter strictArgMatch ttl] is the
    closure built at index.js:67; [id] is the identity of the function object
    returned by [NamedFunction], the other fields are the captured variables
    ([strictArgMatch] by its truthiness, the validated [ttl] as a duration). *)
Inductive Callable :=
| Plain (r : ref)
| CacheLayer (id : ref) (valueGetter : Callable) (strictArgMatch : bool) (ttl : option Z).

Inductive Value :=
| VUndefined
| VNull
| VBool (b : bool)
| VNum (n : Num)
| VStr (s : string)
| VGlobal
| VObj (r : ref)
| VFun (c : Callable).

Definition typeof (v : Value) : string :=
  match v with
  | VUndefined => "undefined"
  | VNull => "object"
  | VBool _ => "boolean"
  | VNum _ => "number"
  | VStr _ => "string"
  | VGlobal => "object"
  | VObj _ => "object"
  | VFun _ => "function"
  end.

Definition truthy (v : Value) : bool :=
  match v with
  | VUndefined | VNull => false
  | VBool b => b
  | VNum NaN => false
  | VNum (Infinity _) => true
  | VNum (Finite q) => negb (Qnum q =? 0)
  | VStr s => negb (String.eqb s "")
  | VGlobal | VObj _ | VFun _ => true
  end.

(** Identity of objects, as used for [WeakMap] keys.  [KNoThis] is the private
    object [noThis] of index.js:17. *)
Inductive WKey :=
| KNoThis
| KGlobal
| KObj (r : ref)
| KPlain (r : ref)
| KWrapper (id : ref).

Global Instance WKey_eq_dec : EqDecision WKey.
Proof. solve_decision. Defined.

Definition WKey_encode (k : WKey) : (bool + ref) + (ref + ref) :=
  match k with
  | KNoThis => inl (inl false)
  | KGlobal => inl (inl true)
  | KObj r => inl (inr r)
  | KPlain r => inr (inl r)
  | KWrapper r => inr (inr r)
  end.

Definition WKey_decode (x : (bool + ref) + (ref + ref)) : WKey :=
  match x with
  | inl (inl false) => KNoThis
  | inl (inl true) => KGlobal
  | inl (inr r) => KObj r
  | inr (inl r) => KPlain r
  | inr (inr r) => KWrapper r
  end.

Global Instance WKey_countable : Countable WKey.
Proof.
  apply (inj_countable' WKey_encode WKey_decode).
  intros []; reflexivity.
Defined.

Definition fn_key (c : Callable) : WKey :=
  match c with
  | Plain r => KPlain r
  | CacheLayer id _ _ _ => KWrapper id
  end.

(** The key under which a value can be held by a [WeakMap]; primitives have
    none ([has] answers false, [set] throws). *)
Definition weak_key (v : Value) : option WKey :=
  match v with
  | VGlobal => Some KGlobal
  | VObj r => Some (KObj r)
  | VFun c => Some (fn_key c)
  | _ => None
  end.

(** ** SameValueZero, the key comparison of [Map] *)

Definition num_eqb (a b : Num) : bool :=
  match a, b with
  | NaN, NaN => true
  | Infinity s, Infinity t => Bool.eqb s t
  | Finite p, Finite q => Qeq_bool p q
  | _, _ => false
  end.

Definition sameValueZero (a b : Value) : bool :=
  match a, b with
  | VUndefined, VUndefined => true
  | VNull, VNull => true
  | VBool x, VBool y => Bool.eqb x y
  | VNum x, VNum y => num_eqb x y
  | VStr x, VStr y => String.eqb x y
  | VGlobal, VGlobal => true
  | VObj r, VObj s => Pos.eqb r s
  | VFun c, VFun d => bool_decide (fn_key c = fn_key d)
  | _, _ => false
  end.

(** ** MultiKeyMap (package [multikey]) *)

(** Modelled from the spec: the [multikey] package is a dependency whose
    source is not part of the repository.  It is a [Map] whose keys are
    arrays: two keys are the same when they have the same length and their
    parts are the same part by part, by value for primitives and by identity
    for objects (SameValueZero).  Entries are kept in insertion order, one per
    key. *)
Definition MultiKeyMap (A : Type) := list (list Value * A).

Fixpoint keyEq (k1 k2 : list Value) : bool :=
  match k1, k2 with
  | [], [] => true
  | a :: k1', b :: k2' => sameValueZero a b && keyEq k1' k2'
  | _, _ => false
  end.

Fixpoint mk_get {A} (m : MultiKeyMap A) (k : list Value) : option A :=
  match m with
  | [] => None
  | (k', a) :: m' => if keyEq k' k then Some a else mk_get m' k
  end.

Definition mk_has {A} (m : MultiKeyMap A) (k : list Value) : bool :=
  match mk_get m k with Some _ => true | None => false end.

Fixpoint mk_set {A} (m : MultiKeyMap A) (k : list Value) (a : A) : MultiKeyMap A :=
  match m with
  | [] => [(k, a)]
  | (k', a') :: m' =>
      if keyEq k' k then (k', a) :: m' else (k', a') :: mk_set m' k a
  end.

Fixpoint mk_delete {A} (m : MultiKeyMap A) (k : list Value) : MultiKeyMap A :=
  match m with
  | [] => []
  | (k', a') :: m' =>
      if keyEq k' k then mk_delete m' k else (k', a') :: mk_delete m' k
  end.

(** ** TTLMap (package [ttlmap]) *)

(** Modelled from the spec: the [ttlmap] package is a dependency whose source
    is not part of the repository.  index.js:71-73 shows its two internal maps
    [_values] and [_ttls]; the operations follow the TTL Store contract:
    [set] with a ttl records the absolute deadline [now + ttl], [set] without
    one stores the value with no expiration, and [has]/[get] treat an entry
    whose deadline has been reached as absent and remove it. *)
Record TTLMap := mkTTLMap {
  _values : MultiKeyMap Value;
  _ttls : MultiKeyMap Z
}.

Definition ttl_new : TTLMap := mkTTLMap [] [].

Definition ttl_expired (now : Z) (m : TTLMap) (k : list Value) : bool :=
  match mk_get (_ttls m) k with
  | Some deadline => deadline <=? now
  | None => false
  end.

Definition ttl_delete (m : TTLMap) (k : list Value) : TTLMap :=
  mkTTLMap (mk_delete (_values m) k) (mk_delete (_ttls m) k).

Definition ttl_purge (now : Z) (m : TTLMap) (k : list Value) : TTLMap :=
  if ttl_expired now m k then ttl_delete m k else m.

Definition ttl_has (now : Z) (m : TTLMap) (k : list Value) : bool * TTLMap :=
  let m' := ttl_purge now m k in (mk_has (_values m') k, m').

Definition ttl_get (now : Z) (m : TTLMap) (k : list Value) : Value * TTLMap :=
  let m' := ttl_purge now m k in
  (match mk_get (_values m') k with Some v => v | None => VUndefined end, m').

Definition ttl_set (now : Z) (m : TTLMap) (k : list Value) (v : Value) (ttl : option Z) : TTLMap :=
  mkTTLMap (mk_set (_values m) k v)
           (match ttl with
            | Some t => mk_set (_ttls m) k (now + t)
            | None => mk_delete (_ttls m) k
            end).

Definition ttl_clear (m : TTLMap) : TTLMap := ttl_new.

(** What a reader sees at time [now]: the value of a live entry. *)
Definition ttl_peek (now : Z) (m : TTLMap) (k : list Value) : option Value :=
  if ttl_expired now m k then None else mk_get (_values m) k.

(** ** Completions: a call returns a value or throws *)

Inductive ErrorClass := Error | SyntaxError | TypeError | RangeError | ReferenceError.

Inductive outcome (A : Type) :=
| Returned (a : A)
| Thrown (cls : ErrorClass) (msg : string).
Arguments Returned {A} a.
Arguments Thrown {A} cls msg.

Definition NotCached (cls : ErrorClass) : Prop := cls = ReferenceError.

(** ** The host program *)

Inductive Descriptor :=
| DataProp (value : Value)
| AccessorProp (get : option Callable).

(** Everything the engine asks of the program around it.
    - [body r this args]: the behaviour of the host function of identity [r].
    - [getDescriptor r name]: the property [name] of object [r] as found along
      its prototype chain (package [get-descriptor] under [suppress]: absent
      instead of an exception).
    - [elements r]: the elements of [r] when it is an array.
    - [maybeStringify v]: the serialization of [v] (package [maybe-stringify])
      when there is one; [fallback] is what the package answers otherwise when
      the caller names no fallback.
    - [nameOf r]: the [name] property of the host function [r], a string.
    - [NamedFunction name]: whether the package [named-function] builds a
      function of that name, or what it throws.
    - [nullTtl]: the lifetime the package [ttlmap] gives an entry that is set
      with a ttl of [null]; [None] when it takes [null] for no ttl. *)
Record Host := mkHost {
  body : ref -> Value -> list Value -> outcome Value;
  getDescriptor : ref -> string -> option Descriptor;
  elements : ref -> option (list Value);
  maybeStringify : Value -> option string;
  fallback : Value;
  nameOf : ref -> string;
  NamedFunction : string -> outcome unit;
  nullTtl : option Z
}.

(** ** Engine state *)

(** One record of [calls] per execution of a host function body. *)
Record Call := mkCall {
  callee : ref;
  receiver : Value;
  arguments : list Value
}.

Record State := mkState {
  cachedFunctions : gmap WKey (gmap string Callable);
  cachedFunctionOptions : gmap WKey (option Value);
  cachedValues : gmap WKey (gmap WKey TTLMap);
  next_id : ref;
  calls : list Call
}.

Definition initial : State := mkState ∅ ∅ ∅ 1%positive [].

Definition M (A : Type) : Type := State -> outcome A * State.

Definition ret {A} (a : A) : M A := fun st => (Returned a, st).
Definition throw {A} (cls : ErrorClass) (msg : string) : M A := fun st => (Thrown cls msg, st).
Definition bind {A B} (m : M A) (k : A -> M B) : M B :=
  fun st =>
    match m st with
    | (Returned a, st') => k a st'
    | (Thrown cls msg, st') => (Thrown cls msg, st')
    end.
Definition lift {A} (o : outcome A) : M A := fun st => (o, st).
Definition get_state : M State := fun st => (Returned st, st).
Definition modify (f : State -> State) : M unit := fun st => (Returned tt, f st).

Notation "'let*' x ':=' m 'in' k" := (bind m (fun x => k))
  (at level 10, x name, m at level 100, k at level 200, only parsing).
Notation "m ';;;' k" := (bind m (fun _ => k))
  (at level 100, k at level 200, right associativity, only parsing).

(** Modelled from the spec: the [check-types] package is a dependency whose
    source is not part of the repository.  [check.assert(value, message,
    ErrorType)] throws an [ErrorType] unless [value] holds; the predicates
    below are the ones index.js asserts. *)
Definition assert (b : bool) (msg : string) (cls : ErrorClass) : M unit :=
  if b then ret tt else throw cls msg.

Definition assigned (v : Value) : bool :=
  match v with VUndefined | VNull => false | _ => true end.

Definition check_function (v : Value) : bool := String.eqb (typeof v) "function".
Definition check_string (v : Value) : bool := String.eqb (typeof v) "string".

Definition check_integer (v : Value) : bool :=
  match v with
  | VNum (Finite q) => (Qnum q) mod (Zpos (Qden q)) =? 0
  | _ => false
  end.

Definition check_positive (v : Value) : bool :=
  match v with
  | VNum (Finite q) => 0 <? Qnum q
  | _ => false
  end.

(** [check.maybe.p]: holds of [undefined] and [null], else as [p]. *)
Definition maybe (p : Value -> bool) (v : Value) : bool :=
  if assigned v then p v else true.

(** The lifetime [TTLMap.set] gives an entry for a validated [ttl]
    (index.js:87): the number of milliseconds for a number, none for
    [undefined]; what [ttlmap] makes of [null] is the host's [nullTtl]. *)
Definition ttl_duration (H : Host) (ttl : Value) : option Z :=
  match ttl with
  | VNum (Finite q) => Some (Qnum q / Zpos (Qden q))
  | VNull => nullTtl H
  | _ => None
  end.

(** [name.replace(getRegex, '')] with [getRegex = /^get /], index.js:18 and
    66. *)
Definition strip_get (name : string) : string :=
  match name with
  | String "g"%char (String "e"%char (String "t"%char (String " "%char rest))) => rest
  | _ => name
  end.

Definition set_cachedFunctions (f : gmap WKey (gmap string Callable) -> gmap WKey (gmap string Callable))
    (st : State) : State :=
  mkState (f (cachedFunctions st)) (cachedFunctionOptions st) (cachedValues st) (next_id st) (calls st).

Definition set_cachedFunctionOptions (f : gmap WKey (option Value) -> gmap WKey (option Value))
    (st : State) : State :=
  mkState (cachedFunctions st) (f (cachedFunctionOptions st)) (cachedValues st) (next_id st) (calls st).

Definition set_cachedValues (f : gmap WKey (gmap WKey TTLMap) -> gmap WKey (gmap WKey TTLMap))
    (st : State) : State :=
  mkState (cachedFunctions st) (cachedFunctionOptions st) (f (cachedValues st)) (next_id st) (calls st).

Definition fresh_function (st : State) : State :=
  mkState (cachedFunctions st) (cachedFunctionOptions st) (cachedValues st)
          (Pos.succ (next_id st)) (calls st).

Definition record_call (c : Call) (st : State) : State :=
  mkState (cachedFunctions st) (cachedFunctionOptions st) (cachedValues st) (next_id st)
          (calls st ++ [c]).

(** The TTLMap that wrapper [id] holds for [context]. *)
Definition store (st : State) (id : ref) (context : WKey) : option TTLMap :=
  match cachedValues st !! KWrapper id with
  | Some perContext => perContext !! context
  | None => None
  end.

(** A method call on [cachedValues.get(cachedFunction).get(context)]: the map
    is read, the method runs, and the map it leaves is what the wrapper holds
    afterwards. *)
Definition with_store {A} (id : ref) (context : WKey) (method : TTLMap -> A * TTLMap) : M A :=
  fun st =>
    let m := default ttl_new (store st id context) in
    (Returned (fst (method m)),
     set_cachedValues (alter (alter (fun _ => snd (method m)) context) (KWrapper id)) st).

Section Engine.

Variable H : Host.

(** Reading an option: the value of the data property [name] of the options
    object.  Primitives and functions carry none of the option names, and an
    options object is plain data (an accessor is read as absent). *)
Definition data_get (v : Value) (name : string) : Value :=
  match v with
  | VObj r =>
      match getDescriptor H r name with
      | Some (DataProp x) => x
      | _ => VUndefined
      end
  | _ => VUndefined
  end.

Definition default_to (d v : Value) : Value :=
  match v with VUndefined => d | _ => v end.

(** [maybeStringify(arg)] as a value. *)
Definition serialize (arg : Value) : Value :=
  match maybeStringify H arg with
  | Some s => VStr s
  | None => fallback H
  end.

(** index.js:29-33.  [strictArgMatch] is the raw second argument: the default
    [true] replaces [undefined] only. *)
Definition generateKey (args : list Value) (strictArgMatch : Value) : list Value :=
  if truthy (default_to (VBool true) strictArgMatch) then args
  else map serialize args.

(** The parameter pattern [{strictArgMatch = true, ttl} = {}] of index.js:51
    applied to [arguments[1]]; it is evaluated before the body and throws on
    [null]. *)
Definition destructure (options : Value) : outcome (Value * Value) :=
  match options with
  | VUndefined => Returned (VBool true, VUndefined)
  | VNull => Thrown TypeError "Cannot destructure property of null"
  | _ => Returned (default_to (VBool true) (data_get options "strictArgMatch"),
                   data_get options "ttl")
  end.

(** [maybeStringify(arguments[1], {fallback: ''})], index.js:56. *)
Definition paramsKey (options : Value) : string :=
  match maybeStringify H options with
  | Some s => s
  | None => ""
  end.

(** [cachedFunctions.has(valueGetter) && cachedFunctions.get(valueGetter).has(paramsKey)]
    with the wrapper found, index.js:57-58. *)
Definition registered (st : State) (valueGetter : Value) (key : string) : option Callable :=
  match weak_key valueGetter with
  | Some k =>
      match cachedFunctions st !! k with
      | Some byParams => byParams !! key
      | None => None
      end
  | None => None
  end.

(** [valueGetter.name].  A wrapper has the name it was given through
    [NamedFunction] (index.js:66-67). *)
Fixpoint function_name (f : Callable) : string :=
  match f with
  | Plain r => nameOf H r
  | CacheLayer _ valueGetter _ _ => strip_get (function_name valueGetter)
  end.

(** index.js:51-100.  [this] is the receiver of the call: [undefined] for a
    direct call, the new object under [new].  [NamedFunction] is called
    before anything is written (lines 66-67) and may throw. *)
Definition CachedFunction (this valueGetter options : Value) : M Value :=
  let* params := lift (destructure options) in
  let strictArgMatch := fst params in
  let ttl := snd params in
  assert (String.eqb (typeof this) "undefined")
         "Do not call CachedFunction with `new`. Call it directly." SyntaxError ;;;
  let key := paramsKey options in
  let* st := get_state in
  match registered st valueGetter key with
  | Some cachedFunction => ret (VFun cachedFunction)
  | None =>
      match valueGetter with
      | VFun getter =>
          assert (maybe check_integer ttl) "ttl must be a positive integer" TypeError ;;;
          assert (maybe check_positive ttl) "ttl must be a positive integer" RangeError ;;;
          let functionName := strip_get (function_name getter) in
          lift (NamedFunction H functionName) ;;;
          let id := next_id st in
          let cachedFunction := CacheLayer id getter (truthy strictArgMatch) (ttl_duration H ttl) in
          modify fresh_function ;;;
          modify (set_cachedValues (insert (KWrapper id) ∅)) ;;;
          modify (set_cachedFunctionOptions
                    (insert (KWrapper id) (if truthy options then Some options else None))) ;;;
          modify (set_cachedFunctions (fun m =>
                    match m !! fn_key getter with
                    | Some _ => m
                    | None => <[fn_key getter := ∅]> m
                    end)) ;;;
          modify (set_cachedFunctions (alter (insert key cachedFunction) (fn_key getter))) ;;;
          ret (VFun cachedFunction)
      | _ => throw TypeError "valueGetter must be a function"
      end
  end.

(** The receiver's context, index.js:69; a primitive receiver has none. *)
Definition context_of (this : Value) : option WKey :=
  match this with
  | VGlobal => Some KNoThis
  | _ => weak_key this
  end.

(** Calling a function value.  For a [CacheLayer] closure this is
    index.js:67-89; for a host function it runs the body and records the
    call. *)
Fixpoint apply (f : Callable) (this : Value) (args : list Value) (now : Z) : M Value :=
  match f with
  | Plain r =>
      modify (record_call (mkCall r this args)) ;;;
      lift (body H r this args)
  | CacheLayer id valueGetter strictArgMatch ttl =>
      let* st := get_state in
      match cachedValues st !! KWrapper id with
      | None => throw TypeError "Cannot read properties of undefined"
      | Some perContext =>
          match context_of this with
          | None => throw TypeError "Invalid value used as weak map key"
          | Some context =>
              (match perContext !! context with
               | Some _ => ret tt
               | None => modify (set_cachedValues (alter (insert context ttl_new) (KWrapper id)))
               end) ;;;
              let key := generateKey args (VBool strictArgMatch) in
              let* hit := with_store id context (fun m => ttl_has now m key) in
              if hit then
                with_store id context (fun m => ttl_get now m key)
              else
                let* value := apply valueGetter this args now in
                with_store id context (fun m => (tt, ttl_set now m key value ttl)) ;;;
                ret value
          end
      end
  end.

(** [object[name]]: a data property yields its value, an accessor property
    runs its getter on the object. *)
Definition Get (object : Value) (name : string) (now : Z) : M Value :=
  match object with
  | VNull => throw TypeError "Cannot read properties of null"
  | VObj r =>
      match getDescriptor H r name with
      | Some (DataProp v) => ret v
      | Some (AccessorProp (Some getter)) => apply getter object [] now
      | Some (AccessorProp None) => ret VUndefined
      | None => ret VUndefined
      end
  | _ => ret VUndefined
  end.

(** The [args] variable of [clearCache] after the first block: the caller's
    value, or the literal [[]] of index.js:152. *)
Inductive ClearArgs :=
| ArgsGiven (v : Value)
| ArgsEmptyLiteral.

Definition check_array (v : Value) : bool :=
  match v with
  | VObj r => match elements H r with Some _ => true | None => false end
  | _ => false
  end.

Definition maybe_array (a : ClearArgs) : bool :=
  match a with
  | ArgsGiven v => maybe check_array v
  | ArgsEmptyLiteral => true
  end.

(** [Array.from(args)], index.js:30, for the values that reach it from
    [clearCache]: an array, the literal [[]], or [null]. *)
Definition array_from (a : ClearArgs) : outcome (list Value) :=
  match a with
  | ArgsEmptyLiteral => Returned []
  | ArgsGiven (VObj r) =>
      match elements H r with
      | Some l => Returned l
      | None => Returned []
      end
  | ArgsGiven _ => Thrown TypeError "object null is not iterable"
  end.

Definition descriptor_of (object : Value) (name : string) : option Descriptor :=
  match object with
  | VObj r => getDescriptor H r name
  | _ => None
  end.

Definition desc_get (d : Descriptor) : Value :=
  match d with
  | AccessorProp (Some getter) => VFun getter
  | _ => VUndefined
  end.

Definition string_of (v : Value) : string :=
  match v with VStr s => s | _ => "" end.

(** The identity of a value whose [typeof] is ["object"] and that is not
    [null]. *)
Definition object_key (v : Value) : WKey :=
  match v with
  | VObj r => KObj r
  | _ => KGlobal
  end.

(** The first block of [clearCache], index.js:136-159: the function whose
    cache is meant, the context and the argument list.  The member is read
    at line 144 and, when that read is a function, once more at line 145. *)
Definition resolve_target (objectOrFunction methodName args : Value) (now : Z)
    : M (Value * WKey * ClearArgs) :=
  if String.eqb (typeof objectOrFunction) "object" then
    assert (check_string methodName)
           "Must provide a method name if first argument is an object" TypeError ;;;
    let context := object_key objectOrFunction in
    let* member := Get objectOrFunction (string_of methodName) now in
    if String.eqb (typeof member) "function" then
      let* cachedFunction := Get objectOrFunction (string_of methodName) now in
      ret (cachedFunction, context, ArgsGiven args)
    else
      match descriptor_of objectOrFunction (string_of methodName) with
      | None => throw ReferenceError "Could not find a method"
      | Some desc => ret (desc_get desc, context, ArgsEmptyLiteral)
      end
  else
    assert (check_function objectOrFunction)
           "First argument must be a function or object" TypeError ;;;
    ret (objectOrFunction, KNoThis, ArgsGiven methodName).

(** [cachedValues.has(cachedFunction)] with the key and the per-context map,
    index.js:161 and 164. *)
Definition cached (st : State) (cachedFunction : Value) : option (WKey * gmap WKey TTLMap) :=
  match weak_key cachedFunction with
  | Some k =>
      match cachedValues st !! k with
      | Some perContext => Some (k, perContext)
      | None => None
      end
  | None => None
  end.

(** The second block of [clearCache], index.js:161-173. *)
Definition clear_entries (cachedFunction : Value) (context : WKey) (args : ClearArgs) : M unit :=
  let* st := get_state in
  match cached st cachedFunction with
  | None => throw ReferenceError "Function is not cached."
  | Some (k, perContext) =>
      assert (maybe_array args) "Arguments must be passed as an array" TypeError ;;;
      match perContext !! context with
      | None => ret tt
      | Some _ =>
          match args with
          | ArgsGiven VUndefined =>
              modify (set_cachedValues (alter (delete context) k))
          | _ =>
              match cachedFunctionOptions st !! k with
              | None => throw TypeError "Cannot read properties of undefined"
              | Some options =>
                  let strictArgMatch := match options with
                                        | Some o => data_get o "strictArgMatch"
                                        | None => VUndefined
                                        end in
                  let* elems := lift (array_from args) in
                  let key := generateKey elems strictArgMatch in
                  modify (set_cachedValues (alter (alter (fun m => ttl_delete m key) context) k))
              end
          end
      end
  end.

(** index.js:135-174. *)
Definition clearCache (objectOrFunction methodName args : Value) (now : Z) : M unit :=
  let* target := resolve_target objectOrFunction methodName args now in
  clear_entries (fst (fst target)) (snd (fst target)) (snd target).

End Engine.

(** ** Observations and invariants used by the statements *)

(** The state in which wrapper [id] holds a map for [context]
    (index.js:70-75). *)
Definition ensure_store (id : ref) (context : WKey) (st : State) : State :=
  match store st id context with
  | Some _ => st
  | None => set_cachedValues (alter (insert context ttl_new) (KWrapper id)) st
  end.

Definition put_store (id : ref) (context : WKey) (m : TTLMap) : State -> State :=
  set_cachedValues (alter (alter (fun _ => m) context) (KWrapper id)).

(** What wrapper [id] would answer from its cache for [key] in [context] at
    time [now]. *)
Definition lookup_cache (st : State) (id : ref) (context : WKey) (key : list Value) (now : Z)
    : option Value :=
  match store st id context with
  | Some m => ttl_peek now m key
  | None => None
  end.

(** The state in which a [CacheLayer] call that found nothing live for [key]
    runs [valueGetter]: the context has its map and a stale entry for [key]
    has been dropped by the read. *)
Definition miss_state (id : ref) (context : WKey) (key : list Value) (now : Z) (st : State) : State :=
  put_store id context (ttl_purge now (default ttl_new (store st id context)) key)
            (ensure_store id context st).

(** [valuesForThis.set(key, value, ttl)] on the state [valueGetter] left. *)
Definition fill (id : ref) (context : WKey) (key : list Value) (now : Z) (value : Value)
    (ttl : option Z) (st : State) : State :=
  put_store id context (ttl_set now (default ttl_new (store st id context)) key value ttl) st.

(** [cachedValues.get(cachedFunction).delete(context)], index.js:168. *)
Definition drop_store (id : ref) (context : WKey) : State -> State :=
  set_cachedValues (alter (delete context) (KWrapper id)).

(** The state [clearCache] leaves when it succeeds on wrapper [id], context
    [context] and the key [key] (index.js:171-172). *)
Definition delete_entry (id : ref) (context : WKey) (key : list Value) (st : State) : State :=
  match store st id context with
  | Some m => put_store id context (ttl_delete m key) st
  | None => st
  end.

(** The two forms of [clearCache] in which the caller names the function
    itself: [clearCache(c, a)], and [clearCache(object, name, a)] where the
    member [name] of the object is a data property holding the function [c].
    The last three indices are the function, the context and the argument
    list the call works on. *)
Inductive direct_target (H : Host) : Value -> Value -> Value -> Callable -> WKey -> Value -> Prop :=
| target_function c a third :
    direct_target H (VFun c) a third c KNoThis a
| target_method r name c a :
    getDescriptor H r name = Some (DataProp (VFun c)) ->
    direct_target H (VObj r) (VStr name) a c (KObj r) a.

(** The forms of [clearCache] in which the first block resolves what the
    caller names and keeps the caller's argument list: [clearCache(c, a)],
    and [clearCache(object, name, a)] where the member [name] of the object,
    read at [now] in [st], is a function; [cf] is then what the second read
    of the member (index.js:145) yields.  The last four indices are the
    value whose cache is meant, the context, the argument list and the state
    the reads leave. *)
Inductive callable_target (H : Host) (now : Z) (st : State)
  : Value -> Value -> Value -> Value -> WKey -> Value -> State -> Prop :=
| callable_function c a third :
    callable_target H now st (VFun c) a third (VFun c) KNoThis a st
| callable_member r name a c0 st1 cf st2 :
    Get H (VObj r) name now st = (Returned (VFun c0), st1) ->
    Get H (VObj r) name now st1 = (Returned cf, st2) ->
    callable_target H now st (VObj r) (VStr name) a cf (KObj r) a st2.

(** The footprint of a call with receiver context [ctx]: the registry, the
    options and the identities are untouched, no wrapper and no per-context
    map disappears, the maps of every other context are unchanged, and the
    trace only grows. *)
Definition only_context (ctx : option WKey) (st st' : State) : Prop :=
  cachedFunctions st' = cachedFunctions st /\
  cachedFunctionOptions st' = cachedFunctionOptions st /\
  next_id st' = next_id st /\
  (forall k, is_Some (cachedValues st' !! k) <-> is_Some (cachedValues st !! k)) /\
  (forall id ctx', is_Some (store st id ctx') -> is_Some (store st' id ctx')) /\
  (forall id ctx', ctx <> Some ctx' -> store st' id ctx' = store st id ctx') /\
  (exists l, calls st' = calls st ++ l).

(** [cachedFunctions.get(k).get(p)] is [c]. *)
Definition registry_entry (st : State) (k : WKey) (p : string) (c : Callable) : Prop :=
  exists byParams, cachedFunctions st !! k = Some byParams /\ byParams !! p = Some c.

(** The registry holds [CacheLayer] closures only, each under the identity of
    its own [valueGetter], with identities below [next_id] and no identity
    registered twice. *)
Definition registry_wf (st : State) : Prop :=
  (forall k p c,
      registry_entry st k p c ->
      exists id g s t, c = CacheLayer id g s t /\ k = fn_key g /\ (id < next_id st)%positive)
  /\
  (forall k k' p p' c c',
      registry_entry st k p c -> registry_entry st k' p' c' ->
      fn_key c = fn_key c' -> k = k' /\ p = p').

(** The wrapper [CachedFunction] builds for [valueGetter] and [options] in
    [st], and the state it leaves (index.js:66-99). *)
Definition new_wrapper (H : Host) (valueGetter : Callable) (options : Value) (st : State) : Callable :=
  CacheLayer (next_id st) valueGetter
             (truthy (default_to (VBool true) (data_get H options "strictArgMatch")))
             (ttl_duration H (data_get H options "ttl")).

Definition with_wrapper (H : Host) (valueGetter : Callable) (options : Value) (st : State) : State :=
  mkState
    (alter (insert (paramsKey H options) (new_wrapper H valueGetter options st)) (fn_key valueGetter)
       (match cachedFunctions st !! fn_key valueGetter with
        | Some _ => cachedFunctions st
        | None => <[fn_key valueGetter := ∅]> (cachedFunctions st)
        end))
    (<[KWrapper (next_id st) := if truthy options then Some options else None]>
       (cachedFunctionOptions st))
    (<[KWrapper (next_id st) := ∅]> (cachedValues st))
    (Pos.succ (next_id st))
    (calls st).

(** [w] is a wrapper of the engine in [st]: it has its per-context map and
    the options it was created with agree with the [strictArgMatch] it
    captured. *)
Definition genuine (H : Host) (st : State) (w : Callable) : Prop :=
  match w with
  | Plain _ => False
  | CacheLayer id _ strict _ =>
      is_Some (cachedValues st !! KWrapper id) /\
      exists options, cachedFunctionOptions st !! KWrapper id = Some options /\
        strict = truthy (default_to (VBool true)
                           (match options with
                            | Some o => data_get H o "strictArgMatch"
                            | None => VUndefined
                            end))
  end.

(** Every registered wrapper is a wrapper of the engine. *)
Definition wrappers_genuine (H : Host) (st : State) : Prop :=
  forall k p c, registry_entry st k p c -> genuine H st c.

(** The identities of the [CacheLayer] closures a function value is built
    from. *)
Fixpoint wrapper_ids (f : Callable) : list ref :=
  match f with
  | Plain _ => []
  | CacheLayer id g _ _ => id :: wrapper_ids g
  end.


(** The context [clearCache] works on, index.js:141 and 156. *)
Definition clear_context (objectOrFunction : Value) : WKey :=
  if String.eqb (typeof objectOrFunction) "object" then object_key objectOrFunction
  else KNoThis.

(** ** A host program for the examples

    Functions: [1] adds two numbers, [2] answers the string [value], [3]
    answers its first argument, [4] answers [undefined], [5] is a getter body
    answering [value], [6] always throws.
    Objects: [10]-[15] are options objects, [20] and [21] the arrays [[2, 2]]
    and [[5, 5]], [30] and [31] two arrays [['test']], [32] the array [[]],
    [40] and [41] two instances of a class whose prototype has the
    method [m] (the wrapper of [1]) and the getter [data] (the wrapper of
    [5]).  [NamedFunction] accepts every name and [ttlmap] takes a ttl of
    [null] for no ttl. *)

Definition num (z : Z) : Value := VNum (Finite (inject_Z z)).

Definition dq : string := String (Ascii.Ascii false true false false false true false false) "".

Definition cachedAdd : Callable := CacheLayer 1 (Plain 1) true None.
Definition cachedData : Callable := CacheLayer 2 (Plain 5) true None.

Definition demo_body (r : ref) (this : Value) (args : list Value) : outcome Value :=
  match r with
  | 1%positive =>
      match args with
      | [VNum (Finite a); VNum (Finite b)] => Returned (VNum (Finite (Qred (a + b))))
      | _ => Returned (VNum NaN)
      end
  | 2%positive => Returned (VStr "value")
  | 3%positive => Returned (hd VUndefined args)
  | 4%positive => Returned VUndefined
  | 5%positive => Returned (VStr "value")
  | _ => Thrown Error "Callback failed"
  end.

Definition demo_getDescriptor (r : ref) (name : string) : option Descriptor :=
  match r with
  | 10%positive => if String.eqb name "ttl" then Some (DataProp (num 10)) else None
  | 11%positive => if String.eqb name "ttl" then Some (DataProp (num 100)) else None
  | 12%positive => if String.eqb name "strictArgMatch" then Some (DataProp (VBool false)) else None
  | 13%positive => if String.eqb name "ttl" then Some (DataProp VNull) else None
  | 14%positive => if String.eqb name "ttl" then Some (DataProp (num (-1))) else None
  | 15%positive => if String.eqb name "ttl" then Some (DataProp (VNum (Finite (3 # 2)))) else None
  | 40%positive | 41%positive =>
      if String.eqb name "m" then Some (DataProp (VFun cachedAdd))
      else if String.eqb name "data" then Some (AccessorProp (Some cachedData))
      else None
  | _ => None
  end.

Definition demo_elements (r : ref) : option (list Value) :=
  match r with
  | 20%positive => Some [num 2; num 2]
  | 21%positive => Some [num 5; num 5]
  | 30%positive | 31%positive => Some [VStr "test"]
  | 32%positive => Some []
  | _ => None
  end.

Definition demo_maybeStringify (v : Value) : option string :=
  match v with
  | VStr s => Some (dq ++ s ++ dq)%string
  | VObj 10 => Some ("{" ++ dq ++ "ttl" ++ dq ++ ":10}")%string
  | VObj 11 => Some ("{" ++ dq ++ "ttl" ++ dq ++ ":100}")%string
  | VObj 12 => Some ("{" ++ dq ++ "strictArgMatch" ++ dq ++ ":false}")%string
  | VObj 13 => Some ("{" ++ dq ++ "ttl" ++ dq ++ ":null}")%string
  | VObj 14 => Some ("{" ++ dq ++ "ttl" ++ dq ++ ":-1}")%string
  | VObj 15 => Some ("{" ++ dq ++ "ttl" ++ dq ++ ":1.5}")%string
  | VObj 30 | VObj 31 => Some ("[" ++ dq ++ "test" ++ dq ++ "]")%string
  | VNull => Some "null"
  | _ => None
  end.

Definition demo_nameOf (r : ref) : string :=
  match r with
  | 1%positive => "add"
  | 2%positive | 3%positive | 4%positive => "callback"
  | 5%positive => "get data"
  | _ => ""
  end.

Definition demo : Host :=
  mkHost demo_body demo_getDescriptor demo_elements demo_maybeStringify VUndefined
         demo_nameOf (fun _ => Returned tt) None.

(** The state after [CachedFunction(add)] and [CachedFunction(getter)]. *)
Definition demo_state : State :=
  snd (CachedFunction demo VUndefined (VFun (Plain 5)) VUndefined
         (snd (CachedFunction demo VUndefined (VFun (Plain 1)) VUndefined initial))).




(** The demo host with one more object, [60]: its accessor [boom] has for
    getter the function [6], which throws, and its accessor [fn] has for
    getter the function [8], which answers the wrapper of [add]. *)
Definition clear_body (r : ref) (this : Value) (args : list Value) : outcome Value :=
  match r with
  | 8%positive => Returned (VFun cachedAdd)
  | _ => demo_body r this args
  end.

Definition clear_getDescriptor (r : ref) (name : string) : option Descriptor :=
  match r with
  | 60%positive =>
      if String.eqb name "boom" then Some (AccessorProp (Some (Plain 6)))
      else if String.eqb name "fn" then Some (AccessorProp (Some (Plain 8)))
      else None
  | _ => demo_getDescriptor r name
  end.

Definition clear_host : Host :=
  mkHost clear_body clear_getDescriptor demo_elements demo_maybeStringify VUndefined
         demo_nameOf (fun _ => Returned tt) None.





(** ** The states the engine can be in *)

(** One operation of the public interface, with any arguments. *)
Inductive step (H : Host) (st st' : State) : Prop :=
| step_CachedFunction this valueGetter options o :
    CachedFunction H this valueGetter options st = (o, st') -> step H st st'
| step_apply f this args now o :
    apply H f this args now st = (o, st') -> step H st st'
| step_clearCache objectOrFunction methodName args now o :
    clearCache H objectOrFunction methodName args now st = (o, st') -> step H st st'.

Inductive reachable (H : Host) : State -> Prop :=
| reachable_initial : reachable H initial
| reachable_step st st' : reachable H st -> step H st st' -> reachable H st'.

(** The three module-level maps describe the same wrappers: the identities
    handed out so far are exactly those that have a per-context table, exactly
    those that have options, and each of them is registered. *)
Definition maps_in_step (st : State) : Prop :=
  (forall k, is_Some (cachedValues st !! k) <->
             exists id, k = KWrapper id /\ (id < next_id st)%positive) /\
  (forall k, is_Some (cachedFunctionOptions st !! k) <->
             exists id, k = KWrapper id /\ (id < next_id st)%positive) /\
  (forall id, (id < next_id st)%positive ->
              exists k p c, registry_entry st k p c /\ fn_key c = KWrapper id).

Definition engine_inv (H : Host) (st : State) : Prop :=
  registry_wf st /\ wrappers_genuine H st /\ maps_in_step st.

(** ** cacheGetter *)

Section CacheGetter.

(** What [cacheGetter] asks of the objects of the host program beyond
    [Host]: [owner r name] is the object, along the prototype chain of [r],
    on which the property [name] that [r] shows is defined; [prototypeOf c]
    is the [prototype] property of the function [c]; [configurable r name]
    is the [configurable] attribute of the property [name] that [r] itself
    defines.  [on_missing] is what [modify-property] answers for a property
    that does not exist, [on_refused] what it answers when it does not
    redefine the property. *)
Variable owner : ref -> string -> option ref.
Variable prototypeOf : Callable -> Value.
Variable on_missing : outcome unit.
Variable configurable : ref -> string -> bool.
Variable on_refused : outcome unit.

(** The property [name] that [r] shows is defined on [r] itself. *)
Definition own (r : ref) (name : string) : bool :=
  match owner r name with
  | Some q => Pos.eqb q r
  | None => false
  end.

(** The callback of index.js:112-115: it replaces the getter of the
    descriptor by its cached wrapper. *)
Definition cache_getter_callback (H : Host) (options : Value) (prop : Descriptor)
    : M Descriptor :=
  if negb (String.eqb (typeof (desc_get prop)) "function") then
    throw Error "Property has no getter"
  else
    let* cachedFunction := CachedFunction H VUndefined (desc_get prop) options in
    ret (AccessorProp (match cachedFunction with VFun c => Some c | _ => None end)).

(** The host program once the property [name] defined on object [p] has the
    descriptor [d]: every object that shows that property shows [d]. *)
Definition define_property (H : Host) (p : ref) (name : string) (d : Descriptor) : Host :=
  mkHost (body H)
         (fun r n =>
            if String.eqb n name &&
               match owner r n with Some q => Pos.eqb q p | None => false end
            then Some d
            else getDescriptor H r n)
         (elements H) (maybeStringify H) (fallback H)
         (nameOf H) (NamedFunction H) (nullTtl H).

(** Modelled from the spec: the [modify-property] package is a dependency
    whose source is not part of the repository.  It hands the descriptor of
    the named property of the object to the callback and redefines the
    property with the descriptor the callback leaves; an exception of the
    callback leaves the object as it is.  A property is redefined on the
    object that defines it and only when it is configurable: an accessor that
    is not configurable keeps its getter, as does one the object inherits.
    What the package answers when it does not redefine, and for a property
    that does not exist, is left open ([on_refused], [on_missing]). *)
Definition modifyProperty (H : Host) (object : Value) (name : string)
    (modifier : Descriptor -> M Descriptor) (st : State)
    : outcome unit * State * Host :=
  match descriptor_of H object name with
  | None => (on_missing, st, H)
  | Some prop =>
      match modifier prop st with
      | (Returned d, st') =>
          match object with
          | VObj r =>
              if own r name && configurable r name
              then (Returned tt, st', define_property H r name d)
              else (on_refused, st', H)
          | _ => (on_refused, st', H)
          end
      | (Thrown cls msg, st') => (Thrown cls msg, st', H)
      end
  end.

(** index.js:110-116. *)
Definition cacheGetter (H : Host) (prototype : Value) (propName : string) (options : Value)
    : State -> outcome unit * State * Host :=
  let prototype := match prototype with
                   | VFun c => prototypeOf c
                   | _ => prototype
                   end in
  modifyProperty H prototype propName (cache_getter_callback H options).

End CacheGetter.

(** A host program with a class: the function [7] is the class, object [50]
    its prototype, which defines the getter [data] (the function [5]), the
    getter [fixed] (the function [5] again), which is not configurable, and
    the data property [size]; objects [51] and [52] are two instances. *)

Definition class_getDescriptor (r : ref) (name : string) : option Descriptor :=
  match r with
  | 50%positive | 51%positive | 52%positive =>
      if String.eqb name "data" || String.eqb name "fixed"
      then Some (AccessorProp (Some (Plain 5)))
      else if String.eqb name "size" then Some (DataProp (num 1))
      else None
  | _ => demo_getDescriptor r name
  end.

Definition class_owner (r : ref) (name : string) : option ref :=
  match r with
  | 50%positive | 51%positive | 52%positive =>
      if String.eqb name "data" || String.eqb name "fixed" || String.eqb name "size"
      then Some 50%positive else None
  | _ => None
  end.

Definition class_configurable (r : ref) (name : string) : bool :=
  negb (String.eqb name "fixed").

Definition class_refused : outcome unit := Thrown TypeError "Cannot redefine property".

Definition class_prototypeOf (c : Callable) : Value :=
  match c with
  | Plain 7 => VObj 50
  | _ => VUndefined
  end.

Definition class_host : Host :=
  mkHost demo_body class_getDescriptor demo_elements demo_maybeStringify VUndefined
         demo_nameOf (fun _ => Returned tt) None.

(** ** Properties of the containers *)

Lemma num_eqb_refl n : num_eqb n n = true.
Proof.
  destruct n as [|b|q]; simpl; auto.
  - destruct b; reflexivity.
  - apply Qeq_bool_iff. reflexivity.
Qed.

Lemma num_eqb_sym a b : num_eqb a b = num_eqb b a.
Proof.
  destruct a as [|s|p], b as [|t|q]; simpl; auto.
  - destruct s, t; reflexivity.
  - destruct (Qeq_bool p q) eqn:E1, (Qeq_bool q p) eqn:E2; auto.
    + apply Qeq_bool_iff in E1. symmetry in E1. apply Qeq_bool_iff in E1. congruence.
    + apply Qeq_bool_iff in E2. symmetry in E2. apply Qeq_bool_iff in E2. congruence.
Qed.

Lemma num_eqb_trans a b c : num_eqb a b = true -> num_eqb b c = true -> num_eqb a c = true.
Proof.
  destruct a as [|s|p], b as [|t|q], c as [|u|r]; simpl; try congruence.
  - destruct s, t, u; simpl; congruence.
  - rewrite !Qeq_bool_iff. intros E1 E2. rewrite E1. exact E2.
Qed.

Lemma sameValueZero_refl v : sameValueZero v v = true.
Proof.
  destruct v; simpl; auto.
  - destruct b; reflexivity.
  - apply num_eqb_refl.
  - apply String.eqb_refl.
  - apply Pos.eqb_refl.
  - apply bool_decide_eq_true. reflexivity.
Qed.

Lemma sameValueZero_sym a b : sameValueZero a b = sameValueZero b a.
Proof.
  destruct a, b; simpl; auto.
  - destruct b0, b; reflexivity.
  - apply num_eqb_sym.
  - apply String.eqb_sym.
  - apply Pos.eqb_sym.
  - apply bool_decide_ext. split; congruence.
Qed.

Lemma sameValueZero_trans a b c :
  sameValueZero a b = true -> sameValueZero b c = true -> sameValueZero a c = true.
Proof.
  destruct a, b, c; simpl; try congruence.
  - destruct b0, b, b1; simpl; congruence.
  - apply num_eqb_trans.
  - rewrite !String.eqb_eq. congruence.
  - rewrite !Pos.eqb_eq. congruence.
  - rewrite !bool_decide_eq_true. congruence.
Qed.

Lemma keyEq_refl k : keyEq k k = true.
Proof. induction k; simpl; auto. rewrite sameValueZero_refl. exact IHk. Qed.

Lemma keyEq_sym k1 k2 : keyEq k1 k2 = keyEq k2 k1.
Proof.
  revert k2; induction k1 as [|a k1 IH]; intros [|b k2]; simpl; auto.
  rewrite sameValueZero_sym, IH. reflexivity.
Qed.

Lemma keyEq_trans k1 k2 k3 : keyEq k1 k2 = true -> keyEq k2 k3 = true -> keyEq k1 k3 = true.
Proof.
  revert k2 k3; induction k1 as [|a k1 IH]; intros [|b k2] [|c k3]; simpl; try congruence.
  rewrite !andb_true_iff. intros [E1 F1] [E2 F2]. split.
  - eapply sameValueZero_trans; eauto.
  - eapply IH; eauto.
Qed.

Lemma keyEq_false_l k1 k2 k3 :
  keyEq k1 k2 = true -> keyEq k1 k3 = false -> keyEq k2 k3 = false.
Proof.
  intros E F. destruct (keyEq k2 k3) eqn:G; auto.
  rewrite (keyEq_trans _ _ _ E G) in F. discriminate.
Qed.

Section MultiKeyMapFacts.

Context {A : Type}.
Implicit Types (m : MultiKeyMap A) (k : list Value) (a : A).

Lemma mk_get_congr m k k' : keyEq k k' = true -> mk_get m k = mk_get m k'.
Proof.
  intros E. induction m as [|[k0 a0] m IH]; simpl; auto.
  destruct (keyEq k0 k) eqn:E0.
  - rewrite (keyEq_trans _ _ _ E0 E). reflexivity.
  - rewrite keyEq_sym in E0.
    pose proof (keyEq_false_l _ _ _ E E0) as F.
    rewrite keyEq_sym in F. rewrite F. exact IH.
Qed.

Lemma mk_get_set_eq m k k' a : keyEq k k' = true -> mk_get (mk_set m k a) k' = Some a.
Proof.
  intros E. induction m as [|[k0 a0] m IH]; simpl.
  - rewrite E. reflexivity.
  - destruct (keyEq k0 k) eqn:E0; simpl.
    + rewrite (keyEq_trans _ _ _ E0 E). reflexivity.
    + rewrite keyEq_sym in E0.
      pose proof (keyEq_false_l _ _ _ E E0) as F.
      rewrite keyEq_sym in F. rewrite F. exact IH.
Qed.

Lemma mk_get_set_ne m k k' a : keyEq k k' = false -> mk_get (mk_set m k a) k' = mk_get m k'.
Proof.
  intros E. induction m as [|[k0 a0] m IH]; simpl.
  - rewrite E. reflexivity.
  - destruct (keyEq k0 k) eqn:E0; simpl.
    + assert (keyEq k0 k' = false) as F.
      { destruct (keyEq k0 k') eqn:G; auto.
        rewrite keyEq_sym in E0.
        rewrite (keyEq_trans _ _ _ E0 G) in E. discriminate. }
      rewrite F. reflexivity.
    + destruct (keyEq k0 k'); auto.
Qed.

Lemma mk_get_delete_eq m k k' : keyEq k k' = true -> mk_get (mk_delete m k) k' = None.
Proof.
  intros E. induction m as [|[k0 a0] m IH]; simpl; auto.
  destruct (keyEq k0 k) eqn:E0; simpl; auto.
  assert (keyEq k0 k' = false) as F.
  { destruct (keyEq k0 k') eqn:G; auto.
    rewrite keyEq_sym in E.
    rewrite (keyEq_trans _ _ _ G E) in E0. discriminate. }
  rewrite F. exact IH.
Qed.

Lemma mk_get_delete_ne m k k' : keyEq k k' = false -> mk_get (mk_delete m k) k' = mk_get m k'.
Proof.
  intros E. induction m as [|[k0 a0] m IH]; simpl; auto.
  destruct (keyEq k0 k) eqn:E0; simpl.
  - assert (keyEq k0 k' = false) as F.
    { destruct (keyEq k0 k') eqn:G; auto.
      rewrite keyEq_sym in E0.
      rewrite (keyEq_trans _ _ _ E0 G) in E. discriminate. }
    rewrite F. exact IH.
  - destruct (keyEq k0 k'); auto.
Qed.

Lemma mk_delete_absent m k : mk_get m k = None -> mk_delete m k = m.
Proof.
  induction m as [|[k0 a0] m IH]; simpl; auto.
  destruct (keyEq k0 k); [discriminate|].
  intros E. rewrite (IH E). reflexivity.
Qed.

End MultiKeyMapFacts.

(** ** TTLMap *)

Lemma ttl_purge_live now m k : ttl_expired now m k = false -> ttl_purge now m k = m.
Proof. unfold ttl_purge. intros ->. reflexivity. Qed.

Lemma ttl_peek_live now m k v : ttl_peek now m k = Some v -> ttl_expired now m k = false.
Proof. unfold ttl_peek. destruct (ttl_expired now m k); [discriminate | reflexivity]. Qed.

Lemma ttl_expired_congr now m k k' : keyEq k k' = true -> ttl_expired now m k = ttl_expired now m k'.
Proof. intros E. unfold ttl_expired. rewrite (mk_get_congr _ _ _ E). reflexivity. Qed.

Lemma ttl_peek_congr now m k k' : keyEq k k' = true -> ttl_peek now m k = ttl_peek now m k'.
Proof.
  intros E. unfold ttl_peek.
  rewrite (ttl_expired_congr _ _ _ _ E), (mk_get_congr _ _ _ E). reflexivity.
Qed.

Lemma ttl_peek_delete_eq now m k k' : keyEq k k' = true -> ttl_peek now (ttl_delete m k) k' = None.
Proof.
  intros E. unfold ttl_peek, ttl_expired, ttl_delete; simpl.
  rewrite !(mk_get_delete_eq _ _ _ E). reflexivity.
Qed.

Lemma ttl_peek_delete_ne now m k k' :
  keyEq k k' = false -> ttl_peek now (ttl_delete m k) k' = ttl_peek now m k'.
Proof.
  intros E. unfold ttl_peek, ttl_expired, ttl_delete; simpl.
  rewrite !(mk_get_delete_ne _ _ _ E). reflexivity.
Qed.

Lemma ttl_peek_purge_ne now now' m k k' :
  keyEq k k' = false -> ttl_peek now' (ttl_purge now m k) k' = ttl_peek now' m k'.
Proof.
  intros E. unfold ttl_purge. destruct (ttl_expired now m k); auto.
  apply ttl_peek_delete_ne; assumption.
Qed.

Lemma ttl_peek_purge now m k : ttl_peek now (ttl_purge now m k) k = ttl_peek now m k.
Proof.
  unfold ttl_purge. destruct (ttl_expired now m k) eqn:E; auto.
  rewrite ttl_peek_delete_eq by apply keyEq_refl.
  unfold ttl_peek. rewrite E. reflexivity.
Qed.

Lemma ttl_has_peek now m k :
  ttl_has now m k = (match ttl_peek now m k with Some _ => true | None => false end,
                     ttl_purge now m k).
Proof.
  unfold ttl_has, ttl_peek, ttl_purge, mk_has.
  destruct (ttl_expired now m k); simpl; auto.
  rewrite mk_get_delete_eq by apply keyEq_refl. reflexivity.
Qed.

Lemma ttl_get_peek now m k :
  ttl_get now m k = (default VUndefined (ttl_peek now m k), ttl_purge now m k).
Proof.
  unfold ttl_get, ttl_peek, ttl_purge.
  destruct (ttl_expired now m k); simpl.
  - rewrite mk_get_delete_eq by apply keyEq_refl. reflexivity.
  - destruct (mk_get (_values m) k); reflexivity.
Qed.

Lemma ttl_expired_set now now' m k k' v ttl :
  keyEq k k' = true ->
  ttl_expired now' (ttl_set now m k v ttl) k' =
  match ttl with Some t => now + t <=? now' | None => false end.
Proof.
  intros E. unfold ttl_expired, ttl_set; simpl. destruct ttl as [t|].
  - rewrite (mk_get_set_eq _ _ _ _ E). reflexivity.
  - rewrite (mk_get_delete_eq _ _ _ E). reflexivity.
Qed.

Lemma ttl_peek_set_eq now now' m k k' v ttl :
  keyEq k k' = true ->
  ttl_peek now' (ttl_set now m k v ttl) k' =
  if match ttl with Some t => now + t <=? now' | None => false end then None else Some v.
Proof.
  intros E. unfold ttl_peek. rewrite (ttl_expired_set _ _ _ _ _ _ _ E).
  simpl. rewrite (mk_get_set_eq _ _ _ _ E). reflexivity.
Qed.

Lemma ttl_peek_set_ne now now' m k k' v ttl :
  keyEq k k' = false ->
  ttl_peek now' (ttl_set now m k v ttl) k' = ttl_peek now' m k'.
Proof.
  intros E. unfold ttl_peek, ttl_expired, ttl_set; simpl.
  rewrite (mk_get_set_ne _ _ _ _ E).
  destruct ttl; [rewrite (mk_get_set_ne _ _ _ _ E) | rewrite (mk_get_delete_ne _ _ _ E)];
    reflexivity.
Qed.

Lemma ttl_peek_new now k : ttl_peek now ttl_new k = None.
Proof. reflexivity. Qed.

Lemma ttl_delete_absent m k :
  mk_get (_values m) k = None -> mk_get (_ttls m) k = None -> ttl_delete m k = m.
Proof.
  intros E F. unfold ttl_delete. rewrite (mk_delete_absent _ _ E), (mk_delete_absent _ _ F).
  destruct m; reflexivity.
Qed.

(** ** The per-context maps inside the state *)

Lemma store_put_store_eq id ctx m st :
  is_Some (store st id ctx) -> store (put_store id ctx m st) id ctx = Some m.
Proof.
  unfold store, put_store, set_cachedValues; simpl. intros [m0 E].
  destruct (cachedValues st !! KWrapper id) as [pc|] eqn:F; [|discriminate].
  rewrite lookup_alter_eq, F. simpl. rewrite lookup_alter_eq, E. reflexivity.
Qed.

Lemma store_put_store_ne id ctx id' ctx' m st :
  (id, ctx) <> (id', ctx') -> store (put_store id ctx m st) id' ctx' = store st id' ctx'.
Proof.
  unfold store, put_store, set_cachedValues; simpl. intros N.
  destruct (decide (id = id')) as [->|Nid].
  - rewrite lookup_alter_eq.
    destruct (cachedValues st !! KWrapper id') as [pc|]; simpl; auto.
    rewrite lookup_alter_ne; [reflexivity | congruence].
  - rewrite lookup_alter_ne; [reflexivity | congruence].
Qed.

Lemma put_store_id id ctx m st : store st id ctx = Some m -> put_store id ctx m st = st.
Proof.
  unfold store, put_store, set_cachedValues. intros E. destruct st as [cf co cv n cs]; simpl in *.
  f_equal. apply map_eq. intros k.
  destruct (decide (KWrapper id = k)) as [<-|N].
  - rewrite lookup_alter_eq. destruct (cv !! KWrapper id) as [pc|]; [|discriminate]. simpl.
    f_equal. apply map_eq. intros c.
    destruct (decide (ctx = c)) as [<-|Nc].
    + rewrite lookup_alter_eq, E. reflexivity.
    + rewrite lookup_alter_ne by assumption. reflexivity.
  - rewrite lookup_alter_ne by assumption. reflexivity.
Qed.

Lemma store_ensure_eq id ctx st :
  is_Some (cachedValues st !! KWrapper id) ->
  store (ensure_store id ctx st) id ctx = Some (default ttl_new (store st id ctx)).
Proof.
  intros [pc E]. unfold ensure_store.
  destruct (store st id ctx) as [m|] eqn:F; simpl.
  - exact F.
  - unfold store, set_cachedValues in *; simpl. rewrite lookup_alter_eq, E. simpl.
    apply lookup_insert_eq.
Qed.

Lemma store_ensure_ne id ctx id' ctx' st :
  (id, ctx) <> (id', ctx') -> store (ensure_store id ctx st) id' ctx' = store st id' ctx'.
Proof.
  intros N. unfold ensure_store. destruct (store st id ctx); auto.
  unfold store, set_cachedValues; simpl.
  destruct (decide (id = id')) as [->|Nid].
  - rewrite lookup_alter_eq.
    destruct (cachedValues st !! KWrapper id') as [pc|]; simpl; auto.
    rewrite lookup_insert_ne; [reflexivity | congruence].
  - rewrite lookup_alter_ne; [reflexivity | congruence].
Qed.

Lemma with_store_put {A} id ctx (method : TTLMap -> A * TTLMap) st :
  with_store id ctx method st =
  (Returned (fst (method (default ttl_new (store st id ctx)))),
   put_store id ctx (snd (method (default ttl_new (store st id ctx)))) st).
Proof. reflexivity. Qed.

(** ** One call of a [CacheLayer] closure *)

Section CacheLayerFacts.

Variable H : Host.

Lemma cachedValues_put_store id ctx m st k :
  is_Some (cachedValues (put_store id ctx m st) !! k) <-> is_Some (cachedValues st !! k).
Proof.
  unfold put_store, set_cachedValues; simpl.
  destruct (decide (KWrapper id = k)) as [<-|N].
  - rewrite lookup_alter_eq. destruct (cachedValues st !! KWrapper id); simpl; split; intros [? ?]; eauto; discriminate.
  - rewrite lookup_alter_ne by assumption. reflexivity.
Qed.

Lemma cachedValues_ensure_store id ctx st k :
  is_Some (cachedValues (ensure_store id ctx st) !! k) <-> is_Some (cachedValues st !! k).
Proof.
  unfold ensure_store. destruct (store st id ctx); [reflexivity|].
  unfold set_cachedValues; simpl.
  destruct (decide (KWrapper id = k)) as [<-|N].
  - rewrite lookup_alter_eq. destruct (cachedValues st !! KWrapper id); simpl; split; intros [? ?]; eauto; discriminate.
  - rewrite lookup_alter_ne by assumption. reflexivity.
Qed.

(** A hit answers from the cache and leaves the state as it is; a miss runs
    [valueGetter] once, in [miss_state], and stores what it returned. *)
Lemma apply_CacheLayer id f strict ttl this args now st ctx :
  is_Some (cachedValues st !! KWrapper id) ->
  context_of this = Some ctx ->
  apply H (CacheLayer id f strict ttl) this args now st =
  let key := generateKey H args (VBool strict) in
  match lookup_cache st id ctx key now with
  | Some v => (Returned v, st)
  | None =>
      match apply H f this args now (miss_state id ctx key now st) with
      | (Returned v, st') => (Returned v, fill id ctx key now v ttl st')
      | (Thrown cls msg, st') => (Thrown cls msg, st')
      end
  end.
Proof.
  intros [pc Epc] Ectx. cbn [apply]. unfold bind at 1. unfold get_state at 1.
  rewrite Epc, Ectx.
  set (key := generateKey H args (VBool strict)).
  assert (forall st0 : State,
    (match pc !! ctx with
     | Some _ => ret tt
     | None => modify (set_cachedValues (alter (insert ctx ttl_new) (KWrapper id)))
     end) st = (Returned tt, ensure_store id ctx st)) as Eens.
  { intros _. unfold ensure_store, store. rewrite Epc. destruct (pc !! ctx); reflexivity. }
  unfold bind at 1. rewrite (Eens st). clear Eens.
  unfold bind at 1. rewrite with_store_put.
  rewrite store_ensure_eq by eauto.
  rewrite ttl_has_peek. cbn [fst snd].
  change (put_store id ctx _ (ensure_store id ctx st)) with (miss_state id ctx key now st).
  unfold lookup_cache.
  destruct (store st id ctx) as [m|] eqn:Est; cbn [from_option]; unfold Datatypes.id.
  - destruct (ttl_peek now m key) as [v|] eqn:Epeek.
    + assert (miss_state id ctx key now st = st) as Ems.
      { unfold miss_state, ensure_store. rewrite Est. cbn [from_option]; unfold Datatypes.id.
        rewrite (ttl_purge_live _ _ _ (ttl_peek_live _ _ _ _ Epeek)).
        apply put_store_id. exact Est. }
      rewrite Ems, with_store_put, Est. cbn [from_option]; unfold Datatypes.id.
      rewrite ttl_get_peek, Epeek. cbn [fst snd from_option]; unfold Datatypes.id.
      rewrite (ttl_purge_live _ _ _ (ttl_peek_live _ _ _ _ Epeek)).
      rewrite (put_store_id _ _ _ _ Est). reflexivity.
    + unfold bind.
      destruct (apply H f this args now (miss_state id ctx key now st)) as [[v|cls msg] st'];
        reflexivity.
  - rewrite ttl_peek_new.
    unfold bind.
    destruct (apply H f this args now (miss_state id ctx key now st)) as [[v|cls msg] st'];
      reflexivity.
Qed.

End CacheLayerFacts.

(** ** The footprint of a call *)

Lemma only_context_refl ctx st : only_context ctx st st.
Proof.
  repeat split; auto; try tauto. exists []. rewrite app_nil_r. reflexivity.
Qed.

Lemma only_context_trans ctx st1 st2 st3 :
  only_context ctx st1 st2 -> only_context ctx st2 st3 -> only_context ctx st1 st3.
Proof.
  intros (A1 & B1 & C1 & D1 & E1 & F1 & [l1 G1]) (A2 & B2 & C2 & D2 & E2 & F2 & [l2 G2]).
  repeat split; try congruence.
  - intros X. apply D1, D2, X.
  - intros X. apply D2, D1, X.
  - intros id ctx' X. apply E2, E1, X.
  - intros id ctx' N. rewrite (F2 _ _ N). apply F1, N.
  - exists (l1 ++ l2). rewrite G2, G1, app_assoc. reflexivity.
Qed.

Lemma only_context_put_store id ctx m st :
  only_context (Some ctx) st (put_store id ctx m st).
Proof.
  repeat split; auto.
  - apply cachedValues_put_store.
  - apply cachedValues_put_store.
  - intros id' ctx' X. destruct (decide ((id, ctx) = (id', ctx'))) as [E|N].
    + inversion E; subst. rewrite store_put_store_eq by assumption. eauto.
    + rewrite store_put_store_ne by assumption. assumption.
  - intros id' ctx' N. apply store_put_store_ne. congruence.
  - exists []. simpl. rewrite app_nil_r. reflexivity.
Qed.

Lemma only_context_ensure_store id ctx st :
  only_context (Some ctx) st (ensure_store id ctx st).
Proof.
  unfold ensure_store. destruct (store st id ctx) as [m|] eqn:E.
  - apply only_context_refl.
  - repeat split; auto.
    + pose proof (cachedValues_ensure_store id ctx st k) as X.
      unfold ensure_store in X. rewrite E in X. apply X.
    + pose proof (cachedValues_ensure_store id ctx st k) as X.
      unfold ensure_store in X. rewrite E in X. apply X.
    + intros id' ctx' X. destruct (decide ((id, ctx) = (id', ctx'))) as [Eq|N].
      * inversion Eq; subst. rewrite E in X. destruct X; discriminate.
      * pose proof (store_ensure_ne id ctx id' ctx' st N) as Y.
        unfold ensure_store in Y. rewrite E in Y. rewrite Y. assumption.
    + intros id' ctx' N.
      pose proof (store_ensure_ne id ctx id' ctx' st ltac:(congruence)) as Y.
      unfold ensure_store in Y. rewrite E in Y. exact Y.
    + exists []. simpl. rewrite app_nil_r. reflexivity.
Qed.

Lemma only_context_miss_state id ctx key now st :
  only_context (Some ctx) st (miss_state id ctx key now st).
Proof.
  unfold miss_state. eapply only_context_trans.
  - apply only_context_ensure_store.
  - apply only_context_put_store.
Qed.

Lemma only_context_fill id ctx key now v ttl st :
  only_context (Some ctx) st (fill id ctx key now v ttl st).
Proof. apply only_context_put_store. Qed.

Lemma only_context_record_call ctx c st : only_context ctx st (record_call c st).
Proof.
  repeat split; auto. exists [c]. reflexivity.
Qed.

Section Footprint.

Variable H : Host.

Lemma apply_CacheLayer_throws id f strict ttl this args now st :
  cachedValues st !! KWrapper id = None \/ context_of this = None ->
  exists msg, apply H (CacheLayer id f strict ttl) this args now st = (Thrown TypeError msg, st).
Proof.
  intros X. cbn [apply]. unfold bind at 1. unfold get_state at 1.
  destruct (cachedValues st !! KWrapper id) as [pc|]; [|eexists; reflexivity].
  destruct X as [X|X]; [discriminate|]. rewrite X. eexists; reflexivity.
Qed.

Lemma apply_only_context f this args now st o st' :
  apply H f this args now st = (o, st') -> only_context (context_of this) st st'.
Proof.
  revert st o st'. induction f as [r|id f IH strict ttl]; intros st o st' E.
  - cbn in E. unfold bind, modify, lift in E. inversion E; subst.
    apply only_context_record_call.
  - destruct (cachedValues st !! KWrapper id) as [pc|] eqn:Epc.
    2:{ destruct (apply_CacheLayer_throws id f strict ttl this args now st (or_introl Epc)) as [msg X].
        rewrite X in E. inversion E; subst. apply only_context_refl. }
    destruct (context_of this) as [ctx|] eqn:Ectx.
    2:{ destruct (apply_CacheLayer_throws id f strict ttl this args now st (or_intror Ectx)) as [msg X].
        rewrite X in E. inversion E; subst. apply only_context_refl. }
    rewrite (apply_CacheLayer H id f strict ttl this args now st ctx) in E by eauto.
    cbv zeta in E.
    destruct (lookup_cache st id ctx (generateKey H args (VBool strict)) now).
    + inversion E; subst. apply only_context_refl.
    + destruct (apply H f this args now _) as [[v|cls msg] st2] eqn:E2.
      * inversion E; subst. eapply only_context_trans; [apply only_context_miss_state|].
        eapply only_context_trans; [apply (IH _ _ _ E2)|]. apply only_context_fill.
      * inversion E; subst. eapply only_context_trans; [apply only_context_miss_state|].
        apply (IH _ _ _ E2).
Qed.

Lemma apply_returns_registered id f strict ttl this args now st v st' :
  apply H (CacheLayer id f strict ttl) this args now st = (Returned v, st') ->
  is_Some (cachedValues st !! KWrapper id) /\ is_Some (context_of this).
Proof.
  intros E.
  destruct (cachedValues st !! KWrapper id) as [pc|] eqn:Epc.
  2:{ destruct (apply_CacheLayer_throws id f strict ttl this args now st (or_introl Epc)) as [msg X].
      rewrite X in E. discriminate. }
  destruct (context_of this) as [ctx|] eqn:Ectx.
  2:{ destruct (apply_CacheLayer_throws id f strict ttl this args now st (or_intror Ectx)) as [msg X].
      rewrite X in E. discriminate. }
  eauto.
Qed.

End Footprint.

(** ** Memoization *)

Section Memoization.

Variable H : Host.

Lemma lookup_cache_fill_eq id ctx key key' now now' v ttl st :
  is_Some (store st id ctx) ->
  keyEq key key' = true ->
  lookup_cache (fill id ctx key now v ttl st) id ctx key' now' =
  if match ttl with Some t => now + t <=? now' | None => false end then None else Some v.
Proof.
  intros X E. unfold lookup_cache, fill. rewrite store_put_store_eq by assumption.
  apply ttl_peek_set_eq. assumption.
Qed.

Lemma lookup_cache_fill_ne id ctx key key' now now' v ttl st :
  keyEq key key' = false ->
  lookup_cache (fill id ctx key now v ttl st) id ctx key' now' = lookup_cache st id ctx key' now'.
Proof.
  intros E. unfold lookup_cache, fill.
  destruct (store st id ctx) as [m|] eqn:F.
  - rewrite store_put_store_eq by eauto. cbn [from_option]. unfold Datatypes.id.
    apply ttl_peek_set_ne. assumption.
  - assert (store (put_store id ctx (ttl_set now (default ttl_new None) key v ttl) st) id ctx = None) as G.
    { unfold store, put_store, set_cachedValues in *; simpl.
      rewrite lookup_alter_eq. destruct (cachedValues st !! KWrapper id); simpl; auto.
      rewrite lookup_alter_eq, F. reflexivity. }
    rewrite G. reflexivity.
Qed.

Lemma store_miss_state id ctx key now st :
  is_Some (cachedValues st !! KWrapper id) ->
  store (miss_state id ctx key now st) id ctx =
  Some (ttl_purge now (default ttl_new (store st id ctx)) key).
Proof.
  intros X. unfold miss_state. apply store_put_store_eq.
  rewrite store_ensure_eq by assumption. eauto.
Qed.

Lemma calls_miss_state id ctx key now st : calls (miss_state id ctx key now st) = calls st.
Proof.
  unfold miss_state, put_store, ensure_store. destruct (store st id ctx); reflexivity.
Qed.

(** A cache hit never runs [valueGetter]: the stored value is returned and
    the state, trace included, is the one before the call. *)
Lemma hit_returns_cached id f strict ttl this ctx args now st u :
  is_Some (cachedValues st !! KWrapper id) ->
  context_of this = Some ctx ->
  lookup_cache st id ctx (generateKey H args (VBool strict)) now = Some u ->
  apply H (CacheLayer id f strict ttl) this args now st = (Returned u, st).
Proof.
  intros X C L. rewrite (apply_CacheLayer H id f strict ttl this args now st ctx X C).
  cbv zeta. rewrite L. reflexivity.
Qed.

(** A miss runs [valueGetter] once, in [miss_state], and stores its value. *)
Lemma miss_runs_getter id f strict ttl this ctx args now st v st' :
  is_Some (cachedValues st !! KWrapper id) ->
  context_of this = Some ctx ->
  lookup_cache st id ctx (generateKey H args (VBool strict)) now = None ->
  apply H f this args now (miss_state id ctx (generateKey H args (VBool strict)) now st)
    = (Returned v, st') ->
  apply H (CacheLayer id f strict ttl) this args now st
    = (Returned v, fill id ctx (generateKey H args (VBool strict)) now v ttl st').
Proof.
  intros X C L E. rewrite (apply_CacheLayer H id f strict ttl this args now st ctx X C).
  cbv zeta. rewrite L, E. reflexivity.
Qed.

Lemma store_after_getter id f this ctx key args now st o st' :
  is_Some (cachedValues st !! KWrapper id) ->
  context_of this = Some ctx ->
  apply H f this args now (miss_state id ctx key now st) = (o, st') ->
  is_Some (store st' id ctx) /\ is_Some (cachedValues st' !! KWrapper id).
Proof.
  intros X C E. pose proof (apply_only_context H _ _ _ _ _ _ _ E) as (_ & _ & _ & D & M & _).
  split.
  - apply M. rewrite store_miss_state by assumption. eauto.
  - apply D. destruct (only_context_miss_state id ctx key now st) as (_ & _ & _ & D' & _).
    apply D'. assumption.
Qed.

(** Once a miss has stored [v], a later call made before the deadline is a
    hit on that entry. *)
Lemma second_call_hits id f strict ttl this ctx args now1 now2 st v st' :
  is_Some (cachedValues st !! KWrapper id) ->
  context_of this = Some ctx ->
  apply H f this args now1 (miss_state id ctx (generateKey H args (VBool strict)) now1 st)
    = (Returned v, st') ->
  match ttl with Some t => now2 < now1 + t | None => True end ->
  apply H (CacheLayer id f strict ttl) this args now2
        (fill id ctx (generateKey H args (VBool strict)) now1 v ttl st')
  = (Returned v, fill id ctx (generateKey H args (VBool strict)) now1 v ttl st').
Proof.
  intros X C E T.
  destruct (store_after_getter id f this ctx _ args now1 st _ st' X C E) as [S1 S2].
  apply (hit_returns_cached id f strict ttl this ctx); auto.
  - apply cachedValues_put_store. assumption.
  - rewrite lookup_cache_fill_eq; auto using keyEq_refl.
    destruct ttl as [t|]; auto.
    destruct (now1 + t <=? now2) eqn:B; auto. apply Z.leb_le in B. lia.
Qed.

(** C1. Memoization.  Let [w] be a wrapper made by [CachedFunction] around
    [f], with nothing cached for the argument list [args] in the context of
    [this], and let the body of [f] return [v].  Then the first call of [w]
    returns [v], a second call with the same arguments and context (made
    before the entry expires, nothing cleared in between) returns that same
    stored [v] and changes nothing, so that the trace of the two calls is the
    trace of the single run of [f]; for a host function it is exactly one more
    recorded call.  Moreover a cache hit never runs [f]: it returns the stored
    value and leaves the state, trace included, untouched. *)
Theorem memoization id f strict ttl this ctx args now1 now2 st v st' :
  let w := CacheLayer id f strict ttl in
  let key := generateKey H args (VBool strict) in
  is_Some (cachedValues st !! KWrapper id) ->
  context_of this = Some ctx ->
  lookup_cache st id ctx key now1 = None ->
  apply H f this args now1 (miss_state id ctx key now1 st) = (Returned v, st') ->
  match ttl with Some t => now2 < now1 + t | None => True end ->
  let st1 := fill id ctx key now1 v ttl st' in
  apply H w this args now1 st = (Returned v, st1) /\
  apply H w this args now2 st1 = (Returned v, st1) /\
  calls st1 = calls st' /\
  (forall r, f = Plain r -> calls st1 = calls st ++ [mkCall r this args]) /\
  (forall st0 now u,
      is_Some (cachedValues st0 !! KWrapper id) ->
      lookup_cache st0 id ctx key now = Some u ->
      apply H w this args now st0 = (Returned u, st0)).
Proof.
  intros w key X C L E T st1.
  split; [|split; [|split; [|split]]].
  - apply miss_runs_getter; assumption.
  - apply (second_call_hits id f strict ttl this ctx args now1 now2 st); assumption.
  - reflexivity.
  - intros r ->. cbn in E. unfold bind, modify, lift in E. inversion E; subst.
    subst st1. unfold fill, put_store. cbn [calls set_cachedValues record_call].
    rewrite calls_miss_state. reflexivity.
  - intros st0 now u X0 L0. apply (hit_returns_cached id f strict ttl this ctx); assumption.
Qed.

End Memoization.

(** [add(2, 2)] twice on the demo host, five milliseconds apart. *)
Lemma memoization_witness :
  let st1 := fill 1 KNoThis [num 2; num 2] 0 (num 4) None
               (record_call (mkCall 1 VGlobal [num 2; num 2])
                  (miss_state 1 KNoThis [num 2; num 2] 0 demo_state)) in
  lookup_cache demo_state 1 KNoThis [num 2; num 2] 0 = None /\
  apply demo cachedAdd VGlobal [num 2; num 2] 0 demo_state = (Returned (num 4), st1) /\
  apply demo cachedAdd VGlobal [num 2; num 2] 5 st1 = (Returned (num 4), st1) /\
  calls st1 = calls demo_state ++ [mkCall 1 VGlobal [num 2; num 2]].
Proof.
  intros st1.
  assert (lookup_cache demo_state 1 KNoThis [num 2; num 2] 0 = None) as L
    by (vm_compute; reflexivity).
  destruct (memoization demo 1 (Plain 1) true None VGlobal KNoThis [num 2; num 2] 0 5
              demo_state (num 4)
              (record_call (mkCall 1 VGlobal [num 2; num 2])
                 (miss_state 1 KNoThis [num 2; num 2] 0 demo_state)))
    as (A & B & _ & D & _).
  - vm_compute. eauto.
  - reflexivity.
  - exact L.
  - vm_compute. reflexivity.
  - exact I.
  - split; [exact L | split; [exact A | split; [exact B | exact (D 1%positive eq_refl)]]].
Defined.

(** ** Values that are falsy *)

(** C9. A hit is decided by the presence of the key in the map, not by the
    value found there: whenever the context's map holds a live entry for the
    key, whatever its value, the call returns that value and does not run
    [valueGetter] (the state, trace included, is unchanged).  In particular
    when the body of [f] returns [undefined], the first call stores
    [undefined] and a second call with the same arguments returns the stored
    [undefined] without running [f] again. *)
Theorem falsy_value_is_cached (H : Host) id f strict ttl this ctx args now1 now2 st st' :
  let w := CacheLayer id f strict ttl in
  let key := generateKey H args (VBool strict) in
  is_Some (cachedValues st !! KWrapper id) ->
  context_of this = Some ctx ->
  lookup_cache st id ctx key now1 = None ->
  apply H f this args now1 (miss_state id ctx key now1 st) = (Returned VUndefined, st') ->
  match ttl with Some t => now2 < now1 + t | None => True end ->
  let st1 := fill id ctx key now1 VUndefined ttl st' in
  apply H w this args now1 st = (Returned VUndefined, st1) /\
  apply H w this args now2 st1 = (Returned VUndefined, st1) /\
  mk_has (_values (default ttl_new (store st1 id ctx))) key = true /\
  (forall st0 m now u,
      is_Some (cachedValues st0 !! KWrapper id) ->
      store st0 id ctx = Some m ->
      mk_get (_values m) key = Some u ->
      ttl_expired now m key = false ->
      fst (ttl_has now m key) = true /\
      apply H w this args now st0 = (Returned u, st0)).
Proof.
  intros w key X C L E T st1.
  split; [|split; [|split]].
  - apply miss_runs_getter; assumption.
  - apply (second_call_hits H id f strict ttl this ctx args now1 now2 st); assumption.
  - destruct (store_after_getter H id f this ctx key args now1 st _ st' X C E) as [S1 S2].
    subst st1. unfold fill. rewrite store_put_store_eq by assumption.
    cbn [from_option]. unfold Datatypes.id, mk_has, ttl_set; simpl.
    rewrite mk_get_set_eq by apply keyEq_refl. reflexivity.
  - intros st0 m now u X0 S G N.
    assert (ttl_peek now m key = Some u) as P by (unfold ttl_peek; rewrite N; exact G).
    split.
    + rewrite ttl_has_peek, P. reflexivity.
    + apply (hit_returns_cached H id f strict ttl this ctx); auto.
      unfold lookup_cache. rewrite S. exact P.
Qed.

(** The demo function [4] returns [undefined]; its wrapper has identity [3]
    in the state that follows [demo_state]. *)
Lemma falsy_value_is_cached_witness :
  let st := snd (CachedFunction demo VUndefined (VFun (Plain 4)) VUndefined demo_state) in
  let w := CacheLayer 3 (Plain 4) true None in
  let st1 := fill 3 KNoThis [] 0 VUndefined None
               (record_call (mkCall 4 VGlobal []) (miss_state 3 KNoThis [] 0 st)) in
  lookup_cache st 3 KNoThis [] 0 = None /\
  apply demo w VGlobal [] 0 st = (Returned VUndefined, st1) /\
  apply demo w VGlobal [] 7 st1 = (Returned VUndefined, st1).
Proof.
  intros st w st1.
  assert (lookup_cache st 3 KNoThis [] 0 = None) as L by (vm_compute; reflexivity).
  destruct (falsy_value_is_cached demo 3 (Plain 4) true None VGlobal KNoThis [] 0 7 st
              (record_call (mkCall 4 VGlobal []) (miss_state 3 KNoThis [] 0 st)))
    as (A & B & _).
  - vm_compute. eauto.
  - reflexivity.
  - exact L.
  - vm_compute. reflexivity.
  - exact I.
  - split; [exact L | split; [exact A | exact B]].
Defined.

(** ** Expiry *)

(** C4. TTL expiry is lazy and never serves a stale value.  An entry set at
    time [now] with a ttl [t] has the deadline [now + t]; [has] and [get]
    strictly before the deadline find it and leave the map as it is; at or
    after the deadline they answer as for an absent key and the map they
    leave no longer holds the entry.  An entry set without a ttl is found at
    every later time.  For a wrapper with ttl [t] whose first call stored [v]
    at [now1]: a call before [now1 + t] returns [v]; from [now1 + t] on
    nothing is cached for the key, the read has removed the stale entry from
    the map in which [valueGetter] runs, and the call returns what the new
    run of [valueGetter] returns. *)
Theorem ttl_expiry (H : Host) :
  (forall now t m k v,
      let m1 := ttl_set now m k v (Some t) in
      mk_get (_ttls m1) k = Some (now + t) /\
      (forall now', now' < now + t ->
         ttl_has now' m1 k = (true, m1) /\ ttl_get now' m1 k = (v, m1)) /\
      (forall now', now + t <= now' ->
         ttl_has now' m1 k = (false, ttl_delete m1 k) /\
         ttl_get now' m1 k = (VUndefined, ttl_delete m1 k) /\
         mk_get (_values (ttl_delete m1 k)) k = None /\
         mk_get (_ttls (ttl_delete m1 k)) k = None)) /\
  (forall now now' m k v,
      let m1 := ttl_set now m k v None in
      ttl_has now' m1 k = (true, m1) /\ ttl_get now' m1 k = (v, m1)) /\
  (forall id f strict t this ctx args now1 now2 st v st',
      let w := CacheLayer id f strict (Some t) in
      let key := generateKey H args (VBool strict) in
      is_Some (cachedValues st !! KWrapper id) ->
      context_of this = Some ctx ->
      apply H f this args now1 (miss_state id ctx key now1 st) = (Returned v, st') ->
      let st1 := fill id ctx key now1 v (Some t) st' in
      (now2 < now1 + t -> apply H w this args now2 st1 = (Returned v, st1)) /\
      (now1 + t <= now2 ->
         lookup_cache st1 id ctx key now2 = None /\
         (exists m2, store (miss_state id ctx key now2 st1) id ctx = Some m2 /\
                     mk_get (_values m2) key = None /\ mk_get (_ttls m2) key = None) /\
         (forall v2 st2,
             apply H f this args now2 (miss_state id ctx key now2 st1) = (Returned v2, st2) ->
             apply H w this args now2 st1
               = (Returned v2, fill id ctx key now2 v2 (Some t) st2)))).
Proof.
  split; [|split].
  - intros now t m k v m1.
    assert (mk_get (_ttls m1) k = Some (now + t)) as D.
    { subst m1. unfold ttl_set; simpl. apply mk_get_set_eq, keyEq_refl. }
    assert (mk_get (_values m1) k = Some v) as V.
    { subst m1. unfold ttl_set; simpl. apply mk_get_set_eq, keyEq_refl. }
    split; [exact D|]. split.
    + intros now' B.
      assert (ttl_expired now' m1 k = false) as N.
      { unfold ttl_expired. rewrite D. apply Z.leb_gt. lia. }
      assert (ttl_peek now' m1 k = Some v) as P by (unfold ttl_peek; rewrite N; exact V).
      rewrite ttl_has_peek, ttl_get_peek, P, (ttl_purge_live _ _ _ N). auto.
    + intros now' B.
      assert (ttl_expired now' m1 k = true) as N.
      { unfold ttl_expired. rewrite D. apply Z.leb_le. lia. }
      assert (ttl_peek now' m1 k = None) as P by (unfold ttl_peek; rewrite N; reflexivity).
      rewrite ttl_has_peek, ttl_get_peek, P. unfold ttl_purge. rewrite N.
      repeat split; unfold ttl_delete; simpl; apply mk_get_delete_eq, keyEq_refl.
  - intros now now' m k v m1.
    assert (ttl_expired now' m1 k = false) as N.
    { subst m1. rewrite ttl_expired_set by apply keyEq_refl. reflexivity. }
    assert (ttl_peek now' m1 k = Some v) as P.
    { subst m1. rewrite ttl_peek_set_eq by apply keyEq_refl. reflexivity. }
    rewrite ttl_has_peek, ttl_get_peek, P, (ttl_purge_live _ _ _ N). auto.
  - intros id f strict t this ctx args now1 now2 st v st' w key X C E st1.
    destruct (store_after_getter H id f this ctx key args now1 st _ st' X C E) as [S1 S2].
    assert (is_Some (cachedValues st1 !! KWrapper id)) as X1
      by (apply cachedValues_put_store; assumption).
    split.
    + intros B. apply (second_call_hits H id f strict (Some t) this ctx args now1 now2 st); assumption.
    + intros B.
      assert (lookup_cache st1 id ctx key now2 = None) as L.
      { subst st1. rewrite lookup_cache_fill_eq; auto using keyEq_refl.
        destruct (now1 + t <=? now2) eqn:G; auto. apply Z.leb_gt in G. lia. }
      split; [exact L|]. split.
      * eexists. split; [apply store_miss_state; assumption|].
        subst st1. unfold fill. rewrite store_put_store_eq by assumption.
        cbn [from_option]. unfold Datatypes.id, ttl_purge.
        rewrite ttl_expired_set by apply keyEq_refl.
        replace (now1 + t <=? now2) with true by (symmetry; apply Z.leb_le; lia).
        split; unfold ttl_delete; simpl; apply mk_get_delete_eq, keyEq_refl.
      * intros v2 st2 E2. apply miss_runs_getter; assumption.
Qed.

(** A wrapper with a ttl of ten milliseconds on the demo host. *)
Lemma ttl_expiry_witness :
  let st := snd (CachedFunction demo VUndefined (VFun (Plain 1)) (VObj 10) demo_state) in
  let w := CacheLayer 3 (Plain 1) true (Some 10) in
  let args := [num 2; num 2] in
  let st1 := fill 3 KNoThis args 0 (num 4) (Some 10)
               (record_call (mkCall 1 VGlobal args) (miss_state 3 KNoThis args 0 st)) in
  apply demo w VGlobal args 0 st = (Returned (num 4), st1) /\
  apply demo w VGlobal args 9 st1 = (Returned (num 4), st1) /\
  lookup_cache st1 3 KNoThis args 10 = None /\
  apply demo w VGlobal args 20 st1 =
    (Returned (num 4),
     fill 3 KNoThis args 20 (num 4) (Some 10)
       (record_call (mkCall 1 VGlobal args) (miss_state 3 KNoThis args 20 st1))).
Proof.
  intros st w args st1.
  destruct (ttl_expiry demo) as (_ & _ & P).
  destruct (P 3%positive (Plain 1) true 10 VGlobal KNoThis args 0 9 st (num 4)
              (record_call (mkCall 1 VGlobal args) (miss_state 3 KNoThis args 0 st)))
    as [A _]; [vm_compute; eauto | reflexivity | vm_compute; reflexivity |].
  destruct (P 3%positive (Plain 1) true 10 VGlobal KNoThis args 0 20 st (num 4)
              (record_call (mkCall 1 VGlobal args) (miss_state 3 KNoThis args 0 st)))
    as [_ B]; [vm_compute; eauto | reflexivity | vm_compute; reflexivity |].
  destruct (B ltac:(lia)) as (_ & _ & B3).
  split; [vm_compute; reflexivity|].
  split; [apply A; lia|].
  split; [vm_compute; reflexivity|].
  apply B3. vm_compute. reflexivity.
Defined.

(** ** Key matching *)

Lemma keyEq_lookup k1 k2 i a b :
  keyEq k1 k2 = true -> k1 !! i = Some a -> k2 !! i = Some b -> sameValueZero a b = true.
Proof.
  revert k2 i. induction k1 as [|x k1 IH]; intros [|y k2] i E A B; simpl in *; try discriminate.
  apply andb_true_iff in E as [E1 E2]. destruct i as [|i]; simpl in *.
  - inversion A; inversion B; subst. exact E1.
  - eapply IH; eauto.
Qed.

Lemma apply_frame_id (H : Host) f this args now st o st' id :
  ~ In id (wrapper_ids f) ->
  apply H f this args now st = (o, st') ->
  forall ctx, store st' id ctx = store st id ctx.
Proof.
  revert st o st'. induction f as [r|id0 f IH strict ttl]; intros st o st' N E ctx.
  - cbn in E. unfold bind, modify, lift in E. inversion E; subst. reflexivity.
  - simpl in N.
    assert (id0 <> id) as N0 by tauto. assert (~ In id (wrapper_ids f)) as N1 by tauto.
    destruct (cachedValues st !! KWrapper id0) as [pc|] eqn:Epc.
    2:{ destruct (apply_CacheLayer_throws H id0 f strict ttl this args now st (or_introl Epc)) as [msg X].
        rewrite X in E. inversion E; subst. reflexivity. }
    destruct (context_of this) as [c|] eqn:Ectx.
    2:{ destruct (apply_CacheLayer_throws H id0 f strict ttl this args now st (or_intror Ectx)) as [msg X].
        rewrite X in E. inversion E; subst. reflexivity. }
    rewrite (apply_CacheLayer H id0 f strict ttl this args now st c) in E by eauto.
    cbv zeta in E.
    assert (forall key, store (miss_state id0 c key now st) id ctx = store st id ctx) as M.
    { intros key. unfold miss_state. rewrite store_put_store_ne by congruence.
      apply store_ensure_ne. congruence. }
    destruct (lookup_cache st id0 c (generateKey H args (VBool strict)) now).
    + inversion E; subst. reflexivity.
    + destruct (apply H f this args now _) as [[v|cls msg] st2] eqn:E2; inversion E; subst.
      * unfold fill. rewrite store_put_store_ne by congruence.
        rewrite (IH _ _ _ N1 E2). apply M.
      * rewrite (IH _ _ _ N1 E2). apply M.
Qed.

Lemma lookup_cache_miss_state_ne id ctx key key' now now' st :
  is_Some (cachedValues st !! KWrapper id) ->
  keyEq key key' = false ->
  lookup_cache (miss_state id ctx key now st) id ctx key' now' = lookup_cache st id ctx key' now'.
Proof.
  intros X E. unfold lookup_cache. rewrite store_miss_state by assumption.
  rewrite ttl_peek_purge_ne by assumption.
  destruct (store st id ctx); reflexivity.
Qed.

Lemma serialize_maybeStringify (H : Host) a1 a2 :
  map (maybeStringify H) a1 = map (maybeStringify H) a2 ->
  map (serialize H) a1 = map (serialize H) a2.
Proof.
  revert a2. induction a1 as [|x a1 IH]; intros [|y a2] E; simpl in *; try discriminate; auto.
  inversion E as [[E1 E2]]. unfold serialize at 1 3. rewrite E1, (IH _ E2). reflexivity.
Qed.

(** C3. Key matching modes.  Under strict matching the key is the argument
    sequence itself; under loose matching it is the sequence of what
    [maybeStringify] answers for each argument, a string where there is a
    serialization.  Keys are compared part by part.  Strict keys that differ
    in the identity of an object at some position are different keys, while
    equal primitives (numbers up to numeric equality) give the same key.
    Loose keys are the same whenever the arguments serialize alike position
    by position, whatever their identity, and different as soon as the
    serializations at some position are different strings.  In either mode,
    after a wrapper has cached [v] for [a1]: for arguments [a2] of a
    different key, what it holds is what it held before, so that a call with
    [a2] that had nothing cached runs [valueGetter]; for arguments [a2] of
    the same key, a call is a hit on [v]. *)
Theorem key_matching (H : Host) :
  (forall args,
      generateKey H args (VBool true) = args /\
      generateKey H args (VBool false)
      = map (fun arg => match maybeStringify H arg with
                        | Some s => VStr s
                        | None => fallback H
                        end) args) /\
  (forall a1 a2 i r1 r2,
      a1 !! i = Some (VObj r1) -> a2 !! i = Some (VObj r2) -> r1 <> r2 ->
      keyEq (generateKey H a1 (VBool true)) (generateKey H a2 (VBool true)) = false) /\
  (forall a1 a2,
      Forall2 (fun x y => weak_key x = None /\
                 (x = y \/ exists p q, x = VNum (Finite p) /\ y = VNum (Finite q) /\ (p == q)%Q))
              a1 a2 ->
      keyEq (generateKey H a1 (VBool true)) (generateKey H a2 (VBool true)) = true) /\
  (forall a1 a2,
      map (maybeStringify H) a1 = map (maybeStringify H) a2 ->
      keyEq (generateKey H a1 (VBool false)) (generateKey H a2 (VBool false)) = true) /\
  (forall a1 a2 i x y s1 s2,
      a1 !! i = Some x -> a2 !! i = Some y ->
      maybeStringify H x = Some s1 -> maybeStringify H y = Some s2 -> s1 <> s2 ->
      keyEq (generateKey H a1 (VBool false)) (generateKey H a2 (VBool false)) = false) /\
  (forall id f strict ttl this ctx a1 a2 now1 now2 st v st',
      let k1 := generateKey H a1 (VBool strict) in
      let k2 := generateKey H a2 (VBool strict) in
      ~ In id (wrapper_ids f) ->
      is_Some (cachedValues st !! KWrapper id) ->
      context_of this = Some ctx ->
      lookup_cache st id ctx k1 now1 = None ->
      apply H f this a1 now1 (miss_state id ctx k1 now1 st) = (Returned v, st') ->
      let st1 := fill id ctx k1 now1 v ttl st' in
      apply H (CacheLayer id f strict ttl) this a1 now1 st = (Returned v, st1) /\
      (keyEq k1 k2 = false ->
         lookup_cache st1 id ctx k2 now2 = lookup_cache st id ctx k2 now2 /\
         (lookup_cache st id ctx k2 now2 = None ->
            apply H (CacheLayer id f strict ttl) this a2 now2 st1 =
            match apply H f this a2 now2 (miss_state id ctx k2 now2 st1) with
            | (Returned v2, st2) => (Returned v2, fill id ctx k2 now2 v2 ttl st2)
            | (Thrown cls msg, st2) => (Thrown cls msg, st2)
            end)) /\
      (keyEq k1 k2 = true ->
         match ttl with Some t => now2 < now1 + t | None => True end ->
         apply H (CacheLayer id f strict ttl) this a2 now2 st1 = (Returned v, st1))).
Proof.
  split; [|split; [|split; [|split; [|split]]]].
  - intros args. split; reflexivity.
  - intros a1 a2 i r1 r2 A1 A2 N. change (keyEq a1 a2 = false).
    destruct (keyEq a1 a2) eqn:E; auto.
    pose proof (keyEq_lookup _ _ _ _ _ E A1 A2) as S. simpl in S.
    apply Pos.eqb_eq in S. contradiction.
  - intros a1 a2 F. change (keyEq a1 a2 = true).
    induction F as [|x y a1 a2 [P [->|(p & q & -> & -> & Q)]] F IH]; simpl; auto.
    + rewrite sameValueZero_refl. exact IH.
    + rewrite IH, andb_true_r. apply Qeq_bool_iff. exact Q.
  - intros a1 a2 E. change (keyEq (map (serialize H) a1) (map (serialize H) a2) = true).
    rewrite (serialize_maybeStringify H a1 a2 E). apply keyEq_refl.
  - intros a1 a2 i x y s1 s2 A1 A2 S1 S2 N.
    change (keyEq (map (serialize H) a1) (map (serialize H) a2) = false).
    destruct (keyEq (map (serialize H) a1) (map (serialize H) a2)) eqn:E; auto.
    assert (map (serialize H) a1 !! i = Some (VStr s1)) as B1
      by (rewrite list_lookup_fmap, A1; unfold serialize; cbn; rewrite S1; reflexivity).
    assert (map (serialize H) a2 !! i = Some (VStr s2)) as B2
      by (rewrite list_lookup_fmap, A2; unfold serialize; cbn; rewrite S2; reflexivity).
    pose proof (keyEq_lookup _ _ _ _ _ E B1 B2) as S. simpl in S.
    apply String.eqb_eq in S. contradiction.
  - intros id f strict ttl this ctx a1 a2 now1 now2 st v st' k1 k2 N X C L E st1.
    assert (apply H (CacheLayer id f strict ttl) this a1 now1 st = (Returned v, st1)) as R1
      by (apply (miss_runs_getter H id f strict ttl this ctx a1 now1 st v st'); assumption).
    destruct (store_after_getter H id f this ctx k1 a1 now1 st _ st' X C E) as [S1 S2].
    assert (is_Some (cachedValues st1 !! KWrapper id)) as X1
      by (apply cachedValues_put_store; assumption).
    split; [exact R1|]. split.
    + intros K.
      assert (lookup_cache st1 id ctx k2 now2 = lookup_cache st id ctx k2 now2) as Q.
      { subst st1. rewrite lookup_cache_fill_ne by assumption.
        unfold lookup_cache at 1. rewrite (apply_frame_id H _ _ _ _ _ _ _ id N E ctx).
        apply (lookup_cache_miss_state_ne id ctx k1 k2 now1 now2 st X K). }
      split; [exact Q|]. intros L2.
      rewrite (apply_CacheLayer H id f strict ttl this a2 now2 st1 ctx X1 C). cbv zeta.
      fold k2. rewrite Q, L2. reflexivity.
    + intros K T.
      apply (hit_returns_cached H id f strict ttl this ctx); auto.
      fold k2. subst st1. rewrite lookup_cache_fill_eq by assumption.
      destruct ttl as [t|]; auto.
      destruct (now1 + t <=? now2) eqn:G2; auto. apply Z.leb_le in G2. lia.
Qed.

(** The loose wrapper of the identity function, called with two distinct
    arrays [['test']]: the second call answers the array of the first, while
    under strict matching the two arrays are different keys; and called with
    the string [a], it holds nothing for the string [b]. *)
Lemma key_matching_witness :
  let st := snd (CachedFunction demo VUndefined (VFun (Plain 3)) (VObj 12) demo_state) in
  let loose := CacheLayer 3 (Plain 3) false None in
  let key := [VStr ("[" ++ dq ++ "test" ++ dq ++ "]")] in
  let st1 := fill 3 KNoThis key 0 (VObj 30) None
               (record_call (mkCall 3 VGlobal [VObj 30]) (miss_state 3 KNoThis key 0 st)) in
  generateKey demo [VObj 30] (VBool false) = key /\
  apply demo loose VGlobal [VObj 30] 0 st = (Returned (VObj 30), st1) /\
  apply demo loose VGlobal [VObj 31] 3 st1 = (Returned (VObj 30), st1) /\
  keyEq (generateKey demo [VObj 30] (VBool true)) (generateKey demo [VObj 31] (VBool true)) = false /\
  keyEq (generateKey demo [VStr "a"] (VBool false)) (generateKey demo [VStr "b"] (VBool false))
  = false /\
  lookup_cache (snd (apply demo loose VGlobal [VStr "a"] 0 st)) 3 KNoThis
               (generateKey demo [VStr "b"] (VBool false)) 3 = None.
Proof.
  intros st loose key st1.
  destruct (key_matching demo) as (P1 & P2 & _ & P4 & P5 & P6).
  pose proof (P4 [VObj 30] [VObj 31] eq_refl) as K.
  pose proof (P5 [VStr "a"] [VStr "b"] 0%nat (VStr "a") (VStr "b") _ _
                eq_refl eq_refl eq_refl eq_refl ltac:(vm_compute; discriminate)) as K'.
  destruct (P6 3%positive (Plain 3) false None VGlobal KNoThis [VObj 30] [VObj 31] 0 3 st (VObj 30)
              (record_call (mkCall 3 VGlobal [VObj 30]) (miss_state 3 KNoThis key 0 st)))
    as (A & _ & B).
  - simpl. tauto.
  - vm_compute. eauto.
  - reflexivity.
  - vm_compute. reflexivity.
  - vm_compute. reflexivity.
  - destruct (P6 3%positive (Plain 3) false None VGlobal KNoThis [VStr "a"] [VStr "b"] 0 3 st
                (VStr "a")
                (record_call (mkCall 3 VGlobal [VStr "a"])
                   (miss_state 3 KNoThis (generateKey demo [VStr "a"] (VBool false)) 0 st)))
      as (A' & B' & _).
    + simpl. tauto.
    + vm_compute. eauto.
    + reflexivity.
    + vm_compute. reflexivity.
    + vm_compute. reflexivity.
    + destruct (B' K') as [Q _].
      split; [reflexivity|]. split; [exact A|]. split; [exact (B K I)|].
      split; [apply (P2 [VObj 30] [VObj 31] 0%nat 30%positive 31%positive);
              [reflexivity | reflexivity | discriminate]|].
      split; [exact K'|].
      unfold loose. rewrite A'. cbn [snd]. rewrite Q. vm_compute. reflexivity.
Defined.

(** ** clearCache, block by block *)

Section ClearFacts.

Variable H : Host.

Lemma resolve_function c methodName args now st :
  resolve_target H (VFun c) methodName args now st
  = (Returned (VFun c, KNoThis, ArgsGiven methodName), st).
Proof. reflexivity. Qed.

Lemma resolve_method r name c args now st :
  getDescriptor H r name = Some (DataProp (VFun c)) ->
  resolve_target H (VObj r) (VStr name) args now st
  = (Returned (VFun c, KObj r, ArgsGiven args), st).
Proof.
  intros D. unfold resolve_target. cbn [typeof String.eqb Ascii.eqb Bool.eqb].
  cbn. unfold bind, assert, ret. cbn. rewrite D. reflexivity.
Qed.

Lemma resolve_member r name args now st c0 st1 cf st2 :
  Get H (VObj r) name now st = (Returned (VFun c0), st1) ->
  Get H (VObj r) name now st1 = (Returned cf, st2) ->
  resolve_target H (VObj r) (VStr name) args now st
  = (Returned (cf, KObj r, ArgsGiven args), st2).
Proof.
  intros G1 G2. unfold resolve_target.
  cbn [typeof String.eqb Ascii.eqb Bool.eqb check_string assert string_of object_key].
  unfold bind, ret. rewrite G1. cbn [typeof String.eqb Ascii.eqb Bool.eqb].
  rewrite G2. reflexivity.
Qed.

Lemma resolve_member_throws r name args now st cls msg st1 :
  Get H (VObj r) name now st = (Thrown cls msg, st1) ->
  resolve_target H (VObj r) (VStr name) args now st = (Thrown cls msg, st1).
Proof.
  intros G. unfold resolve_target.
  cbn [typeof String.eqb Ascii.eqb Bool.eqb check_string assert string_of object_key].
  unfold bind, ret. rewrite G. reflexivity.
Qed.

Lemma resolve_getter r name g args now st v st1 :
  getDescriptor H r name = Some (AccessorProp (Some g)) ->
  apply H g (VObj r) [] now st = (Returned v, st1) ->
  String.eqb (typeof v) "function" = false ->
  resolve_target H (VObj r) (VStr name) args now st
  = (Returned (VFun g, KObj r, ArgsEmptyLiteral), st1).
Proof.
  intros D E T. unfold resolve_target. cbn. unfold bind, assert, ret. cbn.
  rewrite D, E, T. reflexivity.
Qed.

Lemma resolve_getter_throws r name g args now st cls msg st1 :
  getDescriptor H r name = Some (AccessorProp (Some g)) ->
  apply H g (VObj r) [] now st = (Thrown cls msg, st1) ->
  resolve_target H (VObj r) (VStr name) args now st = (Thrown cls msg, st1).
Proof.
  intros D E. unfold resolve_target. cbn. unfold bind, assert, ret. cbn.
  rewrite D, E. reflexivity.
Qed.

(** Reading a member touches the maps of the object's context only. *)
Lemma Get_only_context o name now st out st' :
  Get H o name now st = (out, st') ->
  only_context (Some (object_key o)) st st'.
Proof.
  intros G. unfold Get in G. destruct o; try (inversion G; subst; apply only_context_refl).
  destruct (getDescriptor H r name) as [[x|[g|]]|];
    try (inversion G; subst; apply only_context_refl).
  apply (apply_only_context H _ _ _ _ _ _ _ G).
Qed.

(** Resolving the target touches the maps of the receiver's context only, and
    the context it answers is [clear_context]. *)
Lemma resolve_target_footprint o methodName args now st out st' :
  resolve_target H o methodName args now st = (out, st') ->
  only_context (Some (clear_context o)) st st' /\
  (forall cf ctx a, out = Returned (cf, ctx, a) -> ctx = clear_context o).
Proof.
  unfold resolve_target, clear_context.
  destruct (String.eqb (typeof o) "object") eqn:T.
  - unfold bind, assert. destruct (check_string methodName).
    2:{ cbn. intros E; inversion E; subst. split; [apply only_context_refl | discriminate]. }
    cbn [ret].
    destruct (Get H o (string_of methodName) now st) as [[member|cls msg] st1] eqn:G.
    + pose proof (Get_only_context _ _ _ _ _ _ G) as F.
      destruct (String.eqb (typeof member) "function").
      * destruct (Get H o (string_of methodName) now st1) as [[cf0|cls msg] st2] eqn:G2;
          pose proof (Get_only_context _ _ _ _ _ _ G2) as F2;
          intros E; inversion E; subst;
          (split; [exact (only_context_trans _ _ _ _ F F2)|]).
        -- intros cf ctx a X; inversion X; reflexivity.
        -- discriminate.
      * destruct (descriptor_of H o (string_of methodName)).
        -- intros E; inversion E; subst. split; [exact F|].
           intros cf ctx a X; inversion X; reflexivity.
        -- cbn. intros E; inversion E; subst. split; [exact F | discriminate].
    + intros E; inversion E; subst. split; [|discriminate].
      exact (Get_only_context _ _ _ _ _ _ G).
  - unfold bind, assert. destruct (check_function o); cbn.
    + intros E; inversion E; subst. split; [apply only_context_refl|].
      intros cf ctx a X; inversion X; reflexivity.
    + intros E; inversion E; subst. split; [apply only_context_refl | discriminate].
Qed.

(** The second block changes the map of [context] only, and nothing but
    [cachedValues]. *)
Lemma clear_entries_footprint cf context args st out st' :
  clear_entries H cf context args st = (out, st') ->
  cachedFunctions st' = cachedFunctions st /\
  cachedFunctionOptions st' = cachedFunctionOptions st /\
  next_id st' = next_id st /\
  calls st' = calls st /\
  (forall id ctx', ctx' <> context -> store st' id ctx' = store st id ctx').
Proof.
  unfold clear_entries, bind, get_state.
  destruct (cached st cf) as [[k pc]|] eqn:C.
  2:{ cbn. intros E; inversion E; subst. auto. }
  unfold assert. destruct (maybe_array H args).
  2:{ cbn. intros E; inversion E; subst. auto. }
  cbn [ret].
  destruct (pc !! context) as [m|] eqn:P.
  2:{ cbn. intros E; inversion E; subst. auto. }
  assert (forall g : gmap WKey TTLMap -> gmap WKey TTLMap,
             (forall pc' ctx', ctx' <> context -> g pc' !! ctx' = pc' !! ctx') ->
             forall id ctx', ctx' <> context ->
               store (set_cachedValues (alter g k) st) id ctx' = store st id ctx') as F.
  { intros g Hg id ctx' N. unfold store, set_cachedValues; simpl.
    destruct (decide (k = KWrapper id)) as [->|Nk].
    - rewrite lookup_alter_eq. destruct (cachedValues st !! KWrapper id); simpl; auto.
    - rewrite lookup_alter_ne by assumption. reflexivity. }
  assert (forall id ctx', ctx' <> context ->
             store (set_cachedValues (alter (delete context) k) st) id ctx' = store st id ctx') as F1.
  { apply F. intros pc' ctx' N. apply lookup_delete_ne. congruence. }
  assert (forall key id ctx', ctx' <> context ->
             store (set_cachedValues
                      (alter (alter (fun m => ttl_delete m key) context) k) st) id ctx'
             = store st id ctx') as F2.
  { intros key. apply F. intros pc' ctx' N. apply lookup_alter_ne. congruence. }
  assert (forall a, a <> ArgsGiven VUndefined ->
    (match cachedFunctionOptions st !! k with
     | None => throw TypeError "Cannot read properties of undefined"
     | Some options =>
         bind (lift (array_from H a))
           (fun elems =>
              modify (set_cachedValues
                (alter (alter (fun m => ttl_delete m
                   (generateKey H elems
                      (match options with
                       | Some o => data_get H o "strictArgMatch"
                       | None => VUndefined
                       end))) context) k)))
     end) st = (out, st') ->
    cachedFunctions st' = cachedFunctions st /\
    cachedFunctionOptions st' = cachedFunctionOptions st /\
    next_id st' = next_id st /\
    calls st' = calls st /\
    (forall id ctx', ctx' <> context -> store st' id ctx' = store st id ctx')) as K.
  { intros a _. destruct (cachedFunctionOptions st !! k) as [options|].
    2:{ cbn. intros E; inversion E; subst. auto. }
    unfold bind, lift. destruct (array_from H a) as [elems|cls msg].
    - cbn. intros E; inversion E; subst. repeat split; auto.
    - intros E; inversion E; subst. auto. }
  destruct args as [v|].
  - destruct v; try (apply K; discriminate).
    cbn. intros E; inversion E; subst. repeat split; auto.
  - apply K. discriminate.
Qed.


End ClearFacts.

(** ** Per-context isolation *)




(** ** Clearing *)

Section Clearing.

Variable H : Host.

Lemma generateKey_captured args strict sv :
  strict = truthy (default_to (VBool true) sv) ->
  generateKey H args sv = generateKey H args (VBool strict).
Proof.
  intros ->. unfold generateKey. cbn [default_to truthy].
  destruct (truthy (default_to (VBool true) sv)); reflexivity.
Qed.

Lemma alter_alter_const (cv : gmap WKey (gmap WKey TTLMap)) k ctx (g : TTLMap -> TTLMap) pc m :
  cv !! k = Some pc -> pc !! ctx = Some m ->
  alter (alter g ctx) k cv = alter (alter (fun _ => g m) ctx) k cv.
Proof.
  intros A B. apply alter_ext. intros pc' A'. rewrite A in A'. inversion A'; subst.
  apply alter_ext. intros m' B'. rewrite B in B'. inversion B'; subst. reflexivity.
Qed.

(** Clearing one argument list of a wrapper: the entry of its key is deleted
    from the map of the context, when there is one. *)
Lemma clear_entries_array id f strict ttl ctx r args st :
  genuine H st (CacheLayer id f strict ttl) ->
  elements H r = Some args ->
  clear_entries H (VFun (CacheLayer id f strict ttl)) ctx (ArgsGiven (VObj r)) st
  = (Returned tt, delete_entry id ctx (generateKey H args (VBool strict)) st).
Proof.
  intros ([pc X] & options & O & S) A.
  unfold clear_entries, bind, get_state, cached. cbn [weak_key fn_key].
  rewrite X. unfold assert, maybe_array, maybe. cbn [assigned check_array]. rewrite A. cbn [ret].
  unfold delete_entry, store. rewrite X.
  destruct (pc !! ctx) as [m|] eqn:P; [|reflexivity].
  rewrite O. unfold lift, array_from. rewrite A. unfold modify.
  rewrite (generateKey_captured args strict _ S).
  unfold put_store, set_cachedValues.
  rewrite (alter_alter_const _ _ _ _ _ _ X P). reflexivity.
Qed.

(** Clearing without an argument list: the map of the context is removed. *)
Lemma clear_entries_all id f strict ttl ctx st :
  is_Some (cachedValues st !! KWrapper id) ->
  clear_entries H (VFun (CacheLayer id f strict ttl)) ctx (ArgsGiven VUndefined) st
  = (Returned tt, match store st id ctx with Some _ => drop_store id ctx st | None => st end).
Proof.
  intros [pc X].
  unfold clear_entries, bind, get_state, cached. cbn [weak_key fn_key].
  rewrite X. unfold assert, maybe_array, maybe. cbn [assigned ret].
  unfold store. rewrite X. destruct (pc !! ctx); reflexivity.
Qed.

Lemma clearCache_function c methodName third now st :
  clearCache H (VFun c) methodName third now st
  = clear_entries H (VFun c) KNoThis (ArgsGiven methodName) st.
Proof. reflexivity. Qed.

Lemma store_delete_entry_eq id ctx key st :
  store (delete_entry id ctx key st) id ctx = (fun m => ttl_delete m key) <$> store st id ctx.
Proof.
  unfold delete_entry. destruct (store st id ctx) as [m|] eqn:E; simpl.
  - apply store_put_store_eq. eauto.
  - exact E.
Qed.

Lemma store_delete_entry_ne id ctx id' ctx' key st :
  (id, ctx) <> (id', ctx') -> store (delete_entry id ctx key st) id' ctx' = store st id' ctx'.
Proof.
  intros N. unfold delete_entry. destruct (store st id ctx); auto.
  apply store_put_store_ne. assumption.
Qed.

Lemma cachedValues_delete_entry id ctx key st k :
  is_Some (cachedValues (delete_entry id ctx key st) !! k) <-> is_Some (cachedValues st !! k).
Proof.
  unfold delete_entry. destruct (store st id ctx); [apply cachedValues_put_store | reflexivity].
Qed.

Lemma store_drop_store_eq id ctx st : store (drop_store id ctx st) id ctx = None.
Proof.
  unfold store, drop_store, set_cachedValues; simpl. rewrite lookup_alter_eq.
  destruct (cachedValues st !! KWrapper id); simpl; auto. apply lookup_delete_eq.
Qed.

Lemma store_drop_store_ne id ctx id' ctx' st :
  (id, ctx) <> (id', ctx') -> store (drop_store id ctx st) id' ctx' = store st id' ctx'.
Proof.
  intros N. unfold store, drop_store, set_cachedValues; simpl.
  destruct (decide (id = id')) as [->|Nid].
  - rewrite lookup_alter_eq. destruct (cachedValues st !! KWrapper id'); simpl; auto.
    apply lookup_delete_ne. congruence.
  - rewrite lookup_alter_ne; [reflexivity | congruence].
Qed.

End Clearing.

(** C6. Targeted clear and its frame.  For a wrapper [w] of the engine and an
    array [a], [clearCache(w, a)] succeeds and removes the entry of the key of
    [a] from the map [w] holds for calls without receiver: afterwards nothing
    is cached for that key, what is cached for every other key is as before,
    the maps of every other wrapper and context and the trace are unchanged,
    and the next call [w(a)] is a miss: it runs [valueGetter] and stores the
    result, which for a host function is the value its body gives for [a],
    with exactly one more recorded call.  [clearCache(w)] without an argument
    list removes the whole map, so that nothing is cached for any key, and
    touches no other map. *)
Theorem targeted_clear (H : Host) id f strict ttl r args third now st :
  let w := CacheLayer id f strict ttl in
  let key := generateKey H args (VBool strict) in
  genuine H st w ->
  elements H r = Some args ->
  (exists st',
      clearCache H (VFun w) (VObj r) third now st = (Returned tt, st') /\
      (forall now', lookup_cache st' id KNoThis key now' = None) /\
      (forall key' now', keyEq key key' = false ->
         lookup_cache st' id KNoThis key' now' = lookup_cache st id KNoThis key' now') /\
      (forall id' ctx', (id', ctx') <> (id, KNoThis) -> store st' id' ctx' = store st id' ctx') /\
      calls st' = calls st /\
      (forall now',
          apply H w VGlobal args now' st' =
          match apply H f VGlobal args now' (miss_state id KNoThis key now' st') with
          | (Returned v, s) => (Returned v, fill id KNoThis key now' v ttl s)
          | (Thrown cls msg, s) => (Thrown cls msg, s)
          end) /\
      (forall r0 v now', f = Plain r0 -> body H r0 VGlobal args = Returned v ->
         exists st'', apply H w VGlobal args now' st' = (Returned v, st'') /\
                      calls st'' = calls st ++ [mkCall r0 VGlobal args])) /\
  (exists st0,
      clearCache H (VFun w) VUndefined third now st = (Returned tt, st0) /\
      store st0 id KNoThis = None /\
      (forall key' now', lookup_cache st0 id KNoThis key' now' = None) /\
      (forall id' ctx', (id', ctx') <> (id, KNoThis) -> store st0 id' ctx' = store st id' ctx')).
Proof.
  intros w key G A. pose proof G as (X & _).
  split.
  - exists (delete_entry id KNoThis key st).
    assert (forall now', lookup_cache (delete_entry id KNoThis key st) id KNoThis key now' = None) as L.
    { intros now'. unfold lookup_cache. rewrite store_delete_entry_eq.
      destruct (store st id KNoThis); simpl; auto.
      apply ttl_peek_delete_eq, keyEq_refl. }
    assert (forall now',
      apply H w VGlobal args now' (delete_entry id KNoThis key st) =
      match apply H f VGlobal args now' (miss_state id KNoThis key now' (delete_entry id KNoThis key st)) with
      | (Returned v, s) => (Returned v, fill id KNoThis key now' v ttl s)
      | (Thrown cls msg, s) => (Thrown cls msg, s)
      end) as M.
    { intros now'. subst w.
      rewrite (apply_CacheLayer H id f strict ttl VGlobal args now' _ KNoThis);
        [| apply cachedValues_delete_entry; assumption | reflexivity].
      cbv zeta. fold key. rewrite L. reflexivity. }
    split; [|split; [|split; [|split; [|split; [|split]]]]].
    + rewrite clearCache_function. apply clear_entries_array; assumption.
    + exact L.
    + intros key' now' N. unfold lookup_cache. rewrite store_delete_entry_eq.
      destruct (store st id KNoThis); simpl; auto.
      apply ttl_peek_delete_ne. assumption.
    + intros id' ctx' N. apply store_delete_entry_ne. congruence.
    + unfold delete_entry. destruct (store st id KNoThis); reflexivity.
    + exact M.
    + intros r0 v now' -> B. rewrite M. cbn [apply]. unfold bind, modify, lift. rewrite B.
      eexists. split; [reflexivity|].
      unfold fill, put_store. cbn [calls set_cachedValues record_call].
      rewrite calls_miss_state.
      unfold delete_entry. destruct (store st id KNoThis); reflexivity.
  - exists (match store st id KNoThis with Some _ => drop_store id KNoThis st | None => st end).
    assert (store (match store st id KNoThis with
                   | Some _ => drop_store id KNoThis st
                   | None => st
                   end) id KNoThis = None) as S.
    { destruct (store st id KNoThis) eqn:E; [apply store_drop_store_eq | exact E]. }
    split; [|split; [|split]].
    + rewrite clearCache_function. apply clear_entries_all. assumption.
    + exact S.
    + intros key' now'. unfold lookup_cache. rewrite S. reflexivity.
    + intros id' ctx' N. destruct (store st id KNoThis); auto.
      apply store_drop_store_ne. congruence.
Qed.

(** [add(2, 2)] and [add(5, 5)] cached, then [clearCache(add, [2, 2])]. *)
Lemma targeted_clear_witness :
  let st := snd (apply demo cachedAdd VGlobal [num 5; num 5] 1
                   (snd (apply demo cachedAdd VGlobal [num 2; num 2] 0 demo_state))) in
  let st' := snd (clearCache demo (VFun cachedAdd) (VObj 20) VUndefined 2 st) in
  lookup_cache st 1 KNoThis [num 2; num 2] 2 = Some (num 4) /\
  fst (clearCache demo (VFun cachedAdd) (VObj 20) VUndefined 2 st) = Returned tt /\
  lookup_cache st' 1 KNoThis [num 2; num 2] 3 = None /\
  lookup_cache st' 1 KNoThis [num 5; num 5] 3 = Some (num 10) /\
  fst (apply demo cachedAdd VGlobal [num 2; num 2] 3 st') = Returned (num 4) /\
  calls (snd (apply demo cachedAdd VGlobal [num 2; num 2] 3 st')) =
    calls st ++ [mkCall 1 VGlobal [num 2; num 2]].
Proof.
  intros st st'.
  destruct (targeted_clear demo 1 (Plain 1) true None 20 [num 2; num 2] VUndefined 2 st)
    as [(s & E & L & F & _ & _ & _ & R) _].
  - split; [vm_compute; eauto|]. exists None. split; vm_compute; reflexivity.
  - reflexivity.
  - assert (st' = s) as -> by (subst st'; unfold cachedAdd; rewrite E; reflexivity).
    unfold cachedAdd.
    split; [vm_compute; reflexivity|].
    split; [rewrite E; reflexivity|].
    split; [apply L|].
    split; [rewrite (F [num 5; num 5] 3 ltac:(vm_compute; reflexivity)); vm_compute; reflexivity|].
    destruct (R 1%positive (num 4) 3 eq_refl ltac:(vm_compute; reflexivity)) as (s2 & E2 & C2).
    rewrite E2. split; [reflexivity | exact C2].
Defined.

(** ** The factory *)

Section Factory.

Variable H : Host.

Lemma destructure_ok options :
  options <> VNull ->
  destructure H options
  = Returned (default_to (VBool true) (data_get H options "strictArgMatch"),
              data_get H options "ttl").
Proof. intros N. destruct options; try reflexivity. contradiction. Qed.

Lemma CachedFunction_null this valueGetter st :
  exists msg, CachedFunction H this valueGetter VNull st = (Thrown TypeError msg, st).
Proof. eexists. reflexivity. Qed.

Lemma CachedFunction_new this valueGetter options st :
  this <> VUndefined -> options <> VNull ->
  exists msg, CachedFunction H this valueGetter options st = (Thrown SyntaxError msg, st).
Proof.
  intros T N. unfold CachedFunction, bind, lift. rewrite (destructure_ok _ N).
  unfold assert. destruct this; try contradiction; eexists; reflexivity.
Qed.

Lemma CachedFunction_registered valueGetter options st c :
  options <> VNull ->
  registered st valueGetter (paramsKey H options) = Some c ->
  CachedFunction H VUndefined valueGetter options st = (Returned (VFun c), st).
Proof.
  intros N R. unfold CachedFunction, bind, lift. rewrite (destructure_ok _ N).
  cbn -[registered]. unfold bind, get_state. rewrite R. reflexivity.
Qed.

Lemma CachedFunction_not_callable valueGetter options st :
  options <> VNull ->
  registered st valueGetter (paramsKey H options) = None ->
  (forall c, valueGetter <> VFun c) ->
  exists msg, CachedFunction H VUndefined valueGetter options st = (Thrown TypeError msg, st).
Proof.
  intros N R F. unfold CachedFunction, bind, lift. rewrite (destructure_ok _ N).
  cbn -[registered]. unfold bind, get_state. rewrite R.
  destruct valueGetter; try (eexists; reflexivity). exfalso. eapply F. reflexivity.
Qed.

Lemma CachedFunction_not_integer g options st :
  options <> VNull ->
  registered st (VFun g) (paramsKey H options) = None ->
  maybe check_integer (data_get H options "ttl") = false ->
  exists msg, CachedFunction H VUndefined (VFun g) options st = (Thrown TypeError msg, st).
Proof.
  intros N R F. unfold CachedFunction, bind, lift. rewrite (destructure_ok _ N).
  cbn -[registered]. unfold bind, get_state. rewrite R. unfold assert. rewrite F.
  eexists. reflexivity.
Qed.

Lemma CachedFunction_not_positive g options st :
  options <> VNull ->
  registered st (VFun g) (paramsKey H options) = None ->
  maybe check_integer (data_get H options "ttl") = true ->
  maybe check_positive (data_get H options "ttl") = false ->
  exists msg, CachedFunction H VUndefined (VFun g) options st = (Thrown RangeError msg, st).
Proof.
  intros N R I F. unfold CachedFunction, bind, lift. rewrite (destructure_ok _ N).
  cbn -[registered]. unfold bind, get_state. rewrite R. unfold assert. rewrite I.
  cbn [ret]. rewrite F. eexists. reflexivity.
Qed.

(** A direct call that finds nothing registered and passes the validation
    comes to [NamedFunction] (index.js:66-67) and ends as that call does. *)
Lemma CachedFunction_validated g options st :
  options <> VNull ->
  registered st (VFun g) (paramsKey H options) = None ->
  maybe check_integer (data_get H options "ttl") = true ->
  maybe check_positive (data_get H options "ttl") = true ->
  CachedFunction H VUndefined (VFun g) options st
  = match NamedFunction H (strip_get (function_name H g)) with
    | Returned _ => (Returned (VFun (new_wrapper H g options st)), with_wrapper H g options st)
    | Thrown cls msg => (Thrown cls msg, st)
    end.
Proof.
  intros N R I F. unfold CachedFunction, bind, lift. rewrite (destructure_ok _ N).
  cbn -[registered]. unfold bind, get_state. rewrite R. unfold assert. rewrite I.
  cbn [ret]. rewrite F.
  destruct (NamedFunction H (strip_get (function_name H g))); reflexivity.
Qed.

Lemma CachedFunction_fresh g options st :
  options <> VNull ->
  registered st (VFun g) (paramsKey H options) = None ->
  maybe check_integer (data_get H options "ttl") = true ->
  maybe check_positive (data_get H options "ttl") = true ->
  NamedFunction H (strip_get (function_name H g)) = Returned tt ->
  CachedFunction H VUndefined (VFun g) options st
  = (Returned (VFun (new_wrapper H g options st)), with_wrapper H g options st).
Proof.
  intros N R I F A. rewrite (CachedFunction_validated g options st N R I F), A. reflexivity.
Qed.

(** The outcomes of a direct call, by cases. *)
Lemma CachedFunction_cases valueGetter options st o st' :
  CachedFunction H VUndefined valueGetter options st = (o, st') ->
  (st' = st /\ exists cls msg, o = Thrown cls msg) \/
  (st' = st /\ exists c, o = Returned (VFun c) /\
                         registered st valueGetter (paramsKey H options) = Some c) \/
  (exists g, valueGetter = VFun g /\ options <> VNull /\
             registered st valueGetter (paramsKey H options) = None /\
             o = Returned (VFun (new_wrapper H g options st)) /\
             st' = with_wrapper H g options st).
Proof.
  intros E.
  assert (options = VNull \/ options <> VNull) as [->|N]
    by (destruct options; (left; reflexivity) || (right; discriminate)).
  { destruct (CachedFunction_null VUndefined valueGetter st) as [msg X].
    rewrite X in E. inversion E; subst. left. eauto. }
  destruct (registered st valueGetter (paramsKey H options)) as [c|] eqn:R.
  { rewrite (CachedFunction_registered _ _ _ _ N R) in E. inversion E; subst.
    right; left. eauto. }
  destruct valueGetter as [| | | | | | |g];
    try (destruct (CachedFunction_not_callable _ _ _ N R ltac:(discriminate)) as [msg X];
         rewrite X in E; inversion E; subst; left; eauto).
  destruct (maybe check_integer (data_get H options "ttl")) eqn:I.
  2:{ destruct (CachedFunction_not_integer _ _ _ N R I) as [msg X].
      rewrite X in E; inversion E; subst; left; eauto. }
  destruct (maybe check_positive (data_get H options "ttl")) eqn:P.
  2:{ destruct (CachedFunction_not_positive _ _ _ N R I P) as [msg X].
      rewrite X in E; inversion E; subst; left; eauto. }
  rewrite (CachedFunction_validated _ _ _ N R I P) in E.
  destruct (NamedFunction H (strip_get (function_name H g))) as [u|cls msg].
  - inversion E; subst. right; right. exists g. auto.
  - inversion E; subst. left. eauto.
Qed.

Lemma registered_entry st v key c :
  registered st v key = Some c <-> exists k, weak_key v = Some k /\ registry_entry st k key c.
Proof.
  unfold registered, registry_entry. destruct (weak_key v) as [k|].
  - destruct (cachedFunctions st !! k) as [bp|] eqn:E.
    + split.
      * intros X. exists k. split; auto. eauto.
      * intros (k' & K & bp' & A & B). inversion K; subst. rewrite E in A. inversion A; subst.
        exact B.
    + split; [discriminate|]. intros (k' & K & bp' & A & B). inversion K; subst.
      rewrite E in A. discriminate.
  - split; [discriminate|]. intros (k' & K & _). discriminate.
Qed.

Lemma entry_with_wrapper g options st k p c :
  registry_entry (with_wrapper H g options st) k p c <->
  (k = fn_key g /\ p = paramsKey H options /\ c = new_wrapper H g options st) \/
  (~ (k = fn_key g /\ p = paramsKey H options) /\ registry_entry st k p c).
Proof.
  unfold registry_entry, with_wrapper. cbn [cachedFunctions].
  set (key := paramsKey H options). set (w := new_wrapper H g options st).
  set (base := match cachedFunctions st !! fn_key g with
               | Some _ => cachedFunctions st
               | None => <[fn_key g := ∅]> (cachedFunctions st)
               end).
  assert (forall k', k' <> fn_key g -> base !! k' = cachedFunctions st !! k') as B1.
  { intros k' N. subst base. destruct (cachedFunctions st !! fn_key g); auto.
    apply lookup_insert_ne. congruence. }
  assert (base !! fn_key g = Some (default ∅ (cachedFunctions st !! fn_key g))) as B2.
  { subst base. destruct (cachedFunctions st !! fn_key g) eqn:E; simpl; auto.
    apply lookup_insert_eq. }
  destruct (decide (k = fn_key g)) as [->|Nk].
  - rewrite lookup_alter_eq, B2. cbn [fmap option_fmap option_map].
    destruct (decide (p = key)) as [->|Np].
    + split.
      * intros (bp & A & B). inversion A; subst. rewrite lookup_insert_eq in B.
        inversion B; subst. left. auto.
      * intros [(_ & _ & ->)|[N _]]; [|exfalso; apply N; auto].
        eexists. split; [reflexivity|]. apply lookup_insert_eq.
    + split.
      * intros (bp & A & B). inversion A; subst. rewrite lookup_insert_ne in B by congruence.
        right. split; [tauto|].
        destruct (cachedFunctions st !! fn_key g) as [bp0|] eqn:E; simpl in B.
        -- eauto.
        -- rewrite lookup_empty in B. discriminate.
      * intros [(_ & X & _)|[_ (bp & A & B)]]; [contradiction|].
        rewrite A. simpl. eexists. split; [reflexivity|].
        rewrite lookup_insert_ne by congruence. exact B.
  - rewrite lookup_alter_ne by congruence. rewrite (B1 _ Nk).
    split.
    + intros X. right. split; [tauto | exact X].
    + intros [(X & _)|[_ X]]; [contradiction | exact X].
Qed.

Lemma registry_wf_with_wrapper g options st :
  registry_wf st ->
  registered st (VFun g) (paramsKey H options) = None ->
  registry_wf (with_wrapper H g options st).
Proof.
  intros [W1 W2] R. split.
  - intros k p c E. apply entry_with_wrapper in E as [(-> & -> & ->)|[_ E]].
    + unfold new_wrapper. do 4 eexists. split; [reflexivity|]. split; [reflexivity|].
      cbn. lia.
    + destruct (W1 _ _ _ E) as (id & g0 & s & t & -> & -> & L).
      do 4 eexists. split; [reflexivity|]. split; [reflexivity|]. cbn. lia.
  - intros k k' p p' c c' E E' F.
    apply entry_with_wrapper in E as [(-> & -> & ->)|[N E]];
      apply entry_with_wrapper in E' as [(-> & -> & ->)|[N' E']].
    + auto.
    + destruct (W1 _ _ _ E') as (id & g0 & s & t & -> & _ & L).
      unfold new_wrapper in F. cbn in F. inversion F. lia.
    + destruct (W1 _ _ _ E) as (id & g0 & s & t & -> & _ & L).
      unfold new_wrapper in F. cbn in F. inversion F. lia.
    + eapply W2; eauto.
Qed.

(** [CachedFunction] keeps the registry well formed. *)
Lemma CachedFunction_registry_wf valueGetter options st o st' :
  registry_wf st ->
  CachedFunction H VUndefined valueGetter options st = (o, st') ->
  registry_wf st'.
Proof.
  intros W E.
  destruct (CachedFunction_cases _ _ _ _ _ E)
    as [[-> _]|[[-> _]|(g & -> & N & R & _ & ->)]]; auto.
  apply registry_wf_with_wrapper; assumption.
Qed.

Lemma registry_wf_initial : registry_wf initial.
Proof.
  split.
  - intros k p c (bp & A & _).
    change (cachedFunctions initial) with (∅ : gmap WKey (gmap string Callable)) in A.
    rewrite lookup_empty in A. discriminate.
  - intros k k' p p' c c' (bp & A & _).
    change (cachedFunctions initial) with (∅ : gmap WKey (gmap string Callable)) in A.
    rewrite lookup_empty in A. discriminate.
Qed.

(** A wrapper that [CachedFunction] has just built is a wrapper of the
    engine. *)
Lemma new_wrapper_genuine g options st :
  genuine H (with_wrapper H g options st) (new_wrapper H g options st).
Proof.
  unfold genuine, new_wrapper, with_wrapper. cbn [cachedValues cachedFunctionOptions].
  split; [rewrite lookup_insert_eq; eauto|].
  eexists. split; [apply lookup_insert_eq|].
  destruct (truthy options) eqn:T; [reflexivity|].
  destruct options; try discriminate; reflexivity.
Qed.

End Factory.

(** ** Wrapper identity *)

(** C2. Wrapper identity stability.  The wrapper [CachedFunction] answers is
    the one registered under the identity of the callable and the
    serialization of the configuration ([paramsKey], the empty string when
    there is nothing to serialize, as for an omitted configuration).  After a
    call that returned the wrapper [w1], a further call on the same callable
    with a configuration (other than [null]) whose serialization is equal
    returns [w1] itself and leaves the whole state, per-context maps
    included, as it is; a call with a configuration that serializes
    differently returns a wrapper of another identity. *)
Theorem wrapper_identity (H : Host) st f o1 o2 w1 st1 :
  registry_wf st ->
  CachedFunction H VUndefined f o1 st = (Returned w1, st1) ->
  (exists c1, w1 = VFun c1 /\ registered st1 f (paramsKey H o1) = Some c1) /\
  (maybeStringify H VUndefined = None -> paramsKey H VUndefined = "") /\
  (o2 <> VNull -> paramsKey H o2 = paramsKey H o1 ->
     CachedFunction H VUndefined f o2 st1 = (Returned w1, st1)) /\
  (paramsKey H o2 <> paramsKey H o1 ->
     forall w2 st2, CachedFunction H VUndefined f o2 st1 = (Returned w2, st2) ->
       weak_key w2 <> weak_key w1).
Proof.
  intros W E.
  pose proof (CachedFunction_registry_wf H _ _ _ _ _ W E) as [W1 W2].
  assert (exists c1, w1 = VFun c1 /\ registered st1 f (paramsKey H o1) = Some c1) as (c1 & -> & R1).
  { destruct (CachedFunction_cases H _ _ _ _ _ E)
      as [[_ (cls & msg & X)]|[[-> (c & X & R)]|(g & -> & N & R & X & ->)]].
    - discriminate.
    - inversion X; subst. eauto.
    - inversion X; subst. eexists. split; [reflexivity|].
      apply registered_entry. exists (fn_key g). split; [reflexivity|].
      apply entry_with_wrapper. left. auto. }
  split; [eauto|]. split; [|split].
  - intros S. unfold paramsKey. rewrite S. reflexivity.
  - intros N K. apply CachedFunction_registered; [assumption|]. rewrite K. exact R1.
  - intros K w2 st2 E2.
    apply registered_entry in R1 as (k & Wk & En1).
    destruct (CachedFunction_cases H _ _ _ _ _ E2)
      as [[_ (cls & msg & X)]|[[-> (c & X & R)]|(g & -> & N & R & X & ->)]].
    + discriminate.
    + inversion X; subst. apply registered_entry in R as (k' & Wk' & En2).
      rewrite Wk in Wk'. inversion Wk'; subst k'.
      cbn [weak_key]. intros F. inversion F as [F'].
      destruct (W2 _ _ _ _ _ _ En2 En1 F') as [_ Y]. contradiction.
    + inversion X; subst.
      destruct (W1 _ _ _ En1) as (id & g0 & s & t & -> & _ & L).
      unfold new_wrapper. cbn. intros F. inversion F. lia.
Qed.

(** [CachedFunction(f, {ttl: 10})] twice, then with [{ttl: 100}] and with no
    configuration. *)
Lemma wrapper_identity_witness :
  let f := VFun (Plain 2) in
  let w1 := VFun (CacheLayer 1 (Plain 2) true (Some 10)) in
  let r := CachedFunction demo VUndefined f (VObj 10) initial in
  let r100 := CachedFunction demo VUndefined f (VObj 11) (snd r) in
  let r0 := CachedFunction demo VUndefined f VUndefined (snd r) in
  fst r = Returned w1 /\
  CachedFunction demo VUndefined f (VObj 10) (snd r) = (Returned w1, snd r) /\
  fst r100 = Returned (VFun (CacheLayer 2 (Plain 2) true (Some 100))) /\
  weak_key (VFun (CacheLayer 2 (Plain 2) true (Some 100))) <> weak_key w1 /\
  fst r0 = Returned (VFun (CacheLayer 2 (Plain 2) true None)) /\
  weak_key (VFun (CacheLayer 2 (Plain 2) true None)) <> weak_key w1.
Proof.
  intros f w1 r r100 r0.
  assert (r = (Returned w1, snd r)) as E by (vm_compute; reflexivity).
  assert (r100 = (Returned (VFun (CacheLayer 2 (Plain 2) true (Some 100))), snd r100)) as E100
    by (vm_compute; reflexivity).
  assert (r0 = (Returned (VFun (CacheLayer 2 (Plain 2) true None)), snd r0)) as E0
    by (vm_compute; reflexivity).
  pose proof (wrapper_identity demo initial f (VObj 10) (VObj 10) _ _ registry_wf_initial E)
    as (_ & _ & A & _).
  pose proof (wrapper_identity demo initial f (VObj 10) (VObj 11) _ _ registry_wf_initial E)
    as (_ & _ & _ & B).
  pose proof (wrapper_identity demo initial f (VObj 10) VUndefined _ _ registry_wf_initial E)
    as (_ & _ & _ & C).
  split; [rewrite E; reflexivity|].
  split; [exact (A ltac:(discriminate) eq_refl)|].
  split; [rewrite E100; reflexivity|].
  split; [exact (B ltac:(vm_compute; discriminate) _ _ E100)|].
  split; [rewrite E0; reflexivity|].
  exact (C ltac:(vm_compute; discriminate) _ _ E0).
Defined.

(** ** Validation *)






(** ** The error contract of clearCache *)

Section ClearContract.

Variable H : Host.

Lemma clearCache_direct o m third c ctx a now st :
  direct_target H o m third c ctx a ->
  clearCache H o m third now st = clear_entries H (VFun c) ctx (ArgsGiven a) st.
Proof.
  intros [c' a' third'|r name c' a' D].
  - reflexivity.
  - unfold clearCache, bind. rewrite (resolve_method H r name c' a' now st D). reflexivity.
Qed.

Lemma resolve_no_member r name third now st :
  getDescriptor H r name = None ->
  exists msg, resolve_target H (VObj r) (VStr name) third now st = (Thrown ReferenceError msg, st).
Proof.
  intros D. unfold resolve_target. cbn. unfold bind, assert, ret. cbn. rewrite D.
  eexists. reflexivity.
Qed.

Lemma resolve_no_getter r name third now st :
  getDescriptor H r name = Some (AccessorProp None) ->
  resolve_target H (VObj r) (VStr name) third now st
  = (Returned (VUndefined, KObj r, ArgsEmptyLiteral), st).
Proof.
  intros D. unfold resolve_target. cbn. unfold bind, assert, ret. cbn. rewrite D. reflexivity.
Qed.

Lemma resolve_data r name v third now st :
  getDescriptor H r name = Some (DataProp v) ->
  (forall c, v <> VFun c) ->
  resolve_target H (VObj r) (VStr name) third now st
  = (Returned (VUndefined, KObj r, ArgsEmptyLiteral), st).
Proof.
  intros D F. unfold resolve_target. cbn. unfold bind, assert, ret. cbn. rewrite D.
  destruct v; try reflexivity. exfalso. eapply F. reflexivity.
Qed.

Lemma clear_entries_not_cached cf ctx a st :
  cached st cf = None ->
  exists msg, clear_entries H cf ctx a st = (Thrown ReferenceError msg, st).
Proof.
  intros C. unfold clear_entries, bind, get_state. rewrite C. eexists. reflexivity.
Qed.

Lemma cached_function st c :
  cached st (VFun c) = (fun pc => (fn_key c, pc)) <$> cachedValues st !! fn_key c.
Proof. unfold cached. cbn [weak_key]. destruct (cachedValues st !! fn_key c); reflexivity. Qed.

Lemma clear_entries_bad_args c ctx a st :
  is_Some (cachedValues st !! fn_key c) ->
  maybe_array H a = false ->
  exists msg, clear_entries H (VFun c) ctx a st = (Thrown TypeError msg, st).
Proof.
  intros [pc X] A. unfold clear_entries, bind, get_state. rewrite cached_function, X.
  cbn [fmap option_fmap option_map]. unfold assert. rewrite A. eexists. reflexivity.
Qed.

Lemma clear_entries_no_context id f s t ctx a st :
  is_Some (cachedValues st !! KWrapper id) ->
  maybe_array H a = true ->
  store st id ctx = None ->
  clear_entries H (VFun (CacheLayer id f s t)) ctx a st = (Returned tt, st).
Proof.
  intros [pc X] A S. unfold clear_entries, bind, get_state. rewrite cached_function.
  cbn [fn_key]. rewrite X. cbn [fmap option_fmap option_map]. unfold assert. rewrite A.
  cbn [ret]. unfold store in S. rewrite X in S. rewrite S. reflexivity.
Qed.

Lemma clear_entries_null id f s t ctx st m :
  genuine H st (CacheLayer id f s t) ->
  store st id ctx = Some m ->
  exists msg, clear_entries H (VFun (CacheLayer id f s t)) ctx (ArgsGiven VNull) st
              = (Thrown TypeError msg, st).
Proof.
  intros ([pc X] & options & O & _) S. unfold clear_entries, bind, get_state.
  rewrite cached_function. cbn [fn_key]. rewrite X. cbn [fmap option_fmap option_map].
  cbn [assert maybe_array maybe assigned ret].
  unfold store in S. rewrite X in S. rewrite S, O. eexists. reflexivity.
Qed.

Lemma clear_entries_empty_literal id f s t ctx st :
  genuine H st (CacheLayer id f s t) ->
  clear_entries H (VFun (CacheLayer id f s t)) ctx ArgsEmptyLiteral st
  = (Returned tt, delete_entry id ctx [] st).
Proof.
  intros ([pc X] & options & O & S).
  unfold clear_entries, bind, get_state. rewrite cached_function. cbn [fn_key]. rewrite X.
  cbn [fmap option_fmap option_map assert maybe_array ret].
  unfold delete_entry, store. rewrite X.
  destruct (pc !! ctx) as [m|] eqn:P; [|reflexivity].
  rewrite O. unfold lift, array_from, modify.
  assert (forall sv, generateKey H [] sv = []) as K
    by (intros sv; unfold generateKey;
        destruct (truthy (default_to (VBool true) sv)); reflexivity).
  rewrite K. unfold put_store, set_cachedValues.
  rewrite (alter_alter_const _ _ _ _ _ _ X P). reflexivity.
Qed.

Lemma delete_entry_absent id ctx key st m :
  store st id ctx = Some m ->
  mk_get (_values m) key = None -> mk_get (_ttls m) key = None ->
  delete_entry id ctx key st = st.
Proof.
  intros S V T. unfold delete_entry. rewrite S, (ttl_delete_absent _ _ V T).
  apply put_store_id. exact S.
Qed.

Lemma delete_entry_twice id ctx key st :
  delete_entry id ctx key (delete_entry id ctx key st) = delete_entry id ctx key st.
Proof.
  destruct (store st id ctx) as [m|] eqn:S.
  - apply (delete_entry_absent id ctx key _ (ttl_delete m key)).
    + rewrite store_delete_entry_eq, S. reflexivity.
    + apply mk_get_delete_eq, keyEq_refl.
    + apply mk_get_delete_eq, keyEq_refl.
  - unfold delete_entry at 2. rewrite S. unfold delete_entry. rewrite S. reflexivity.
Qed.

Lemma genuine_delete_entry id f s t ctx key st :
  genuine H st (CacheLayer id f s t) ->
  genuine H (delete_entry id ctx key st) (CacheLayer id f s t).
Proof.
  intros (X & O). split.
  - apply cachedValues_delete_entry. assumption.
  - unfold delete_entry. destruct (store st id ctx); exact O.
Qed.

Lemma cachedValues_drop_store id ctx st k :
  is_Some (cachedValues (drop_store id ctx st) !! k) <-> is_Some (cachedValues st !! k).
Proof.
  unfold drop_store, set_cachedValues; simpl.
  destruct (decide (KWrapper id = k)) as [<-|N].
  - rewrite lookup_alter_eq. destruct (cachedValues st !! KWrapper id); simpl; split;
      intros [? ?]; eauto; discriminate.
  - rewrite lookup_alter_ne by assumption. reflexivity.
Qed.

(** Clearing through a function or a method is idempotent. *)
Lemma clear_entries_idempotent id f s t ctx a st st1 :
  genuine H st (CacheLayer id f s t) ->
  clear_entries H (VFun (CacheLayer id f s t)) ctx (ArgsGiven a) st = (Returned tt, st1) ->
  clear_entries H (VFun (CacheLayer id f s t)) ctx (ArgsGiven a) st1 = (Returned tt, st1).
Proof.
  intros G E. pose proof G as (X & _).
  destruct (maybe_array H (ArgsGiven a)) eqn:A.
  2:{ destruct (clear_entries_bad_args (CacheLayer id f s t) ctx _ st X A) as [msg Y].
      rewrite Y in E. discriminate. }
  destruct (store st id ctx) as [m|] eqn:S.
  2:{ rewrite (clear_entries_no_context _ _ _ _ _ _ _ X A S) in E. inversion E; subst.
      apply clear_entries_no_context; assumption. }
  destruct a; try (cbn in A; discriminate).
  - rewrite (clear_entries_all H _ _ _ _ _ _ X), S in E. inversion E; subst.
    apply clear_entries_no_context; auto.
    + apply cachedValues_drop_store. assumption.
    + apply store_drop_store_eq.
  - destruct (clear_entries_null _ _ _ _ _ _ _ G S) as [msg Y]. rewrite Y in E. discriminate.
  - cbn in A. destruct (elements H r) as [args|] eqn:El; [|discriminate].
    rewrite (clear_entries_array H _ _ _ _ _ _ _ _ G El) in E. inversion E; subst.
    rewrite (clear_entries_array H _ _ _ _ _ _ _ _ (genuine_delete_entry _ _ _ _ _ _ _ G) El).
    rewrite delete_entry_twice. reflexivity.
Qed.

End ClearContract.

(** Counterexample to C8 as stated.  On the demo host, where the member
    [data] of object [40] is the cached getter: an argument list that is
    supplied and is not a sequence raises nothing; clearing the getter while
    nothing is cached for it is not without effect, the read of the member
    runs the body of the getter; and [null] for argument list of the wrapper
    of [add], which holds no map yet, raises nothing.  On the host with
    object [60]: the exception of a getter that is not a wrapper is passed
    on, no [ReferenceError] is raised; and clearing through the accessor that
    answers the wrapper of [add] a key that is not cached changes the state,
    the two reads of the member run the accessor. *)
Lemma clear_contract_counterexample :
  (check_array demo (VStr "not a list") = false /\
   fst (clearCache demo (VObj 40) (VStr "data") (VStr "not a list") 0 demo_state) = Returned tt) /\
  (lookup_cache demo_state 2 (KObj 40) [] 0 = None /\
   calls demo_state = [] /\
   clearCache demo (VObj 40) (VStr "data") VUndefined 0 demo_state
   = (Returned tt,
      delete_entry 2 (KObj 40) []
        (snd (apply demo cachedData (VObj 40) [] 0 demo_state))) /\
   calls (snd (clearCache demo (VObj 40) (VStr "data") VUndefined 0 demo_state))
   = [mkCall 5 (VObj 40) []] /\
   snd (clearCache demo (VObj 40) (VStr "data") VUndefined 0 demo_state) <> demo_state) /\
  (check_array demo VNull = false /\
   is_Some (cachedValues demo_state !! fn_key cachedAdd) /\
   clearCache demo (VFun cachedAdd) VNull VUndefined 0 demo_state = (Returned tt, demo_state)) /\
  (getDescriptor clear_host 60 "boom" = Some (AccessorProp (Some (Plain 6))) /\
   cachedValues demo_state !! fn_key (Plain 6) = None /\
   fst (clearCache clear_host (VObj 60) (VStr "boom") VUndefined 0 demo_state)
   = Thrown Error "Callback failed") /\
  (Get clear_host (VObj 60) "fn" 0 demo_state
   = (Returned (VFun cachedAdd), record_call (mkCall 8 (VObj 60) []) demo_state) /\
   lookup_cache demo_state 1 (KObj 60) [num 5; num 5] 0 = None /\
   fst (clearCache clear_host (VObj 60) (VStr "fn") (VObj 21) 0 demo_state) = Returned tt /\
   calls (snd (clearCache clear_host (VObj 60) (VStr "fn") (VObj 21) 0 demo_state))
   = [mkCall 8 (VObj 60) []; mkCall 8 (VObj 60) []] /\
   snd (clearCache clear_host (VObj 60) (VStr "fn") (VObj 21) 0 demo_state) <> demo_state).
Proof.
  split; [split; vm_compute; reflexivity|].
  split.
  { split; [vm_compute; reflexivity|].
    split; [vm_compute; reflexivity|].
    split; [vm_compute; reflexivity|].
    split; [vm_compute; reflexivity|].
    intros E. apply (f_equal calls) in E. vm_compute in E. discriminate. }
  split.
  { split; [reflexivity|]. split; [vm_compute; eauto | vm_compute; reflexivity]. }
  split.
  { split; [reflexivity|]. split; vm_compute; reflexivity. }
  split; [vm_compute; reflexivity|].
  split; [vm_compute; reflexivity|].
  split; [vm_compute; reflexivity|].
  split; [vm_compute; reflexivity|].
  intros E. apply (f_equal calls) in E. vm_compute in E. discriminate.
Qed.

Section ClearForms.

Variable H : Host.

Lemma clearCache_callable o m third cf ctx a now st st' :
  callable_target H now st o m third cf ctx a st' ->
  clearCache H o m third now st = clear_entries H cf ctx (ArgsGiven a) st'.
Proof.
  intros [c a' third'|r name a' c0 st1 cf' st2 G1 G2].
  - reflexivity.
  - unfold clearCache, bind.
    rewrite (resolve_member H r name a' now st c0 st1 cf' st2 G1 G2). reflexivity.
Qed.

Lemma clearCache_member_throws r name third now st cls msg st1 :
  Get H (VObj r) name now st = (Thrown cls msg, st1) ->
  clearCache H (VObj r) (VStr name) third now st = (Thrown cls msg, st1).
Proof.
  intros G. unfold clearCache, bind.
  rewrite (resolve_member_throws H r name third now st cls msg st1 G). reflexivity.
Qed.

End ClearForms.

(** C8 (amended). The error contract of [clearCache].  It throws the
    [ReferenceError] when the named member does not exist, is a data property
    holding no function, is an accessor without getter, or is an accessor
    whose getter, read with a result that is not a function, is not a
    wrapper; an exception of the read of the member is passed on as it is.
    When the caller names a function, directly or as a member whose read is a
    function, it throws the [ReferenceError] when what it resolves was never
    wrapped; when it was wrapped, an argument list that is assigned (neither
    [undefined] nor [null]) and is not an array raises the [TypeError], and
    the argument list [null] raises it only when the wrapper holds a map for
    the context and nothing otherwise.  For a wrapper given directly or held
    by a data property of the object, clearing a context the wrapper holds no
    map for, or an argument list whose key the map does not hold, returns
    normally and leaves the whole state as it is; clearing twice leaves the
    state the first clearing left. *)
Theorem clear_contract (H : Host) :
  (forall r name third now st,
      getDescriptor H r name = None \/
      getDescriptor H r name = Some (AccessorProp None) \/
      (exists v, getDescriptor H r name = Some (DataProp v) /\ forall c, v <> VFun c) ->
      exists msg, clearCache H (VObj r) (VStr name) third now st = (Thrown ReferenceError msg, st)) /\
  (forall r name g third now st v st1,
      getDescriptor H r name = Some (AccessorProp (Some g)) ->
      apply H g (VObj r) [] now st = (Returned v, st1) ->
      (forall c, v <> VFun c) ->
      cachedValues st1 !! fn_key g = None ->
      exists msg, clearCache H (VObj r) (VStr name) third now st = (Thrown ReferenceError msg, st1)) /\
  (forall r name third now st cls msg st1,
      Get H (VObj r) name now st = (Thrown cls msg, st1) ->
      clearCache H (VObj r) (VStr name) third now st = (Thrown cls msg, st1)) /\
  (forall o m third cf ctx a now st st',
      callable_target H now st o m third cf ctx a st' ->
      (cached st' cf = None ->
         exists msg, clearCache H o m third now st = (Thrown ReferenceError msg, st')) /\
      (forall c, cf = VFun c -> is_Some (cachedValues st' !! fn_key c) ->
         assigned a = true -> check_array H a = false ->
         exists msg, clearCache H o m third now st = (Thrown TypeError msg, st')) /\
      (forall id f s t, cf = VFun (CacheLayer id f s t) -> genuine H st' (CacheLayer id f s t) ->
         a = VNull ->
         (store st' id ctx = None -> clearCache H o m third now st = (Returned tt, st')) /\
         (is_Some (store st' id ctx) ->
            exists msg, clearCache H o m third now st = (Thrown TypeError msg, st')))) /\
  (forall o m third c ctx a now st,
      direct_target H o m third c ctx a ->
      forall id f s t, c = CacheLayer id f s t -> genuine H st c ->
         (maybe (check_array H) a = true -> store st id ctx = None ->
            clearCache H o m third now st = (Returned tt, st)) /\
         (forall r args mp,
            a = VObj r -> elements H r = Some args -> store st id ctx = Some mp ->
            mk_get (_values mp) (generateKey H args (VBool s)) = None ->
            mk_get (_ttls mp) (generateKey H args (VBool s)) = None ->
            clearCache H o m third now st = (Returned tt, st)) /\
         (forall st1 now',
            clearCache H o m third now st = (Returned tt, st1) ->
            clearCache H o m third now' st1 = (Returned tt, st1))).
Proof.
  split; [|split; [|split; [|split]]].
  - intros r name third now st D. unfold clearCache, bind.
    destruct D as [D|[D|(v & D & F)]].
    + destruct (resolve_no_member H r name third now st D) as [msg X]. rewrite X.
      eexists. reflexivity.
    + rewrite (resolve_no_getter H r name third now st D). cbn [fst snd].
      apply clear_entries_not_cached. reflexivity.
    + rewrite (resolve_data H r name v third now st D F). cbn [fst snd].
      apply clear_entries_not_cached. reflexivity.
  - intros r name g third now st v st1 D E F C.
    unfold clearCache, bind.
    rewrite (resolve_getter H r name g third now st v st1 D E
               ltac:(destruct v; try reflexivity; exfalso; eapply F; reflexivity)).
    cbn [fst snd]. apply clear_entries_not_cached.
    rewrite cached_function, C. reflexivity.
  - intros r name third now st cls msg st1 G. apply clearCache_member_throws. exact G.
  - intros o m third cf ctx a now st st' T.
    rewrite (clearCache_callable H o m third cf ctx a now st st' T).
    split; [|split].
    + intros C. apply clear_entries_not_cached. exact C.
    + intros c -> X As A. apply clear_entries_bad_args; auto.
      unfold maybe_array, maybe. rewrite As. exact A.
    + intros id f s t -> G ->. pose proof G as (X & _). split.
      * intros S. apply clear_entries_no_context; auto.
      * intros [mp S]. exact (clear_entries_null H id f s t ctx st' mp G S).
  - intros o m third c ctx a now st T id f s t -> G.
    rewrite (clearCache_direct H o m third _ ctx a now st T).
    pose proof G as (X & _). split; [|split].
    + intros A S. apply clear_entries_no_context; assumption.
    + intros r args mp -> El S V Tt.
      rewrite (clear_entries_array H _ _ _ _ _ _ _ _ G El).
      rewrite (delete_entry_absent _ _ _ _ _ S V Tt). reflexivity.
    + intros st1 now' E.
      rewrite (clearCache_direct H o m third _ ctx a now' st1 T).
      exact (clear_entries_idempotent H id f s t ctx a st st1 G E).
Qed.

(** On the demo host: [clearCache] of a function that was never wrapped, of
    the wrapper of [add] with a string for argument list, of an argument list
    that is not cached, and of a member that does not exist.  On the host
    with object [60]: the wrapper of [add] read through the accessor [fn],
    with a string for argument list. *)
Lemma clear_contract_witness :
  (exists msg, clearCache demo (VFun (Plain 3)) VUndefined VUndefined 0 demo_state
               = (Thrown ReferenceError msg, demo_state)) /\
  (exists msg, clearCache demo (VFun cachedAdd) (VStr "2, 2") VUndefined 0 demo_state
               = (Thrown TypeError msg, demo_state)) /\
  clearCache demo (VFun cachedAdd) (VObj 20) VUndefined 0 demo_state = (Returned tt, demo_state) /\
  (exists msg, clearCache demo (VObj 40) (VStr "missing") VUndefined 0 demo_state
               = (Thrown ReferenceError msg, demo_state)) /\
  (exists msg st', clearCache clear_host (VObj 60) (VStr "fn") (VStr "2, 2") 0 demo_state
                   = (Thrown TypeError msg, st')).
Proof.
  destruct (clear_contract demo) as (A & _ & _ & B & C).
  destruct (B (VFun (Plain 3)) VUndefined VUndefined (VFun (Plain 3)) KNoThis VUndefined 0
              demo_state demo_state (callable_function demo _ _ _ _ _)) as (B1 & _).
  destruct (B (VFun cachedAdd) (VStr "2, 2") VUndefined (VFun cachedAdd) KNoThis (VStr "2, 2") 0
              demo_state demo_state (callable_function demo _ _ _ _ _)) as (_ & B2 & _).
  destruct (C (VFun cachedAdd) (VObj 20) VUndefined cachedAdd KNoThis (VObj 20) 0
              demo_state (target_function demo _ _ _) 1%positive (Plain 1) true None eq_refl)
    as (C1 & _).
  { split; [vm_compute; eauto|]. exists None. split; vm_compute; reflexivity. }
  destruct (clear_contract clear_host) as (_ & _ & _ & D & _).
  destruct (D (VObj 60) (VStr "fn") (VStr "2, 2") (VFun cachedAdd) (KObj 60) (VStr "2, 2") 0
              demo_state
              (record_call (mkCall 8 (VObj 60) []) (record_call (mkCall 8 (VObj 60) []) demo_state))
              (callable_member clear_host 0 demo_state 60 "fn" (VStr "2, 2") cachedAdd
                 (record_call (mkCall 8 (VObj 60) []) demo_state) (VFun cachedAdd) _
                 eq_refl eq_refl)) as (_ & D2 & _).
  split; [apply B1; vm_compute; reflexivity|].
  split; [apply (B2 cachedAdd); [reflexivity | vm_compute; eauto | reflexivity | reflexivity]|].
  split; [apply C1; vm_compute; reflexivity|].
  split; [apply A; left; reflexivity|].
  destruct (D2 cachedAdd eq_refl ltac:(vm_compute; eauto) eq_refl eq_refl) as [msg X].
  exists msg. eexists. exact X.
Defined.

(** ** Clearing a getter *)

Lemma apply_wrapper_store (H : Host) id f s t this ctx args now st v st1 :
  apply H (CacheLayer id f s t) this args now st = (Returned v, st1) ->
  context_of this = Some ctx ->
  is_Some (store st1 id ctx).
Proof.
  intros E C.
  destruct (apply_returns_registered H _ _ _ _ _ _ _ _ _ _ E) as [X _].
  rewrite (apply_CacheLayer H id f s t this args now st ctx X C) in E. cbv zeta in E.
  destruct (lookup_cache st id ctx (generateKey H args (VBool s)) now) as [u|] eqn:L.
  - inversion E; subst. unfold lookup_cache in L. destruct (store st1 id ctx); [eauto|discriminate].
  - destruct (apply H f this args now _) as [[u|cls msg] st2] eqn:E2; [|discriminate].
    inversion E; subst.
    destruct (store_after_getter H id f this ctx _ args now st _ st2 X C E2) as [S _].
    unfold fill. rewrite store_put_store_eq by assumption. eauto.
Qed.

Lemma genuine_apply (H : Host) g f this args now st o st1 :
  genuine H st g ->
  apply H f this args now st = (o, st1) ->
  genuine H st1 g.
Proof.
  intros G E. destruct g as [r|id g0 s t]; [exact G|].
  destruct G as (X & O).
  destruct (apply_only_context H _ _ _ _ _ _ _ E) as (_ & Eo & _ & D & _).
  split; [apply D; assumption | rewrite Eo; exact O].
Qed.

(** C10. Clearing a getter ignores the argument list.  When the member named
    to [clearCache] is an accessor whose read does not yield a function, the
    third argument plays no part: the call behaves the same for every third
    argument, and after the read of the member it clears with the literal
    empty argument list.  For a getter that is a wrapper of the engine, the
    call succeeds whatever the third argument (omitted, an array, or not even
    a sequence) and leaves the state the read left, minus the entry of the
    empty key in the map of that object: nothing is cached for the empty key,
    the other keys of that map, the map itself and every other map are
    kept. *)
Theorem getter_clear_ignores_arguments (H : Host) r name g third third' now st :
  getDescriptor H r name = Some (AccessorProp (Some g)) ->
  (forall c st1, apply H g (VObj r) [] now st <> (Returned (VFun c), st1)) ->
  clearCache H (VObj r) (VStr name) third now st
  = clearCache H (VObj r) (VStr name) third' now st /\
  (forall v st1,
      apply H g (VObj r) [] now st = (Returned v, st1) ->
      clearCache H (VObj r) (VStr name) third now st
      = clear_entries H (VFun g) (KObj r) ArgsEmptyLiteral st1) /\
  (forall id f s t v st1,
      g = CacheLayer id f s t ->
      genuine H st g ->
      apply H g (VObj r) [] now st = (Returned v, st1) ->
      clearCache H (VObj r) (VStr name) third now st
      = (Returned tt, delete_entry id (KObj r) [] st1) /\
      (forall now', lookup_cache (delete_entry id (KObj r) [] st1) id (KObj r) [] now' = None) /\
      (forall key' now', keyEq [] key' = false ->
         lookup_cache (delete_entry id (KObj r) [] st1) id (KObj r) key' now'
         = lookup_cache st1 id (KObj r) key' now') /\
      is_Some (store (delete_entry id (KObj r) [] st1) id (KObj r)) /\
      (forall id' ctx', (id', ctx') <> (id, KObj r) ->
         store (delete_entry id (KObj r) [] st1) id' ctx' = store st1 id' ctx')).
Proof.
  intros D NF.
  assert (forall a v st1,
             apply H g (VObj r) [] now st = (Returned v, st1) ->
             clearCache H (VObj r) (VStr name) a now st
             = clear_entries H (VFun g) (KObj r) ArgsEmptyLiteral st1) as R.
  { intros a v st1 E. unfold clearCache, bind.
    rewrite (resolve_getter H r name g a now st v st1 D E); [reflexivity|].
    destruct v; try reflexivity. exfalso. exact (NF _ _ E). }
  split; [|split].
  - destruct (apply H g (VObj r) [] now st) as [[v|cls msg] st1] eqn:E.
    + rewrite (R third v st1 eq_refl), (R third' v st1 eq_refl). reflexivity.
    + unfold clearCache, bind.
      rewrite !(resolve_getter_throws H r name g _ now st cls msg st1 D E). reflexivity.
  - intros v st1 E. apply (R third v st1 E).
  - intros id f s t v st1 -> G E.
    pose proof (genuine_apply H _ _ _ _ _ _ _ _ G E) as G1.
    split; [|split; [|split; [|split]]].
    + rewrite (R third v st1 E). apply clear_entries_empty_literal. exact G1.
    + intros now'. unfold lookup_cache. rewrite store_delete_entry_eq.
      destruct (store st1 id (KObj r)); simpl; auto.
      apply ttl_peek_delete_eq. reflexivity.
    + intros key' now' N. unfold lookup_cache. rewrite store_delete_entry_eq.
      destruct (store st1 id (KObj r)); simpl; auto.
      apply ttl_peek_delete_ne. assumption.
    + rewrite store_delete_entry_eq.
      destruct (apply_wrapper_store H _ _ _ _ _ (KObj r) _ _ _ _ _ E eq_refl) as [m S].
      rewrite S. simpl. eauto.
    + intros id' ctx' N. apply store_delete_entry_ne. congruence.
Qed.

(** The cached getter [data] of object [40] on the demo host, cleared with
    no third argument, with an array and with a string. *)
Lemma getter_clear_ignores_arguments_witness :
  let st1 := snd (apply demo cachedData (VObj 40) [] 0 demo_state) in
  clearCache demo (VObj 40) (VStr "data") VUndefined 0 demo_state
  = (Returned tt, delete_entry 2 (KObj 40) [] st1) /\
  clearCache demo (VObj 40) (VStr "data") (VObj 20) 0 demo_state
  = (Returned tt, delete_entry 2 (KObj 40) [] st1) /\
  clearCache demo (VObj 40) (VStr "data") (VStr "not a list") 0 demo_state
  = (Returned tt, delete_entry 2 (KObj 40) [] st1) /\
  lookup_cache (delete_entry 2 (KObj 40) [] st1) 2 (KObj 40) [] 1 = None.
Proof.
  intros st1.
  assert (getDescriptor demo 40 "data" = Some (AccessorProp (Some cachedData))) as D
    by reflexivity.
  assert (forall c s, apply demo cachedData (VObj 40) [] 0 demo_state <> (Returned (VFun c), s)) as NF
    by (intros c s E; vm_compute in E; discriminate).
  assert (genuine demo demo_state cachedData) as G.
  { split; [vm_compute; eauto|]. exists None. split; vm_compute; reflexivity. }
  assert (apply demo cachedData (VObj 40) [] 0 demo_state = (Returned (VStr "value"), st1)) as E
    by (vm_compute; reflexivity).
  destruct (getter_clear_ignores_arguments demo 40 "data" cachedData VUndefined VUndefined 0
              demo_state D NF) as (_ & _ & A).
  destruct (getter_clear_ignores_arguments demo 40 "data" cachedData (VObj 20) VUndefined 0
              demo_state D NF) as (_ & _ & B).
  destruct (getter_clear_ignores_arguments demo 40 "data" cachedData (VStr "not a list")
              VUndefined 0 demo_state D NF) as (_ & _ & C).
  destruct (A 2%positive (Plain 5) true None _ _ eq_refl G E) as (A1 & A2 & _).
  destruct (B 2%positive (Plain 5) true None _ _ eq_refl G E) as (B1 & _).
  destruct (C 2%positive (Plain 5) true None _ _ eq_refl G E) as (C1 & _).
  split; [exact A1 | split; [exact B1 | split; [exact C1 | apply A2]]].
Defined.

(** ** Wrappers of the engine *)

Section Genuine.

Variable H : Host.

Lemma genuine_with_wrapper g options st c :
  (forall id f s t, c = CacheLayer id f s t -> (id < next_id st)%positive) ->
  genuine H st c ->
  genuine H (with_wrapper H g options st) c.
Proof.
  intros L G. destruct c as [r|id f s t]; [exact G|].
  specialize (L id f s t eq_refl).
  destruct G as (X & O). unfold genuine, with_wrapper. cbn [cachedValues cachedFunctionOptions].
  assert (KWrapper (next_id st) <> KWrapper id) as N by (intros E; inversion E; lia).
  rewrite !lookup_insert_ne by assumption. auto.
Qed.

(** Every wrapper [CachedFunction] returns is a wrapper of the engine, and so
    are all the registered ones afterwards. *)
Lemma CachedFunction_genuine valueGetter options st w st' :
  registry_wf st -> wrappers_genuine H st ->
  CachedFunction H VUndefined valueGetter options st = (Returned w, st') ->
  wrappers_genuine H st' /\ exists c, w = VFun c /\ genuine H st' c.
Proof.
  intros [W1 _] WG E.
  destruct (CachedFunction_cases H _ _ _ _ _ E)
    as [[_ (cls & msg & X)]|[[-> (c & X & R)]|(g & -> & N & R & X & ->)]].
  - discriminate.
  - inversion X; subst. split; [exact WG|]. exists c. split; [reflexivity|].
    apply registered_entry in R as (k & _ & En). exact (WG _ _ _ En).
  - inversion X; subst. split.
    + intros k p c En. apply entry_with_wrapper in En as [(_ & _ & ->)|[_ En]].
      * apply new_wrapper_genuine.
      * apply genuine_with_wrapper; [|exact (WG _ _ _ En)].
        intros id f s t ->. destruct (W1 _ _ _ En) as (id' & g' & s' & t' & Eq & _ & L).
        inversion Eq; subst. exact L.
    + eexists. split; [reflexivity|]. apply new_wrapper_genuine.
Qed.

Lemma wrappers_genuine_initial : wrappers_genuine H initial.
Proof.
  intros k p c (bp & A & _).
  change (cachedFunctions initial) with (∅ : gmap WKey (gmap string Callable)) in A.
  rewrite lookup_empty in A. discriminate.
Qed.

End Genuine.

(** ** The tests of the repository, run on the demo host *)

(** "should cache the function's value": the callback runs once. *)
Example test_caches_value :
  let r0 := CachedFunction demo VUndefined (VFun (Plain 2)) VUndefined initial in
  let w := CacheLayer 1 (Plain 2) true None in
  let r1 := apply demo w VGlobal [] 0 (snd r0) in
  let r2 := apply demo w VGlobal [] 1 (snd r1) in
  fst r0 = Returned (VFun w) /\
  fst r1 = Returned (VStr "value") /\ fst r2 = Returned (VStr "value") /\
  calls (snd r2) = [mkCall 2 VGlobal []].
Proof. vm_compute. auto. Qed.

(** "should cache the cached function" and "should create different caches
    for different TTL arguments". *)
Example test_caches_wrapper :
  let r0 := CachedFunction demo VUndefined (VFun (Plain 4)) VUndefined initial in
  let r1 := CachedFunction demo VUndefined (VFun (Plain 4)) VUndefined (snd r0) in
  let r2 := CachedFunction demo VUndefined (VFun (Plain 4)) (VObj 11) (snd r1) in
  fst r0 = fst r1 /\ snd r0 = snd r1 /\
  fst r2 = Returned (VFun (CacheLayer 2 (Plain 4) true (Some 100))) /\ fst r2 <> fst r0.
Proof. vm_compute. repeat split; discriminate. Qed.

(** "should throw an error if given a non-function", "... if TTL argument is
    not a positive number" and "... when called with new". *)
Example test_throws :
  fst (CachedFunction demo VUndefined (VStr "this is not a function") VUndefined initial)
    = Thrown TypeError "valueGetter must be a function" /\
  fst (CachedFunction demo VUndefined (VFun (Plain 4)) (VObj 14) initial)
    = Thrown RangeError "ttl must be a positive integer" /\
  fst (CachedFunction demo (VObj 90) (VFun (Plain 4)) VUndefined initial)
    = Thrown SyntaxError "Do not call CachedFunction with `new`. Call it directly.".
Proof. vm_compute. auto. Qed.

(** "should support strictArgMatch argument": the strict wrapper computes
    again for a second array [['test']], the loose one answers from the
    cache. *)
Example test_strictArgMatch :
  let s0 := snd (CachedFunction demo VUndefined (VFun (Plain 3)) (VObj 12) initial) in
  let loose := CacheLayer 1 (Plain 3) false None in
  let s1 := snd (CachedFunction demo VUndefined (VFun (Plain 3)) VUndefined s0) in
  let strict := CacheLayer 2 (Plain 3) true None in
  let l1 := apply demo loose VGlobal [VObj 30] 0 s1 in
  let l2 := apply demo loose VGlobal [VObj 31] 0 (snd l1) in
  let t1 := apply demo strict VGlobal [VObj 30] 0 (snd l2) in
  let t2 := apply demo strict VGlobal [VObj 31] 0 (snd t1) in
  fst l1 = Returned (VObj 30) /\ fst l2 = Returned (VObj 30) /\
  fst t1 = Returned (VObj 30) /\ fst t2 = Returned (VObj 31).
Proof. vm_compute. auto. Qed.

(** "should support TTL argument": with [{ttl: 10}] the callback runs again
    after twenty milliseconds. *)
Example test_ttl :
  let s0 := snd (CachedFunction demo VUndefined (VFun (Plain 1)) (VObj 10) initial) in
  let w := CacheLayer 1 (Plain 1) true (Some 10) in
  let r1 := apply demo w VGlobal [num 2; num 2] 0 s0 in
  let r2 := apply demo w VGlobal [num 2; num 2] 0 (snd r1) in
  let r3 := apply demo w VGlobal [num 2; num 2] 20 (snd r2) in
  fst r1 = Returned (num 4) /\ fst r2 = Returned (num 4) /\ fst r3 = Returned (num 4) /\
  length (calls (snd r2)) = 1%nat /\ length (calls (snd r3)) = 2%nat.
Proof. vm_compute. auto. Qed.

(** "should clear a function cache", "... for given arguments", "should clear
    a method cache" and "should clear a getter cache": after each clearing
    the body runs once more. *)
Example test_clearCache :
  let r1 := apply demo cachedAdd VGlobal [num 2; num 2] 0 demo_state in
  let c1 := clearCache demo (VFun cachedAdd) VUndefined VUndefined 0 (snd r1) in
  let r2 := apply demo cachedAdd VGlobal [num 2; num 2] 0 (snd c1) in
  let c2 := clearCache demo (VFun cachedAdd) (VObj 20) VUndefined 0 (snd r2) in
  let r3 := apply demo cachedAdd VGlobal [num 2; num 2] 0 (snd c2) in
  let r4 := apply demo cachedAdd (VObj 40) [num 2; num 2] 0 (snd r3) in
  let c3 := clearCache demo (VObj 40) (VStr "m") (VObj 20) 0 (snd r4) in
  let r5 := apply demo cachedAdd (VObj 40) [num 2; num 2] 0 (snd c3) in
  let g1 := Get demo (VObj 40) "data" 0 (snd r5) in
  let c4 := clearCache demo (VObj 40) (VStr "data") VUndefined 0 (snd g1) in
  let g2 := Get demo (VObj 40) "data" 0 (snd c4) in
  fst c1 = Returned tt /\ fst c2 = Returned tt /\ fst c3 = Returned tt /\ fst c4 = Returned tt /\
  length (calls (snd r1)) = 1%nat /\ length (calls (snd r2)) = 2%nat /\
  length (calls (snd r3)) = 3%nat /\ length (calls (snd r4)) = 4%nat /\
  length (calls (snd r5)) = 5%nat /\ length (calls (snd g1)) = 6%nat /\
  length (calls (snd c4)) = 6%nat /\ length (calls (snd g2)) = 7%nat /\
  fst g2 = Returned (VStr "value").
Proof. vm_compute. repeat split. Qed.

(** ** What the operations keep *)

Lemma is_Some_alter_lookup {A} (g : A -> A) (k0 k : WKey) (m : gmap WKey A) :
  is_Some (alter g k0 m !! k) <-> is_Some (m !! k).
Proof.
  destruct (decide (k0 = k)) as [->|N].
  - rewrite lookup_alter_eq. destruct (m !! k); simpl; split; intros [? ?]; eauto; discriminate.
  - rewrite lookup_alter_ne by assumption. reflexivity.
Qed.

Lemma clear_entries_tables (H : Host) cf context args st out st' :
  clear_entries H cf context args st = (out, st') ->
  forall k, is_Some (cachedValues st' !! k) <-> is_Some (cachedValues st !! k).
Proof.
  unfold clear_entries, bind, get_state.
  destruct (cached st cf) as [[k0 pc]|].
  2:{ cbn. intros E; inversion E; subst. reflexivity. }
  unfold assert. destruct (maybe_array H args).
  2:{ cbn. intros E; inversion E; subst. reflexivity. }
  cbn [ret]. destruct (pc !! context).
  2:{ cbn. intros E; inversion E; subst. reflexivity. }
  assert (forall a,
    (match cachedFunctionOptions st !! k0 with
     | None => throw TypeError "Cannot read properties of undefined"
     | Some options =>
         bind (lift (array_from H a))
           (fun elems =>
              modify (set_cachedValues
                (alter (alter (fun m => ttl_delete m
                   (generateKey H elems
                      (match options with
                       | Some o => data_get H o "strictArgMatch"
                       | None => VUndefined
                       end))) context) k0)))
     end) st = (out, st') ->
    forall k, is_Some (cachedValues st' !! k) <-> is_Some (cachedValues st !! k)) as K.
  { intros a. destruct (cachedFunctionOptions st !! k0) as [options|].
    2:{ cbn. intros E; inversion E; subst. reflexivity. }
    unfold bind, lift. destruct (array_from H a) as [elems|cls msg].
    - cbn. intros E; inversion E; subst. intros k. apply is_Some_alter_lookup.
    - intros E; inversion E; subst. reflexivity. }
  destruct args as [v|]; [|apply K].
  destruct v; try apply K.
  cbn. intros E; inversion E; subst. intros k. apply is_Some_alter_lookup.
Qed.

(** [clearCache] leaves the registry, the options and the identities alone,
    and keeps the per-context table of every wrapper. *)
Lemma clearCache_tables (H : Host) o methodName args now st out st' :
  clearCache H o methodName args now st = (out, st') ->
  cachedFunctions st' = cachedFunctions st /\
  cachedFunctionOptions st' = cachedFunctionOptions st /\
  next_id st' = next_id st /\
  (forall k, is_Some (cachedValues st' !! k) <-> is_Some (cachedValues st !! k)).
Proof.
  unfold clearCache, bind.
  destruct (resolve_target H o methodName args now st) as [[[[cf ctx] a]|cls msg] st1] eqn:R;
    destruct (resolve_target_footprint H _ _ _ _ _ _ _ R) as [(A & B & C & D & _) _].
  - intros E. destruct (clear_entries_footprint H _ _ _ _ _ _ E) as (A' & B' & C' & _).
    pose proof (clear_entries_tables H _ _ _ _ _ _ E) as D'.
    repeat split; try congruence.
    + intros X. apply D, D', X.
    + intros X. apply D', D, X.
  - intros E. inversion E; subst. auto.
Qed.

Lemma CachedFunction_receiver (H : Host) this valueGetter options st o st' :
  this <> VUndefined ->
  CachedFunction H this valueGetter options st = (o, st') ->
  st' = st /\ exists cls msg, o = Thrown cls msg.
Proof.
  intros T E.
  assert (options = VNull \/ options <> VNull) as [->|N]
    by (destruct options; (left; reflexivity) || (right; discriminate)).
  - destruct (CachedFunction_null H this valueGetter st) as [msg X].
    rewrite X in E. inversion E; subst. eauto.
  - destruct (CachedFunction_new H this valueGetter options st T N) as [msg X].
    rewrite X in E. inversion E; subst. eauto.
Qed.

Lemma registry_entry_tables st st' k p c :
  cachedFunctions st' = cachedFunctions st ->
  registry_entry st' k p c <-> registry_entry st k p c.
Proof. intros E. unfold registry_entry. rewrite E. reflexivity. Qed.

Lemma engine_inv_tables (H : Host) st st' :
  cachedFunctions st' = cachedFunctions st ->
  cachedFunctionOptions st' = cachedFunctionOptions st ->
  next_id st' = next_id st ->
  (forall k, is_Some (cachedValues st' !! k) <-> is_Some (cachedValues st !! k)) ->
  engine_inv H st -> engine_inv H st'.
Proof.
  intros A B C D ([W1 W2] & G & (M1 & M2 & M3)).
  split; [split|split; [|split; [|split]]].
  - intros k p c En. apply (registry_entry_tables st st' _ _ _ A) in En.
    rewrite C. exact (W1 _ _ _ En).
  - intros k k' p p' c c' En En'.
    apply (registry_entry_tables st st' _ _ _ A) in En.
    apply (registry_entry_tables st st' _ _ _ A) in En'. eauto.
  - intros k p c En. apply (registry_entry_tables st st' _ _ _ A) in En.
    specialize (G _ _ _ En). destruct c as [r|id f s t]; [exact G|].
    destruct G as (X & O). split; [apply D; exact X | rewrite B; exact O].
  - intros k. rewrite D, C. apply M1.
  - intros k. rewrite B, C. apply M2.
  - intros id L. rewrite C in L. destruct (M3 id L) as (k & p & c & En & F).
    exists k, p, c. split; [|exact F]. apply (registry_entry_tables st st' _ _ _ A). exact En.
Qed.

Lemma engine_inv_with_wrapper (H : Host) g options st :
  registered st (VFun g) (paramsKey H options) = None ->
  engine_inv H st -> engine_inv H (with_wrapper H g options st).
Proof.
  intros R (W & G & (M1 & M2 & M3)). pose proof W as [W1 _].
  split; [|split; [|split; [|split]]].
  - apply registry_wf_with_wrapper; assumption.
  - intros k p c En. apply entry_with_wrapper in En as [(_ & _ & ->)|[_ En]].
    + apply new_wrapper_genuine.
    + apply genuine_with_wrapper; [|exact (G _ _ _ En)].
      intros id f s t ->. destruct (W1 _ _ _ En) as (id' & g' & s' & t' & Eq & _ & L).
      inversion Eq; subst. exact L.
  - intros k. unfold with_wrapper. cbn [cachedValues next_id].
    destruct (decide (k = KWrapper (next_id st))) as [->|N].
    + rewrite lookup_insert_eq. split; [|eauto]. intros _. eexists. split; [reflexivity|lia].
    + rewrite lookup_insert_ne by congruence. rewrite M1. split.
      * intros (id & -> & L). exists id. split; [reflexivity|lia].
      * intros (id & -> & L). exists id. split; [reflexivity|].
        assert (id <> next_id st) by congruence. lia.
  - intros k. unfold with_wrapper. cbn [cachedFunctionOptions next_id].
    destruct (decide (k = KWrapper (next_id st))) as [->|N].
    + rewrite lookup_insert_eq. split; [|eauto]. intros _. eexists. split; [reflexivity|lia].
    + rewrite lookup_insert_ne by congruence. rewrite M2. split.
      * intros (id & -> & L). exists id. split; [reflexivity|lia].
      * intros (id & -> & L). exists id. split; [reflexivity|].
        assert (id <> next_id st) by congruence. lia.
  - intros id L. cbn [with_wrapper next_id] in L.
    destruct (decide (id = next_id st)) as [->|N].
    + exists (fn_key g), (paramsKey H options), (new_wrapper H g options st).
      split; [apply entry_with_wrapper; left; auto | reflexivity].
    + destruct (M3 id ltac:(lia)) as (k & p & c & En & F).
      exists k, p, c. split; [|exact F]. apply entry_with_wrapper. right. split; [|exact En].
      intros [-> ->].
      assert (registered st (VFun g) (paramsKey H options) = Some c) as R'
        by (apply registered_entry; exists (fn_key g); split; [reflexivity | exact En]).
      rewrite R in R'. discriminate.
Qed.

Lemma engine_inv_initial (H : Host) : engine_inv H initial.
Proof.
  split; [apply registry_wf_initial|]. split; [apply wrappers_genuine_initial|].
  split; [|split].
  - intros k. change (cachedValues initial) with (∅ : gmap WKey (gmap WKey TTLMap)).
    rewrite lookup_empty. split; [intros [? ?]; discriminate|].
    intros (id & _ & L). cbn in L. lia.
  - intros k. change (cachedFunctionOptions initial) with (∅ : gmap WKey (option Value)).
    rewrite lookup_empty. split; [intros [? ?]; discriminate|].
    intros (id & _ & L). cbn in L. lia.
  - intros id L. cbn in L. lia.
Qed.

Lemma engine_inv_step (H : Host) st st' : engine_inv H st -> step H st st' -> engine_inv H st'.
Proof.
  intros I [this vg options o E|f this args now o E|obj m a now o E].
  - assert (this = VUndefined \/ this <> VUndefined) as [->|T]
      by (destruct this; (left; reflexivity) || (right; discriminate)).
    + destruct (CachedFunction_cases H _ _ _ _ _ E)
        as [[-> _]|[[-> _]|(g & -> & N & R & _ & ->)]]; auto.
      apply engine_inv_with_wrapper; assumption.
    + destruct (CachedFunction_receiver H _ _ _ _ _ _ T E) as [-> _]. exact I.
  - destruct (apply_only_context H _ _ _ _ _ _ _ E) as (A & B & C & D & _).
    exact (engine_inv_tables H st st' A B C D I).
  - destruct (clearCache_tables H _ _ _ _ _ _ _ E) as (A & B & C & D).
    exact (engine_inv_tables H st st' A B C D I).
Qed.

(** X1. The engine keeps its three module-level maps consistent.  In every
    state reached from the initial one by any sequence of [CachedFunction],
    wrapper or host function calls and [clearCache], with any arguments and
    whether they return or throw: the registry holds [CacheLayer] closures
    only, each under the identity of its own [valueGetter] and no identity
    twice; every registered wrapper has its per-context table and the options
    it was created with, which agree with the matching mode it captured; and
    the identities handed out are exactly the keys of [cachedValues] and of
    [cachedFunctionOptions], each of them registered. *)
Theorem reachable_engine_inv (H : Host) st : reachable H st -> engine_inv H st.
Proof.
  induction 1 as [|st st' R IH S].
  - apply engine_inv_initial.
  - exact (engine_inv_step H st st' IH S).
Qed.

(** The demo state is reached by two calls of [CachedFunction]. *)
Lemma reachable_engine_inv_witness : reachable demo demo_state /\ engine_inv demo demo_state.
Proof.
  assert (reachable demo demo_state) as R.
  { unfold demo_state.
    eapply reachable_step;
      [eapply reachable_step; [apply reachable_initial|]|];
      eapply step_CachedFunction; apply surjective_pairing. }
  split; [exact R | exact (reachable_engine_inv demo demo_state R)].
Defined.

(** ** Construction *)

(** X2. A construction that fails changes nothing, one that succeeds
    registers what it returns.  For every receiver, callable and
    configuration: when [CachedFunction] throws, the state is the one before
    the call (nothing registered, no identity used); when it returns, the call
    was a direct one and the value is a [CacheLayer] closure, the one now
    registered under the callable and the serialized configuration. *)
Theorem construction_outcomes (H : Host) this valueGetter options st :
  match CachedFunction H this valueGetter options st with
  | (Thrown _ _, st') => st' = st
  | (Returned w, st') =>
      this = VUndefined /\
      exists c, w = VFun c /\ registered st' valueGetter (paramsKey H options) = Some c /\
                (st' = st \/ exists g, valueGetter = VFun g /\ st' = with_wrapper H g options st)
  end.
Proof.
  destruct (CachedFunction H this valueGetter options st) as [[w|cls msg] st'] eqn:E.
  - assert (this = VUndefined \/ this <> VUndefined) as [->|T]
      by (destruct this; (left; reflexivity) || (right; discriminate)).
    2:{ destruct (CachedFunction_receiver H _ _ _ _ _ _ T E) as [_ (c & m & X)]. discriminate. }
    split; [reflexivity|].
    destruct (CachedFunction_cases H _ _ _ _ _ E)
      as [[_ (cls & msg & X)]|[[-> (c & X & R)]|(g & -> & N & R & X & ->)]].
    + discriminate.
    + inversion X; subst. exists c. auto.
    + inversion X; subst. eexists. split; [reflexivity|]. split.
      * apply registered_entry. exists (fn_key g). split; [reflexivity|].
        apply entry_with_wrapper. left. auto.
      * right. eauto.
  - assert (this = VUndefined \/ this <> VUndefined) as [->|T]
      by (destruct this; (left; reflexivity) || (right; discriminate)).
    2:{ destruct (CachedFunction_receiver H _ _ _ _ _ _ T E) as [-> _]. reflexivity. }
    destruct (CachedFunction_cases H _ _ _ _ _ E)
      as [[-> _]|[[_ (c & X & _)]|(g & _ & _ & _ & X & _)]]; [reflexivity | discriminate..].
Qed.



(** X4. Registrations survive calls and clears.  Neither a call of any
    function value nor [clearCache] with any arguments, returning or
    throwing, changes what is registered: afterwards [CachedFunction] on a
    callable and a configuration (other than [null]) that had a wrapper still
    returns that very wrapper, and changes nothing. *)
Theorem registrations_survive (H : Host) st st' :
  (exists f this args now o, apply H f this args now st = (o, st')) \/
  (exists objectOrFunction methodName args now o,
      clearCache H objectOrFunction methodName args now st = (o, st')) ->
  (forall valueGetter key, registered st' valueGetter key = registered st valueGetter key) /\
  (forall valueGetter options c,
      options <> VNull ->
      registered st valueGetter (paramsKey H options) = Some c ->
      CachedFunction H VUndefined valueGetter options st' = (Returned (VFun c), st')).
Proof.
  intros S.
  assert (cachedFunctions st' = cachedFunctions st) as A.
  { destruct S as [(f & this & args & now & o & E)|(obj & m & a & now & o & E)].
    - destruct (apply_only_context H _ _ _ _ _ _ _ E) as (A & _). exact A.
    - destruct (clearCache_tables H _ _ _ _ _ _ _ E) as (A & _). exact A. }
  assert (forall valueGetter key, registered st' valueGetter key = registered st valueGetter key) as R
    by (intros vg key; unfold registered; rewrite A; reflexivity).
  split; [exact R|].
  intros vg options c N X. apply CachedFunction_registered; [assumption|].
  rewrite R. exact X.
Qed.

(** After [add(2, 2)] and [clearCache(add)], [CachedFunction(add)] still
    answers the wrapper of identity [1]. *)
Lemma registrations_survive_witness :
  let st1 := snd (apply demo cachedAdd VGlobal [num 2; num 2] 0 demo_state) in
  let st2 := snd (clearCache demo (VFun cachedAdd) VUndefined VUndefined 1 st1) in
  CachedFunction demo VUndefined (VFun (Plain 1)) VUndefined st2 = (Returned (VFun cachedAdd), st2).
Proof.
  intros st1 st2.
  destruct (registrations_survive demo st1 st2) as [_ B].
  - right. exists (VFun cachedAdd), VUndefined, VUndefined, 1, (Returned tt).
    vm_compute. reflexivity.
  - apply B; [discriminate|].
    destruct (registrations_survive demo demo_state st1) as [A _].
    + left. exists cachedAdd, VGlobal, [num 2; num 2], 0, (Returned (num 4)).
      vm_compute. reflexivity.
    + rewrite A. vm_compute. reflexivity.
Defined.

(** ** The first argument of clearCache *)

(** X5. [clearCache] validates what it is given before it touches anything.
    A first argument that is neither an object nor a function, an object
    given without a string for member name, and [null], each raise a
    [TypeError] and leave the state as it is. *)
Theorem clearCache_validates_target (H : Host) methodName args now st :
  (forall o, String.eqb (typeof o) "object" = false -> check_function o = false ->
     exists msg, clearCache H o methodName args now st = (Thrown TypeError msg, st)) /\
  (forall o, String.eqb (typeof o) "object" = true -> check_string methodName = false ->
     exists msg, clearCache H o methodName args now st = (Thrown TypeError msg, st)) /\
  (exists msg, clearCache H VNull methodName args now st = (Thrown TypeError msg, st)).
Proof.
  split; [|split].
  - intros o T F. unfold clearCache, bind, resolve_target. rewrite T.
    unfold bind, assert. rewrite F. eexists. reflexivity.
  - intros o T S. unfold clearCache, bind, resolve_target. rewrite T.
    unfold bind, assert. rewrite S. eexists. reflexivity.
  - unfold clearCache, bind, resolve_target. cbn [typeof String.eqb Ascii.eqb Bool.eqb].
    cbn -[check_string]. unfold bind, assert.
    destruct (check_string methodName); eexists; reflexivity.
Qed.

(** A number for target, and an object with a number for member name. *)
Lemma clearCache_validates_target_witness :
  (exists msg, clearCache demo (num 7) VUndefined VUndefined 0 demo_state
               = (Thrown TypeError msg, demo_state)) /\
  (exists msg, clearCache demo (VObj 40) (num 7) VUndefined 0 demo_state
               = (Thrown TypeError msg, demo_state)).
Proof.
  split.
  - destruct (clearCache_validates_target demo VUndefined VUndefined 0 demo_state) as (A & _).
    apply A; reflexivity.
  - destruct (clearCache_validates_target demo (num 7) VUndefined 0 demo_state) as (_ & B & _).
    apply B; reflexivity.
Defined.

(** ** Keys *)

Lemma keyEq_length k1 k2 : keyEq k1 k2 = true -> length k1 = length k2.
Proof.
  revert k2. induction k1 as [|a k1 IH]; intros [|b k2]; simpl; try discriminate; auto.
  intros E. apply andb_true_iff in E as [_ E]. f_equal. apply IH. exact E.
Qed.

Lemma length_generateKey (H : Host) args sv : length (generateKey H args sv) = length args.
Proof.
  unfold generateKey. destruct (truthy (default_to (VBool true) sv)); [reflexivity|].
  apply length_map.
Qed.

(** X6. Calls with different numbers of arguments never share a cache entry.
    In either matching mode the key has one part per argument, so the keys of
    two argument lists of different lengths are different keys: storing a
    value for one leaves what is cached for the other as it was, and clearing
    one leaves the other. *)
Theorem arity_separates_entries (H : Host) a1 a2 strictArgMatch :
  length a1 <> length a2 ->
  let k1 := generateKey H a1 strictArgMatch in
  let k2 := generateKey H a2 strictArgMatch in
  keyEq k1 k2 = false /\
  (forall id ctx now now' v ttl st,
      lookup_cache (fill id ctx k1 now v ttl st) id ctx k2 now' = lookup_cache st id ctx k2 now') /\
  (forall id ctx now' st,
      lookup_cache (delete_entry id ctx k1 st) id ctx k2 now' = lookup_cache st id ctx k2 now').
Proof.
  intros N k1 k2.
  assert (keyEq k1 k2 = false) as K.
  { destruct (keyEq k1 k2) eqn:E; auto. apply keyEq_length in E.
    subst k1 k2. rewrite !length_generateKey in E. contradiction. }
  split; [exact K|]. split.
  - intros. apply lookup_cache_fill_ne. exact K.
  - intros. unfold lookup_cache. rewrite store_delete_entry_eq.
    destruct (store st id ctx); simpl; auto. apply ttl_peek_delete_ne. exact K.
Qed.

(** [add(2)] and [add(2, undefined)] are two entries. *)
Lemma arity_separates_entries_witness :
  keyEq (generateKey demo [num 2] VUndefined) (generateKey demo [num 2; VUndefined] VUndefined)
  = false.
Proof.
  destruct (arity_separates_entries demo [num 2] [num 2; VUndefined] VUndefined) as [A _].
  - simpl. lia.
  - exact A.
Defined.

(** ** A failing body *)

Lemma ttl_peek_purge_none now now' m k :
  ttl_peek now m k = None -> ttl_peek now' (ttl_purge now m k) k = None.
Proof.
  unfold ttl_purge. destruct (ttl_expired now m k) eqn:E.
  - intros _. apply ttl_peek_delete_eq, keyEq_refl.
  - unfold ttl_peek at 1. rewrite E. intros G. unfold ttl_peek. rewrite G.
    destruct (ttl_expired now' m k); reflexivity.
Qed.

(** X7. An exception is never cached.  When a call finds nothing cached and
    the body of [valueGetter] throws, the wrapper throws the same exception,
    stores nothing for the key (nothing is cached for it at any later time),
    and the next call with the same arguments runs [valueGetter] again. *)
Theorem exception_is_not_cached (H : Host) id f strict ttl this ctx args now st cls msg st' :
  let w := CacheLayer id f strict ttl in
  let key := generateKey H args (VBool strict) in
  ~ In id (wrapper_ids f) ->
  is_Some (cachedValues st !! KWrapper id) ->
  context_of this = Some ctx ->
  lookup_cache st id ctx key now = None ->
  apply H f this args now (miss_state id ctx key now st) = (Thrown cls msg, st') ->
  apply H w this args now st = (Thrown cls msg, st') /\
  (forall now', lookup_cache st' id ctx key now' = None) /\
  (forall now',
      apply H w this args now' st' =
      match apply H f this args now' (miss_state id ctx key now' st') with
      | (Returned v, s) => (Returned v, fill id ctx key now' v ttl s)
      | (Thrown cls' msg', s) => (Thrown cls' msg', s)
      end).
Proof.
  intros w key N X C L E.
  assert (forall now', lookup_cache st' id ctx key now' = None) as L'.
  { intros now'. unfold lookup_cache.
    rewrite (apply_frame_id H _ _ _ _ _ _ _ id N E ctx).
    rewrite store_miss_state by assumption.
    apply ttl_peek_purge_none. unfold lookup_cache in L.
    destruct (store st id ctx); [exact L | reflexivity]. }
  split; [|split; [exact L'|]].
  - subst w. rewrite (apply_CacheLayer H id f strict ttl this args now st ctx X C).
    cbv zeta. fold key. rewrite L, E. reflexivity.
  - intros now'. subst w.
    destruct (store_after_getter H id f this ctx key args now st _ st' X C E) as [_ X'].
    rewrite (apply_CacheLayer H id f strict ttl this args now' st' ctx X' C).
    cbv zeta. fold key. rewrite L'. reflexivity.
Qed.

(** The demo function [6] always throws; its wrapper has identity [3]. *)
Lemma exception_is_not_cached_witness :
  let st := snd (CachedFunction demo VUndefined (VFun (Plain 6)) VUndefined demo_state) in
  let w := CacheLayer 3 (Plain 6) true None in
  let st' := record_call (mkCall 6 VGlobal []) (miss_state 3 KNoThis [] 0 st) in
  apply demo w VGlobal [] 0 st = (Thrown Error "Callback failed", st') /\
  lookup_cache st' 3 KNoThis [] 1 = None /\
  length (calls (snd (apply demo w VGlobal [] 1 st'))) = 2%nat.
Proof.
  intros st w st'.
  destruct (exception_is_not_cached demo 3 (Plain 6) true None VGlobal KNoThis [] 0 st
              Error "Callback failed" st') as (A & B & _).
  - simpl. tauto.
  - vm_compute. eauto.
  - reflexivity.
  - vm_compute. reflexivity.
  - vm_compute. reflexivity.
  - split; [exact A|]. split; [apply B|]. vm_compute. reflexivity.
Defined.

(** ** Clearing what a wrapper cached *)

(** X8. [clearCache] looks for the entry under the key a call would use.  For
    every wrapper [CachedFunction] returns from a consistent state, the
    matching mode [clearCache] reads back from the stored options generates
    the same keys as the mode the wrapper captured.  So after a call of the
    wrapper with arguments [a], [clearCache(w, b)] succeeds for every array
    [b] whose key matches that of [a] (the same primitives and object
    identities under strict matching, the same serializations under loose
    matching) and nothing is cached for [a] afterwards. *)
Theorem clear_matches_like_calls (H : Host) st valueGetter options id g s t st0 :
  let w := CacheLayer id g s t in
  engine_inv H st ->
  CachedFunction H VUndefined valueGetter options st = (Returned (VFun w), st0) ->
  (exists stored,
      cachedFunctionOptions st0 !! KWrapper id = Some stored /\
      forall args,
        generateKey H args (match stored with
                            | Some o => data_get H o "strictArgMatch"
                            | None => VUndefined
                            end)
        = generateKey H args (VBool s)) /\
  (forall a b r third now now' o1 st1,
      apply H w VGlobal a now st0 = (o1, st1) ->
      elements H r = Some b ->
      keyEq (generateKey H b (VBool s)) (generateKey H a (VBool s)) = true ->
      clearCache H (VFun w) (VObj r) third now' st1
      = (Returned tt, delete_entry id KNoThis (generateKey H b (VBool s)) st1) /\
      forall now'',
        lookup_cache (delete_entry id KNoThis (generateKey H b (VBool s)) st1)
                     id KNoThis (generateKey H a (VBool s)) now'' = None).
Proof.
  intros w (W & G & _) E.
  destruct (CachedFunction_genuine H _ _ _ _ _ W G E) as (_ & c & Ec & Gw).
  inversion Ec; subst c. pose proof Gw as (_ & stored & O & S).
  split.
  - exists stored. split; [exact O|]. intros args. apply generateKey_captured. exact S.
  - intros a b r third now now' o1 st1 E1 El K.
    pose proof (genuine_apply H _ _ _ _ _ _ _ _ Gw E1) as G1.
    split.
    + rewrite clearCache_function. apply clear_entries_array; assumption.
    + intros now''. unfold lookup_cache. rewrite store_delete_entry_eq.
      destruct (store st1 id KNoThis); simpl; auto.
      apply ttl_peek_delete_eq. exact K.
Qed.

(** [CachedFunction(add)] in the demo state (the wrapper of identity [1] is
    returned), [add(2, 2)], then [clearCache(add, [2, 2])]. *)
Lemma clear_matches_like_calls_witness :
  let st1 := snd (apply demo cachedAdd VGlobal [num 2; num 2] 0 demo_state) in
  lookup_cache st1 1 KNoThis [num 2; num 2] 1 = Some (num 4) /\
  clearCache demo (VFun cachedAdd) (VObj 20) VUndefined 1 st1
  = (Returned tt, delete_entry 1 KNoThis [num 2; num 2] st1) /\
  lookup_cache (delete_entry 1 KNoThis [num 2; num 2] st1) 1 KNoThis [num 2; num 2] 1 = None.
Proof.
  intros st1.
  destruct (clear_matches_like_calls demo demo_state (VFun (Plain 1)) VUndefined
              1 (Plain 1) true None demo_state) as (_ & B).
  - apply engine_inv_step with (st := snd (CachedFunction demo VUndefined (VFun (Plain 1))
                                             VUndefined initial)).
    + apply engine_inv_step with (st := initial); [apply engine_inv_initial|].
      eapply step_CachedFunction. apply surjective_pairing.
    + eapply step_CachedFunction. apply surjective_pairing.
  - vm_compute. reflexivity.
  - destruct (B [num 2; num 2] [num 2; num 2] 20%positive VUndefined 0 1
                (Returned (num 4)) st1) as (C & D).
    + vm_compute. reflexivity.
    + reflexivity.
    + vm_compute. reflexivity.
    + split; [vm_compute; reflexivity|]. split; [exact C | apply D].
Defined.

(** X9. Clearing is shallow.  When a wrapper [w2] wraps another wrapper [w1]
    and [w1] holds a live value for the arguments, clearing the entry of [w2]
    does not make the body run again: the clearing succeeds and empties the
    entry of [w2], but the next call of [w2] is answered by the cache of [w1]
    and no function body is run. *)
Theorem clearing_is_shallow (H : Host) id1 id2 f s1 t1 s2 t2 r args third now now' st v :
  let w1 := CacheLayer id1 f s1 t1 in
  let w2 := CacheLayer id2 w1 s2 t2 in
  let key1 := generateKey H args (VBool s1) in
  let key2 := generateKey H args (VBool s2) in
  id1 <> id2 ->
  genuine H st w2 ->
  is_Some (cachedValues st !! KWrapper id1) ->
  elements H r = Some args ->
  lookup_cache st id1 KNoThis key1 now' = Some v ->
  let st' := delete_entry id2 KNoThis key2 st in
  clearCache H (VFun w2) (VObj r) third now st = (Returned tt, st') /\
  lookup_cache st' id2 KNoThis key2 now' = None /\
  exists st'',
    apply H w2 VGlobal args now' st' = (Returned v, st'') /\
    calls st'' = calls st.
Proof.
  intros w1 w2 key1 key2 N G X1 El L st'. pose proof G as (X2 & _).
  assert (lookup_cache st' id2 KNoThis key2 now' = None) as L2.
  { unfold lookup_cache. subst st'. rewrite store_delete_entry_eq.
    destruct (store st id2 KNoThis); simpl; auto. apply ttl_peek_delete_eq, keyEq_refl. }
  split; [|split; [exact L2|]].
  - rewrite clearCache_function. apply clear_entries_array; assumption.
  - assert (is_Some (cachedValues st' !! KWrapper id2)) as X2'
      by (apply cachedValues_delete_entry; assumption).
    set (stm := miss_state id2 KNoThis key2 now' st').
    assert (is_Some (cachedValues stm !! KWrapper id1)) as X1'.
    { destruct (only_context_miss_state id2 KNoThis key2 now' st') as (_ & _ & _ & D & _).
      apply D. apply cachedValues_delete_entry. assumption. }
    assert (lookup_cache stm id1 KNoThis key1 now' = Some v) as L1.
    { unfold lookup_cache, stm, miss_state.
      rewrite store_put_store_ne by congruence.
      rewrite store_ensure_ne by congruence.
      subst st'. rewrite store_delete_entry_ne by congruence. exact L. }
    pose proof (hit_returns_cached H id1 f s1 t1 VGlobal KNoThis args now' stm v X1' eq_refl L1)
      as E1.
    exists (fill id2 KNoThis key2 now' v t2 stm). split.
    + subst w2. apply miss_runs_getter; auto.
    + unfold fill, put_store. cbn [calls set_cachedValues]. unfold stm.
      rewrite calls_miss_state. subst st'.
      unfold delete_entry. destruct (store st id2 KNoThis); reflexivity.
Qed.

(** The wrapper of the wrapper of [add]: after [add(2, 2)] through both and
    [clearCache] of the outer one, the body is not run again. *)
Lemma clearing_is_shallow_witness :
  let outer := CacheLayer 3 cachedAdd true None in
  let st0 := snd (CachedFunction demo VUndefined (VFun cachedAdd) VUndefined demo_state) in
  let st := snd (apply demo outer VGlobal [num 2; num 2] 0 st0) in
  let st' := delete_entry 3 KNoThis [num 2; num 2] st in
  calls st = [mkCall 1 VGlobal [num 2; num 2]] /\
  clearCache demo (VFun outer) (VObj 20) VUndefined 1 st = (Returned tt, st') /\
  fst (apply demo outer VGlobal [num 2; num 2] 2 st') = Returned (num 4) /\
  calls (snd (apply demo outer VGlobal [num 2; num 2] 2 st')) = calls st.
Proof.
  intros outer st0 st st'.
  destruct (clearing_is_shallow demo 1 3 (Plain 1) true None true None 20 [num 2; num 2]
              VUndefined 1 2 st (num 4)) as (A & _ & s & B & C).
  - discriminate.
  - split; [vm_compute; eauto|]. exists None. split; vm_compute; reflexivity.
  - vm_compute. eauto.
  - reflexivity.
  - vm_compute. reflexivity.
  - assert (apply demo outer VGlobal [num 2; num 2] 2 st' = (Returned (num 4), s)) as B'
      by exact B.
    split; [vm_compute; reflexivity|]. split; [exact A|].
    rewrite B'. split; [reflexivity | exact C].
Defined.

(** ** Deadlines *)

(** X10. The deadline of an entry is set by the miss that stores it.  For a
    wrapper with ttl [t] whose miss at [now1] stored [v]: a call before
    [now1 + t] is a hit and leaves the entry as it is, so that from
    [now1 + t] on nothing is cached for the key however recent the last hit
    was; and the value a later miss at [now3] stores is cached until
    [now3 + t]. *)
Theorem deadline_is_set_by_the_miss (H : Host) id f strict t this ctx args now1 now2 now3 st v st' :
  let w := CacheLayer id f strict (Some t) in
  let key := generateKey H args (VBool strict) in
  is_Some (cachedValues st !! KWrapper id) ->
  context_of this = Some ctx ->
  apply H f this args now1 (miss_state id ctx key now1 st) = (Returned v, st') ->
  now2 < now1 + t ->
  now1 + t <= now3 ->
  let st1 := fill id ctx key now1 v (Some t) st' in
  apply H w this args now2 st1 = (Returned v, st1) /\
  lookup_cache (snd (apply H w this args now2 st1)) id ctx key now3 = None /\
  (forall v3 st3 now4,
      apply H f this args now3 (miss_state id ctx key now3 st1) = (Returned v3, st3) ->
      apply H w this args now3 st1 = (Returned v3, fill id ctx key now3 v3 (Some t) st3) /\
      (now4 < now3 + t ->
         lookup_cache (fill id ctx key now3 v3 (Some t) st3) id ctx key now4 = Some v3) /\
      (now3 + t <= now4 ->
         lookup_cache (fill id ctx key now3 v3 (Some t) st3) id ctx key now4 = None)).
Proof.
  intros w key X C E B2 B3 st1.
  destruct (store_after_getter H id f this ctx key args now1 st _ st' X C E) as [S1 S2].
  assert (is_Some (cachedValues st1 !! KWrapper id)) as X1
    by (apply cachedValues_put_store; assumption).
  assert (apply H w this args now2 st1 = (Returned v, st1)) as Hit
    by (apply (second_call_hits H id f strict (Some t) this ctx args now1 now2 st);
        assumption).
  assert (lookup_cache st1 id ctx key now3 = None) as L3.
  { subst st1. rewrite lookup_cache_fill_eq; auto using keyEq_refl.
    destruct (now1 + t <=? now3) eqn:G; auto. apply Z.leb_gt in G. lia. }
  split; [exact Hit|]. split; [rewrite Hit; exact L3|].
  intros v3 st3 now4 E3.
  destruct (store_after_getter H id f this ctx key args now3 st1 _ st3 X1 C E3) as [S3 _].
  split; [|split].
  - apply miss_runs_getter; assumption.
  - intros B4. rewrite lookup_cache_fill_eq; auto using keyEq_refl.
    destruct (now3 + t <=? now4) eqn:G; auto. apply Z.leb_le in G. lia.
  - intros B4. rewrite lookup_cache_fill_eq; auto using keyEq_refl.
    destruct (now3 + t <=? now4) eqn:G; auto. apply Z.leb_gt in G. lia.
Qed.

(** A ttl of ten milliseconds: stored at 0, hit at 9, gone at 10 and at 12
    (three milliseconds after the hit), stored again at 12 until 22. *)
Lemma deadline_is_set_by_the_miss_witness :
  let st := snd (CachedFunction demo VUndefined (VFun (Plain 1)) (VObj 10) demo_state) in
  let w := CacheLayer 3 (Plain 1) true (Some 10) in
  let args := [num 2; num 2] in
  let st1 := fill 3 KNoThis args 0 (num 4) (Some 10)
               (record_call (mkCall 1 VGlobal args) (miss_state 3 KNoThis args 0 st)) in
  let st3 := record_call (mkCall 1 VGlobal args) (miss_state 3 KNoThis args 12 st1) in
  apply demo w VGlobal args 9 st1 = (Returned (num 4), st1) /\
  lookup_cache (snd (apply demo w VGlobal args 9 st1)) 3 KNoThis args 12 = None /\
  lookup_cache (fill 3 KNoThis args 12 (num 4) (Some 10) st3) 3 KNoThis args 21 = Some (num 4).
Proof.
  intros st w args st1 st3.
  destruct (deadline_is_set_by_the_miss demo 3 (Plain 1) true 10 VGlobal KNoThis args 0 9 12 st
              (num 4) (record_call (mkCall 1 VGlobal args) (miss_state 3 KNoThis args 0 st)))
    as (A & B & C).
  - vm_compute. eauto.
  - reflexivity.
  - vm_compute. reflexivity.
  - lia.
  - lia.
  - destruct (C (num 4) st3 21 ltac:(vm_compute; reflexivity)) as (_ & D & _).
    split; [exact A|]. split; [exact B|]. apply D. lia.
Defined.

(** ** cacheGetter *)

(** The test "should return a function which has the same name as the
    original", and the name given to the wrapper of a getter. *)
Example test_name :
  function_name demo cachedAdd = "add" /\ function_name demo cachedData = "data" /\
  function_name demo (CacheLayer 3 cachedData true None) = "data".
Proof. repeat split. Qed.

(** The tests "should cache a getter on a class", "... on a class prototype"
    and "should clear a getter cache", on the host with a class. *)
Example test_cacheGetter :
  let r := cacheGetter class_owner class_prototypeOf (Returned tt) class_configurable
             class_refused class_host
             (VFun (Plain 7)) "data" (VStr "extra arg ignored") initial in
  let r' := cacheGetter class_owner class_prototypeOf (Returned tt) class_configurable
              class_refused class_host
              (VObj 50) "data" (VStr "extra arg ignored") initial in
  let H' := snd r in
  let g1 := Get H' (VObj 51) "data" 0 (snd (fst r)) in
  let g2 := Get H' (VObj 51) "data" 1 (snd g1) in
  let c := clearCache H' (VObj 51) (VStr "data") VUndefined 2 (snd g2) in
  let g3 := Get H' (VObj 51) "data" 3 (snd c) in
  fst (fst r) = Returned tt /\ fst r' = fst r /\
  getDescriptor H' 51 "data" = Some (AccessorProp (Some (CacheLayer 1 (Plain 5) true None))) /\
  fst g1 = Returned (VStr "value") /\ fst g2 = Returned (VStr "value") /\
  length (calls (snd g2)) = 1%nat /\
  fst c = Returned tt /\ length (calls (snd c)) = 1%nat /\
  fst g3 = Returned (VStr "value") /\ length (calls (snd g3)) = 2%nat.
Proof. vm_compute. repeat split. Qed.

Section CacheGetterFacts.

Variable owner : ref -> string -> option ref.
Variable prototypeOf : Callable -> Value.
Variable H : Host.

Lemma Get_accessor r name g now st :
  getDescriptor H r name = Some (AccessorProp (Some g)) ->
  Get H (VObj r) name now st = apply H g (VObj r) [] now st.
Proof. intros D. unfold Get. rewrite D. reflexivity. Qed.

Lemma getDescriptor_define_eq p name d r :
  owner r name = Some p ->
  getDescriptor (define_property owner H p name d) r name = Some d.
Proof.
  intros O. unfold define_property. cbn [getDescriptor].
  rewrite String.eqb_refl, O, Pos.eqb_refl. reflexivity.
Qed.

Lemma getDescriptor_define_ne p name d r n :
  n <> name \/ owner r n <> Some p ->
  getDescriptor (define_property owner H p name d) r n = getDescriptor H r n.
Proof.
  intros N. unfold define_property. cbn [getDescriptor].
  destruct (String.eqb n name) eqn:E; [|reflexivity].
  apply String.eqb_eq in E. subst n.
  destruct N as [N|N]; [contradiction|].
  destruct (owner r name) as [q|]; [|reflexivity].
  destruct (Pos.eqb q p) eqn:Q; [|reflexivity].
  apply Pos.eqb_eq in Q. subst q. contradiction.
Qed.

Lemma genuine_define_property p name d st w :
  name <> "strictArgMatch" ->
  genuine H st w -> genuine (define_property owner H p name d) st w.
Proof.
  intros N G. destruct w as [r|id f s t]; [exact G|].
  destruct G as (X & stored & O & S). split; [exact X|].
  exists stored. split; [exact O|]. rewrite S.
  destruct stored as [o|]; [|reflexivity].
  destruct o; try reflexivity.
  unfold data_get. rewrite getDescriptor_define_ne by (left; congruence). reflexivity.
Qed.

Lemma callback_without_getter options prop st :
  (forall c, desc_get prop <> VFun c) ->
  cache_getter_callback H options prop st = (Thrown Error "Property has no getter", st).
Proof.
  intros F. unfold cache_getter_callback.
  destruct (desc_get prop) eqn:E; try reflexivity. exfalso. eapply F. reflexivity.
Qed.

End CacheGetterFacts.

(** X11. [cacheGetter] refuses a property that has no getter.  When the named
    property of the prototype (of the class, when a class is given) exists
    and is a data property or an accessor without getter, [cacheGetter]
    throws the error "Property has no getter" and changes neither the engine
    state nor the objects. *)
Theorem cacheGetter_requires_getter owner prototypeOf on_missing configurable on_refused
    (H : Host) prototype r propName d options st :
  match prototype with VFun c => prototypeOf c | _ => prototype end = VObj r ->
  getDescriptor H r propName = Some d ->
  (forall c, desc_get d <> VFun c) ->
  cacheGetter owner prototypeOf on_missing configurable on_refused H prototype propName options st
  = (Thrown Error "Property has no getter", st, H).
Proof.
  intros P D F. unfold cacheGetter, modifyProperty. rewrite P.
  unfold descriptor_of. rewrite D.
  rewrite (callback_without_getter H options _ st F). reflexivity.
Qed.

(** The data property [size] of the class, named through the class and
    through its prototype. *)
Lemma cacheGetter_requires_getter_witness :
  cacheGetter class_owner class_prototypeOf (Returned tt) class_configurable class_refused
    class_host (VFun (Plain 7)) "size" VUndefined initial
  = (Thrown Error "Property has no getter", initial, class_host) /\
  cacheGetter class_owner class_prototypeOf (Returned tt) class_configurable class_refused
    class_host (VObj 50) "size" (VObj 10) initial
  = (Thrown Error "Property has no getter", initial, class_host).
Proof.
  split.
  - apply (cacheGetter_requires_getter _ _ _ _ _ _ _ 50 "size" (DataProp (num 1)));
      [reflexivity | reflexivity | intros c E; discriminate].
  - apply (cacheGetter_requires_getter _ _ _ _ _ _ _ 50 "size" (DataProp (num 1)));
      [reflexivity | reflexivity | intros c E; discriminate].
Defined.

(** X12. [cacheGetter] installs the registered wrapper of the getter.  When
    the prototype (of the class, when a class is given) itself defines the
    named property as an accessor with getter [g]: if
    [CachedFunction(g, options)] throws, [cacheGetter] throws the same
    exception and changes neither the state nor the objects; if it returns,
    the state is the one that call leaves, and when the property is
    configurable [cacheGetter] returns and every object that shows the
    property of the prototype now shows it with the wrapper registered for
    [g] and the configuration as getter, all other properties being as
    before, whereas a property that is not configurable keeps its getter and
    the objects are as before. *)
Theorem cacheGetter_installs_wrapper owner prototypeOf on_missing configurable on_refused
    (H : Host) prototype r name g options st :
  match prototype with VFun c => prototypeOf c | _ => prototype end = VObj r ->
  getDescriptor H r name = Some (AccessorProp (Some g)) ->
  owner r name = Some r ->
  match CachedFunction H VUndefined (VFun g) options st with
  | (Returned w, st') =>
      exists c, w = VFun c /\
        registered st' (VFun g) (paramsKey H options) = Some c /\
        let H' := define_property owner H r name (AccessorProp (Some c)) in
        (configurable r name = true ->
           cacheGetter owner prototypeOf on_missing configurable on_refused
                       H prototype name options st
           = (Returned tt, st', H') /\
           (forall r', owner r' name = Some r ->
              getDescriptor H' r' name = Some (AccessorProp (Some c))) /\
           (forall r' n, n <> name \/ owner r' n <> Some r ->
              getDescriptor H' r' n = getDescriptor H r' n)) /\
        (configurable r name = false ->
           cacheGetter owner prototypeOf on_missing configurable on_refused
                       H prototype name options st
           = (on_refused, st', H))
  | (Thrown cls msg, st') =>
      st' = st /\
      cacheGetter owner prototypeOf on_missing configurable on_refused
                  H prototype name options st
      = (Thrown cls msg, st, H)
  end.
Proof.
  intros P D O.
  assert (own owner r name = true) as Ow by (unfold own; rewrite O; apply Pos.eqb_refl).
  assert (forall o st',
    CachedFunction H VUndefined (VFun g) options st = (o, st') ->
    cacheGetter owner prototypeOf on_missing configurable on_refused H prototype name options st =
    match o with
    | Returned w =>
        if configurable r name
        then (Returned tt, st',
              define_property owner H r name
                (AccessorProp (match w with VFun c => Some c | _ => None end)))
        else (on_refused, st', H)
    | Thrown cls msg => (Thrown cls msg, st', H)
    end) as K.
  { intros o st' E. unfold cacheGetter, modifyProperty. rewrite P.
    unfold descriptor_of. rewrite D. unfold cache_getter_callback.
    cbn [desc_get typeof String.eqb Ascii.eqb Bool.eqb negb].
    unfold bind. rewrite E. destruct o; [|reflexivity].
    cbn [ret]. rewrite Ow. reflexivity. }
  assert (forall c st',
    CachedFunction H VUndefined (VFun g) options st = (Returned (VFun c), st') ->
    let H' := define_property owner H r name (AccessorProp (Some c)) in
    (configurable r name = true ->
       cacheGetter owner prototypeOf on_missing configurable on_refused
                   H prototype name options st
       = (Returned tt, st', H') /\
       (forall r', owner r' name = Some r ->
          getDescriptor H' r' name = Some (AccessorProp (Some c))) /\
       (forall r' n, n <> name \/ owner r' n <> Some r ->
          getDescriptor H' r' n = getDescriptor H r' n)) /\
    (configurable r name = false ->
       cacheGetter owner prototypeOf on_missing configurable on_refused
                   H prototype name options st
       = (on_refused, st', H))) as L.
  { intros c st' E H'. pose proof (K _ _ E) as X. cbn in X. split.
    - intros C. rewrite C in X. split; [exact X|]. split.
      + intros r' O'. apply getDescriptor_define_eq. exact O'.
      + intros r' n N. apply getDescriptor_define_ne. exact N.
    - intros C. rewrite C in X. exact X. }
  destruct (CachedFunction H VUndefined (VFun g) options st) as [[w|cls msg] st'] eqn:E.
  - destruct (CachedFunction_cases H _ _ _ _ _ E)
      as [[_ (cls & msg & X)]|[[-> (c & X & R)]|(g' & Eg & N & R & X & ->)]].
    + discriminate.
    + inversion X; subst. exists c. split; [reflexivity|]. split; [exact R|].
      exact (L _ _ eq_refl).
    + inversion Eg; subst g'. inversion X; subst.
      eexists. split; [reflexivity|]. split.
      * apply registered_entry. exists (fn_key g). split; [reflexivity|].
        apply entry_with_wrapper. left. auto.
      * exact (L _ _ eq_refl).
  - destruct (CachedFunction_cases H _ _ _ _ _ E)
      as [[-> _]|[[_ (c & X & _)]|(g' & _ & _ & _ & X & _)]]; [|discriminate..].
    split; [reflexivity | exact (K _ _ eq_refl)].
Qed.

(** [cacheGetter(TestClass, 'data')], the same with [{ttl: -1}], and the
    getter [fixed], which is not configurable. *)
Lemma cacheGetter_installs_wrapper_witness :
  let w := CacheLayer 1 (Plain 5) true None in
  let H' := define_property class_owner class_host 50 "data" (AccessorProp (Some w)) in
  let st' := snd (CachedFunction class_host VUndefined (VFun (Plain 5)) VUndefined initial) in
  cacheGetter class_owner class_prototypeOf (Returned tt) class_configurable class_refused
    class_host (VFun (Plain 7)) "data" VUndefined initial
  = (Returned tt, st', H') /\
  getDescriptor H' 51 "data" = Some (AccessorProp (Some w)) /\
  cacheGetter class_owner class_prototypeOf (Returned tt) class_configurable class_refused
    class_host (VFun (Plain 7)) "data" (VObj 14) initial
  = (Thrown RangeError "ttl must be a positive integer", initial, class_host) /\
  cacheGetter class_owner class_prototypeOf (Returned tt) class_configurable class_refused
    class_host (VFun (Plain 7)) "fixed" VUndefined initial
  = (class_refused, st', class_host).
Proof.
  intros w H' st'.
  pose proof (cacheGetter_installs_wrapper class_owner class_prototypeOf (Returned tt)
                class_configurable class_refused
                class_host (VFun (Plain 7)) 50 "data" (Plain 5) VUndefined initial
                eq_refl eq_refl eq_refl) as A.
  pose proof (cacheGetter_installs_wrapper class_owner class_prototypeOf (Returned tt)
                class_configurable class_refused
                class_host (VFun (Plain 7)) 50 "data" (Plain 5) (VObj 14) initial
                eq_refl eq_refl eq_refl) as B.
  pose proof (cacheGetter_installs_wrapper class_owner class_prototypeOf (Returned tt)
                class_configurable class_refused
                class_host (VFun (Plain 7)) 50 "fixed" (Plain 5) VUndefined initial
                eq_refl eq_refl eq_refl) as C.
  destruct (CachedFunction class_host VUndefined (VFun (Plain 5)) (VObj 14) initial)
    as [[w1|cls msg] st''] eqn:E'; [vm_compute in E'; discriminate|].
  destruct B as (_ & B1).
  assert (cls = RangeError /\ msg = "ttl must be a positive integer") as [-> ->]
    by (vm_compute in E'; inversion E'; auto).
  subst st'.
  destruct (CachedFunction class_host VUndefined (VFun (Plain 5)) VUndefined initial)
    as [[w0|cls msg] st'] eqn:E; [|vm_compute in E; discriminate].
  destruct A as (c & Ec & _ & A1 & _).
  destruct C as (c' & Ec' & _ & _ & C1).
  assert (w0 = VFun w) as -> by (vm_compute in E; inversion E; reflexivity).
  inversion Ec; subst c. inversion Ec'; subst c'.
  destruct (A1 eq_refl) as (A2 & A3 & _).
  cbn [snd].
  split; [exact A2|]. split; [apply A3; reflexivity|]. split; [exact B1 | exact (C1 eq_refl)].
Defined.

Lemma calls_fill id ctx key now v ttl st : calls (fill id ctx key now v ttl st) = calls st.
Proof. reflexivity. Qed.

Lemma calls_record_call c st : calls (record_call c st) = calls st ++ [c].
Proof. reflexivity. Qed.

Lemma calls_delete_entry id ctx key st : calls (delete_entry id ctx key st) = calls st.
Proof. unfold delete_entry. destruct (store st id ctx); reflexivity. Qed.

Lemma lookup_cache_delete_entry id ctx key now st :
  lookup_cache (delete_entry id ctx key st) id ctx key now = None.
Proof.
  unfold lookup_cache. rewrite store_delete_entry_eq.
  destruct (store st id ctx) as [m|]; [|reflexivity].
  cbn. apply ttl_peek_delete_eq. apply keyEq_refl.
Qed.

Lemma generateKey_nil (H : Host) s : generateKey H [] (VBool s) = [].
Proof. destruct s; reflexivity. Qed.

(** X13. A cached getter runs once per instance.  Let the getter an object
    shows for a property be the wrapper [CachedFunction] made of a getter of
    the host program, as [cacheGetter] installs it.  The first read of the
    property runs the getter once, with the object as receiver and no
    arguments; a second read within the lifetime answers from the cache and
    leaves the state as it is.  When the value of the getter is not a
    function, [clearCache(object, name)] then removes exactly that entry,
    whatever third argument it is given, and the next read runs the getter
    again.  When the value is a function that was never wrapped,
    [clearCache(object, name)] takes it for the function to clear: it throws
    the [ReferenceError] and the entry of the getter stays. *)
Theorem cached_getter_runs_once (H : Host)
    name r0 options st id s t st0 inst now1 now2 now3 third v :
  let w := CacheLayer id (Plain r0) s t in
  let this := VObj inst in
  let call := mkCall r0 this [] in
  let st1 := fill id (KObj inst) [] now1 v t
               (record_call call (miss_state id (KObj inst) [] now1 st0)) in
  let st2 := delete_entry id (KObj inst) [] st1 in
  engine_inv H st ->
  CachedFunction H VUndefined (VFun (Plain r0)) options st = (Returned (VFun w), st0) ->
  getDescriptor H inst name = Some (AccessorProp (Some w)) ->
  lookup_cache st0 id (KObj inst) [] now1 = None ->
  body H r0 this [] = Returned v ->
  match t with Some d => now2 < now1 + d | None => True end ->
  Get H this name now1 st0 = (Returned v, st1) /\
  calls st1 = calls st0 ++ [call] /\
  Get H this name now2 st1 = (Returned v, st1) /\
  ((forall c, v <> VFun c) ->
     clearCache H this (VStr name) third now2 st1 = (Returned tt, st2) /\
     exists st3, Get H this name now3 st2 = (Returned v, st3) /\
                 calls st3 = calls st0 ++ [call; call]) /\
  (forall c, v = VFun c -> cachedValues st1 !! fn_key c = None ->
     exists msg, clearCache H this (VStr name) third now2 st1
                 = (Thrown ReferenceError msg, st1) /\
                 lookup_cache st1 id (KObj inst) [] now2 = Some v).
Proof.
  intros w this call st1 st2 (W & G & _) E D L B T.
  destruct (CachedFunction_genuine H _ _ _ _ _ W G E) as (_ & c & Ec & G0).
  inversion Ec; subst c. clear Ec.
  assert (is_Some (cachedValues st0 !! KWrapper id)) as X0 by (destruct G0; assumption).
  assert (forall now st', Get H this name now st' = apply H w this [] now st') as GA
    by (intros; apply Get_accessor; exact D).
  assert (forall now st', apply H (Plain r0) this [] now st'
                          = (Returned v, record_call call st')) as P.
  { intros now st'. cbn. unfold bind, modify, lift. cbn.
    change (body H r0 (VObj inst) []) with (body H r0 this []). rewrite B. reflexivity. }
  assert (apply H w this [] now1 st0 = (Returned v, st1)) as R1.
  { pose proof (miss_runs_getter H id (Plain r0) s t this (KObj inst) [] now1 st0 v
                  (record_call call (miss_state id (KObj inst) [] now1 st0))) as M.
    rewrite generateKey_nil in M. exact (M X0 eq_refl L (P _ _)). }
  assert (apply H w this [] now2 st1 = (Returned v, st1)) as R2.
  { pose proof (second_call_hits H id (Plain r0) s t this (KObj inst) [] now1 now2 st0 v
                  (record_call call (miss_state id (KObj inst) [] now1 st0))) as M.
    rewrite generateKey_nil in M. exact (M X0 eq_refl (P _ _) T). }
  assert (genuine H st1 w) as G1 by exact (genuine_apply H w _ _ _ _ _ _ _ G0 R1).
  split; [rewrite GA; exact R1|].
  split; [unfold st1; rewrite calls_fill, calls_record_call, calls_miss_state; reflexivity|].
  split; [rewrite GA; exact R2|].
  split.
  - intros F.
    assert (String.eqb (typeof v) "function" = false) as Tv.
    { destruct v; try reflexivity. exfalso. eapply F. reflexivity. }
    split.
    { unfold clearCache, bind, this.
      rewrite (resolve_getter H inst name w third now2 st1 v st1 D R2 Tv).
      cbn [fst snd]. apply clear_entries_empty_literal. exact G1. }
    assert (is_Some (cachedValues st2 !! KWrapper id)) as X2.
    { unfold st2. apply cachedValues_delete_entry. destruct G1; assumption. }
    pose proof (miss_runs_getter H id (Plain r0) s t this (KObj inst) [] now3 st2 v
                  (record_call call (miss_state id (KObj inst) [] now3 st2))) as M.
    rewrite generateKey_nil in M.
    eexists. split.
    + rewrite GA.
      exact (M X2 eq_refl (lookup_cache_delete_entry _ _ _ _ _) (P _ _)).
    + rewrite calls_fill, calls_record_call, calls_miss_state. unfold st2.
      rewrite calls_delete_entry. unfold st1.
      rewrite calls_fill, calls_record_call, calls_miss_state, <- app_assoc. reflexivity.
  - intros c -> C.
    assert (Get H (VObj inst) name now2 st1 = (Returned (VFun c), st1)) as G2
      by (rewrite <- R2; apply GA).
    destruct (clear_entries_not_cached H (VFun c) (KObj inst) (ArgsGiven third) st1) as [msg X].
    { rewrite cached_function, C. reflexivity. }
    exists msg. split.
    + unfold this.
      rewrite (clearCache_callable H (VObj inst) (VStr name) third (VFun c) (KObj inst) third
                 now2 st1 st1
                 (callable_member H now2 st1 inst name third c st1 (VFun c) st1 G2 G2)).
      exact X.
    + destruct (store_after_getter H id (Plain r0) this (KObj inst) [] [] now1 st0 _ _
                  X0 eq_refl (P now1 _)) as [S1 _].
      unfold st1. rewrite lookup_cache_fill_eq by (auto using keyEq_refl).
      destruct t as [d|]; auto.
      destruct (now1 + d <=? now2) eqn:G3; auto. apply Z.leb_le in G3. lia.
Qed.

(** The class of the tests after [cacheGetter(TestClass, 'data')]: reads on
    the instance 51 and [clearCache(test, 'data', [2, 2])]. *)
Lemma cached_getter_runs_once_witness :
  let w := CacheLayer 1 (Plain 5) true None in
  let H' := define_property class_owner class_host 50 "data" (AccessorProp (Some w)) in
  let st0 := snd (CachedFunction H' VUndefined (VFun (Plain 5)) VUndefined initial) in
  let g1 := Get H' (VObj 51) "data" 0 st0 in
  let g2 := Get H' (VObj 51) "data" 5 (snd g1) in
  let c := clearCache H' (VObj 51) (VStr "data") (VObj 20) 5 (snd g2) in
  let g3 := Get H' (VObj 51) "data" 9 (snd c) in
  fst g1 = Returned (VStr "value") /\ snd g2 = snd g1 /\
  fst c = Returned tt /\ fst g3 = Returned (VStr "value") /\
  calls (snd g3) = [mkCall 5 (VObj 51) []; mkCall 5 (VObj 51) []].
Proof.
  intros w H' st0 g1 g2 c g3. subst g3 c g2 g1 w.
  assert (CachedFunction H' VUndefined (VFun (Plain 5)) VUndefined initial
          = (Returned (VFun (CacheLayer 1 (Plain 5) true None)), st0)) as E
    by (vm_compute; reflexivity).
  assert (forall cc, VStr "value" <> VFun cc) as F by (intros cc; discriminate).
  destruct (cached_getter_runs_once H' "data" 5 VUndefined initial
              1 true None st0 51 0 5 9 (VObj 20) (VStr "value")
              (engine_inv_initial H') E
              ltac:(vm_compute; reflexivity)
              ltac:(vm_compute; reflexivity) eq_refl I)
    as (A1 & A2 & A3 & A45 & _).
  destruct (A45 F) as (A4 & st3 & A5 & A6).
  rewrite A1. cbn [fst snd]. rewrite A3. cbn [fst snd]. rewrite A4. cbn [fst snd].
  rewrite A5. cbn [fst snd]. rewrite A6.
  repeat split; reflexivity.
Defined.
